(** * The optimized wallpaper service (src/lib/optimizedWallpaperService.ts)

    A shallow embedding of [OptimizedWallpaperService]: the date-scoped
    cache keys, the tiered cache resolver, the downloader, the retry
    scheduler, the request deduplicator and the cleanup of expired
    entries, followed by the properties the specification states about
    them.

    Asynchronous methods are embedded as programs of a small free monad
    ([prog]): every awaited call of an external collaborator (IndexedDB
    cache, blob-URL manager, network, custom wallpaper manager) is one
    action with a success and an exception continuation; synchronous,
    in-memory code ([localStorage], the two retry maps, [setTimeout]) is
    a pure function on the state, run as one atomic action. *)

From Stdlib Require Import Ascii String NArith ZArith List Sorted Lia.
From stdpp Require Import gmap strings pretty list fin_maps.

Local Open Scope string_scope.
Local Open Scope list_scope.

(* ===================================================================== *)
(** * Strings as JavaScript uses them *)
(* ===================================================================== *)

Module Str.

(** [s.startsWith(p)] *)
Definition startsWith (s p : string) : bool := String.prefix p s.

(** [s.includes(p)]: [p] occurs somewhere in [s]. *)
Fixpoint includes (s p : string) : bool :=
  String.prefix p s ||
  match s with
  | EmptyString => false
  | String _ t => includes t p
  end.

(** JavaScript truthiness of a string: only the empty string is falsy. *)
Definition nonEmpty (s : string) : bool :=
  match s with EmptyString => false | _ => true end.

(** Truthiness of a value that may be [null]/[undefined]. *)
Definition truthy (o : option string) : bool :=
  match o with Some s => nonEmpty s | None => false end.

(** [a < b] and [a <= b] on strings: code-unit lexicographic order. *)
Definition lt (a b : string) : bool := String.ltb a b.
Definition le (a b : string) : bool := String.leb a b.

(** [Array.prototype.sort()] with the default comparison, on strings. *)
Fixpoint insert (k : string) (l : list string) : list string :=
  match l with
  | [] => [k]
  | x :: t => if le k x then k :: x :: t else x :: insert k t
  end.

Definition sort (l : list string) : list string := foldr insert [] l.

Definition isDigit (c : ascii) : bool :=
  let n := N_of_ascii c in ((48 <=? n) && (n <=? 57))%N.

Definition isHyphen (c : ascii) : bool := Ascii.eqb c "-".

(** Does [s] start with a match of [\d{4}-\d{2}-\d{2}]? *)
Definition dateAt (s : string) : bool :=
  match s with
  | String y1 (String y2 (String y3 (String y4 (String h1
    (String m1 (String m2 (String h2 (String d1 (String d2 _))))))))) =>
      isDigit y1 && isDigit y2 && isDigit y3 && isDigit y4 && isHyphen h1 &&
      isDigit m1 && isDigit m2 && isHyphen h2 && isDigit d1 && isDigit d2
  | _ => false
  end.

(** [s.match(/(\d{4}-\d{2}-\d{2})/)]: the leftmost match, if any
    (capture group 1 is the whole match). *)
Fixpoint matchDate (s : string) : option string :=
  if dateAt s then Some (String.substring 0 10 s)
  else match s with
       | EmptyString => None
       | String _ t => matchDate t
       end.

Definition hexDigit (n : N) : ascii :=
  ascii_of_N (if (n <? 10)%N then 48 + n else 55 + n).

Definition isUnreserved (c : ascii) : bool :=
  let n := N_of_ascii c in
  ((65 <=? n) && (n <=? 90) || (97 <=? n) && (n <=? 122) || isDigit c ||
   existsb (Ascii.eqb c) ["-"; "_"; "."; "!"; "~"; "*"; "'"; "("; ")"])%N%char.

(** [encodeURIComponent] on a string of UTF-8 bytes: unreserved characters
    are kept, every other byte becomes [%XX]. *)
Fixpoint encodeURIComponent (s : string) : string :=
  match s with
  | EmptyString => EmptyString
  | String c t =>
      if isUnreserved c then String c (encodeURIComponent t)
      else let n := N_of_ascii c in
           String "%" (String (hexDigit (n / 16)) (String (hexDigit (n mod 16))
             (encodeURIComponent t)))
  end.

End Str.

(* ===================================================================== *)
(** * Calendar dates *)
(* ===================================================================== *)

Module Date.

Local Open Scope N_scope.

Record date := mkDate { year : N; month : N; day : N }.

Definition isLeap (y : N) : bool :=
  (y mod 4 =? 0) && negb (y mod 100 =? 0) || (y mod 400 =? 0).

Definition daysInMonth (y m : N) : N :=
  match m with
  | 2 => if isLeap y then 29 else 28
  | 4 | 6 | 9 | 11 => 30
  | _ => 31
  end.

Definition nextDay (d : date) : date :=
  if day d <? daysInMonth (year d) (month d)
  then mkDate (year d) (month d) (day d + 1)
  else if month d <? 12 then mkDate (year d) (month d + 1) 1
  else mkDate (year d + 1) 1 1.

Definition epoch : date := mkDate 1970 1 1.

(** The calendar date of the [n]-th local day after 1970-01-01.  The
    service only ever observes the clock through the local calendar day,
    so the clock is a day number. *)
Definition civil (n : N) : date := N.iter n nextDay epoch.

Definition prevDay (d : date) : date :=
  if 1 <? day d then mkDate (year d) (month d) (day d - 1)
  else if 1 <? month d
       then mkDate (year d) (month d - 1) (daysInMonth (year d) (month d - 1))
  else mkDate (year d - 1) 12 31.

(** What [d.setDate(d.getDate() - k)] makes of the date of day [n]: the
    calendar date [k] days earlier, also when that is before 1970-01-01. *)
Definition daysAgo (k n : N) : date :=
  if k <=? n then civil (n - k) else N.iter (k - n) prevDay epoch.

Definition digit (n : N) : ascii := ascii_of_N (48 + n).

Definition pad2 (n : N) (rest : string) : string :=
  String (digit (n / 10 mod 10)) (String (digit (n mod 10)) rest).

Definition pad4 (n : N) (rest : string) : string :=
  pad2 (n / 100) (pad2 (n mod 100) rest).

Definition format (d : date) : string :=
  pad4 (year d) (String "-" (pad2 (month d) (String "-" (pad2 (day d) EmptyString)))).

(** Modelled from the spec: [getLocalDateString] of [dateUtils.ts], which
    is not part of the sources: the local calendar date as [YYYY-MM-DD]. *)
Definition getLocalDateString (n : N) : string := format (civil n).

(** Calendar order. *)
Definition before (a b : date) : Prop :=
  year a < year b \/
  (year a = year b /\ (month a < month b \/ (month a = month b /\ day a < day b))).

(** A date of the calendar. *)
Definition valid (d : date) : Prop :=
  1 <= month d <= 12 /\ 1 <= day d <= daysInMonth (year d) (month d).

End Date.

(* ===================================================================== *)
(** * Data model *)
(* ===================================================================== *)

(** What a [Blob] holds.  Image data is opaque; the metadata record written
    next to a wallpaper is the JSON document [{ originalUrl }], kept in
    parsed form. *)
Inductive payload :=
| Image (data : N)
| MetadataJson (originalUrl : string).

Record Blob := mkBlob { size : N; mime : string; body : payload }.

(** The part of a fetch [Response] that [downloadAndCache] reads. *)
Record Response := mkResponse {
  status : N;
  contentType : option string;       (* headers.get('Content-Type') *)
  wallpaperSource : option string;   (* headers.get('X-Wallpaper-Source') *)
  respBody : Blob
}.

Inductive error :=
| NetworkError          (* request failed, timed out or was aborted *)
| EdgeFunctionError     (* 边缘函数返回错误 *)
| InvalidErrorResponse  (* 边缘函数返回了无效的错误响应 *)
| EmptyPayload          (* 下载的壁纸数据为空 *)
| SyntaxError           (* JSON.parse *)
| StorageError
| OtherError.

(** Result of [getSmartCache]. *)
Record CacheHit := mkHit {
  hit_url : string;
  hit_isToday : bool;
  hit_originalUrl : option string
}.

(** Result of [downloadAndCache]. *)
Record Downloaded := mkDownloaded {
  blobUrl : string;
  dl_originalUrl : string;
  isFallback : bool
}.

(** Result of [getWallpaper]. *)
Record Wallpaper := mkWallpaper {
  url : string;
  isFromCache : bool;
  isToday : bool;
  needsUpdate : bool;
  originalUrl : option string
}.

(** A pending [setTimeout] of [scheduleRetry]: the variables its callback
    closes over, and the delay it was armed with. *)
Record timer := mkTimer {
  t_retryKey : string;
  t_resolution : string;
  t_retryCount : nat;
  t_delayMs : N
}.

(** Everything synchronous code can read or write: the clock (as a local
    day number), the build-time environment, [localStorage], the two retry
    maps of the service instance, the browser's timer table, and the
    background updates that were started without being awaited. *)
Record mem := mkMem {
  today : N;
  supabaseUrlEnv : string;            (* import.meta.env.VITE_SUPABASE_URL || '' *)
  anonKeyEnv : string;                (* import.meta.env.VITE_SUPABASE_ANON_KEY *)
  localStorage : gmap string string;
  retryTimers : gmap string nat;
  retryCounts : gmap string nat;
  timeouts : gmap nat timer;
  nextTimer : nat;
  spawned : list string
}.

(** The asynchronous collaborators. *)
Record ext := mkExt {
  idb : gmap string Blob;             (* indexedDBCache *)
  handles : gmap string Blob;         (* memoryManager: blob URL -> payload *)
  nextHandle : nat;
  network : string -> option Response;
  customWallpaper : option string     (* customWallpaperManager.getCurrentWallpaper() *)
}.

Record state := mkState { sync : mem; async : ext }.

Definition set_localStorage (f : gmap string string -> gmap string string) (m : mem) : mem :=
  mkMem (today m) (supabaseUrlEnv m) (anonKeyEnv m) (f (localStorage m)) (retryTimers m)
        (retryCounts m) (timeouts m) (nextTimer m) (spawned m).
Definition set_retryTimers (f : gmap string nat -> gmap string nat) (m : mem) : mem :=
  mkMem (today m) (supabaseUrlEnv m) (anonKeyEnv m) (localStorage m) (f (retryTimers m))
        (retryCounts m) (timeouts m) (nextTimer m) (spawned m).
Definition set_retryCounts (f : gmap string nat -> gmap string nat) (m : mem) : mem :=
  mkMem (today m) (supabaseUrlEnv m) (anonKeyEnv m) (localStorage m) (retryTimers m)
        (f (retryCounts m)) (timeouts m) (nextTimer m) (spawned m).
Definition set_timeouts (f : gmap nat timer -> gmap nat timer) (m : mem) : mem :=
  mkMem (today m) (supabaseUrlEnv m) (anonKeyEnv m) (localStorage m) (retryTimers m)
        (retryCounts m) (f (timeouts m)) (nextTimer m) (spawned m).
Definition set_nextTimer (n : nat) (m : mem) : mem :=
  mkMem (today m) (supabaseUrlEnv m) (anonKeyEnv m) (localStorage m) (retryTimers m)
        (retryCounts m) (timeouts m) n (spawned m).
Definition set_spawned (f : list string -> list string) (m : mem) : mem :=
  mkMem (today m) (supabaseUrlEnv m) (anonKeyEnv m) (localStorage m) (retryTimers m)
        (retryCounts m) (timeouts m) (nextTimer m) (f (spawned m)).
Definition set_today (n : N) (m : mem) : mem :=
  mkMem n (supabaseUrlEnv m) (anonKeyEnv m) (localStorage m) (retryTimers m)
        (retryCounts m) (timeouts m) (nextTimer m) (spawned m).

Definition set_idb (f : gmap string Blob -> gmap string Blob) (e : ext) : ext :=
  mkExt (f (idb e)) (handles e) (nextHandle e) (network e) (customWallpaper e).

Definition set_sync (f : mem -> mem) (s : state) : state := mkState (f (sync s)) (async s).
Definition set_async (f : ext -> ext) (s : state) : state := mkState (sync s) (f (async s)).

(* ===================================================================== *)
(** * Programs *)
(* ===================================================================== *)

(** One action per awaited external call; [Sync] runs a piece of
    synchronous code atomically.  Calls to the logger and to
    [errorHandler.handleError] have no effect on the state of the service
    and are taken not to throw: they are left out.  The time to live
    passed to [indexedDBCache.set] is recorded in the action; the store of
    the model does not expire entries by itself. *)
Inductive action : Type -> Type :=
| Sync {X : Type} (f : mem -> X * mem) : action X
| IdbGet (key : string) : action (option Blob)
| IdbSet (key : string) (b : Blob) (ttlMs : N) : action unit
| IdbDelete (key : string) : action unit
| IdbGetAllKeys : action (list string)
| BlobText (b : Blob) : action payload
| CreateBlobUrl (b : Blob) (tag : string) : action string
| Fetch (url : string) (headers : list (string * string)) (timeoutMs : N) : action Response
| RespJson (r : Response) : action payload
| RespBlob (r : Response) : action Blob
| GetCurrentWallpaper : action (option string)
| Detach (a : action unit) : action unit.

Inductive prog (A : Type) : Type :=
| Ret (a : A)
| Throw (e : error)
| Act {X : Type} (a : action X) (k : X -> prog A) (h : error -> prog A).

Arguments Ret {A} a.
Arguments Throw {A} e.
Arguments Act {A X} a k h.

(** [await a]: the value on success, the exception otherwise. *)
Definition call {X} (a : action X) : prog X := Act a Ret Throw.

(** [a.then(..).catch(..)] without [await]: the call is issued and the
    caller goes on at once; a failure is only logged. *)
Definition fire (a : action unit) : prog unit := call (Detach a).

Fixpoint bind {A B} (p : prog A) (f : A -> prog B) : prog B :=
  match p with
  | Ret a => f a
  | Throw e => Throw e
  | Act a k h => Act a (fun x => bind (k x) f) (fun e => bind (h e) f)
  end.

(** [try { p } catch (e) { handler e }] *)
Fixpoint try_catch {A} (p : prog A) (handler : error -> prog A) : prog A :=
  match p with
  | Ret a => Ret a
  | Throw e => handler e
  | Act a k h => Act a (fun x => try_catch (k x) handler) (fun e => try_catch (h e) handler)
  end.

Declare Scope prog_scope.
Delimit Scope prog_scope with prog.
Bind Scope prog_scope with prog.
Notation "x <- p ;; q" := (bind p (fun x => q))
  (at level 100, p at next level, right associativity) : prog_scope.
Notation "p ;; q" := (bind p (fun _ => q))
  (at level 100, right associativity) : prog_scope.
Local Open Scope prog_scope.

(** Synchronous code that reads the state. *)
Definition read {X} (f : mem -> X) : prog X := call (Sync (fun m => (f m, m))).
(** Synchronous code that changes the state. *)
Definition update (f : mem -> mem) : prog unit := call (Sync (fun m => (tt, f m))).

Inductive outcome (A : Type) :=
| Resolved (a : A)
| Rejected (e : error).
Arguments Resolved {A} a.
Arguments Rejected {A} e.

(** How the environment answers an action: a value or an exception. *)
Definition handler := forall X, action X -> state -> (X + error) * state.

(** Running a program to completion, without interleaving. *)
Fixpoint run {A} (H : handler) (p : prog A) (s : state) : outcome A * state :=
  match p with
  | Ret a => (Resolved a, s)
  | Throw e => (Rejected e, s)
  | Act a k h =>
      match H _ a s with
      | (inl x, s') => run H (k x) s'
      | (inr e, s') => run H (h e) s'
      end
  end.

(** JSON.parse of a blob's text, then [.originalUrl]. *)
Definition parseMetadata (p : payload) : option (option string) :=
  match p with
  | MetadataJson u => Some (Some u)
  | Image _ => None                   (* not JSON: SyntaxError *)
  end.

Definition blobUrlOf (n : nat) : string := "blob:" +:+ pretty n.

(** The collaborators when they work: the store, the handle allocator and
    the custom wallpaper manager never fail; a request fails exactly when
    the network has no response for its URL. *)
Fixpoint handle X (a : action X) : state -> (X + error) * state :=
  match a in action X return state -> (X + error) * state with
  | Sync f => fun s => let '(x, m) := f (sync s) in (inl x, mkState m (async s))
  | IdbGet key => fun s => (inl (idb (async s) !! key), s)
  | IdbSet key b _ => fun s => (inl tt, set_async (set_idb <[key := b]>) s)
  | IdbDelete key => fun s => (inl tt, set_async (set_idb (delete key)) s)
  | IdbGetAllKeys => fun s => (inl (elements (dom (idb (async s)))), s)
  | BlobText b => fun s => (inl (body b), s)
  | CreateBlobUrl b _ => fun s =>
      let e := async s in
      let u := blobUrlOf (nextHandle e) in
      (inl u, mkState (sync s)
                (mkExt (idb e) (<[u := b]> (handles e)) (S (nextHandle e))
                       (network e) (customWallpaper e)))
  | Fetch u _ _ => fun s =>
      match network (async s) u with
      | Some r => (inl r, s)
      | None => (inr NetworkError, s)
      end
  | RespJson r => fun s => (inl (body (respBody r)), s)
  | RespBlob r => fun s => (inl (respBody r), s)
  | GetCurrentWallpaper => fun s => (inl (customWallpaper (async s)), s)
  | Detach a' => fun s => (inl tt, snd (handle unit a' s))
  end.

(* ===================================================================== *)
(** * The service *)
(* ===================================================================== *)

Import Date.

(** 30s, 60s, 120s, 240s *)
Definition RETRY_DELAYS_MS : list N := [30 * 1000; 60 * 1000; 120 * 1000; 240 * 1000]%N.
Definition MAX_RETRY_COUNT : nat := 8.

Definition fallbackImage : string := "/icon/favicon.png".

Definition resolutions : list string := ["1080p"; "720p"; "4k"; "mobile"].

Definition cachePrefix : string := "wallpaper-optimized:".

(** [`wallpaper-optimized:${resolution}-${date}`] *)
Definition cacheKey (resolution date : string) : string :=
  cachePrefix +:+ resolution +:+ "-" +:+ date.

Definition metadataKeyOf (key : string) : string := key +:+ "-metadata".

Definition successKeyOf (resolution : string) : string :=
  "wallpaper-update-success-" +:+ resolution.

Definition retryKeyOf (resolution : string) : string := "retry-" +:+ resolution.

Definition loadingKeyOf (resolution : string) : string := "loading-" +:+ resolution.

Definition todayString (m : mem) : string := getLocalDateString (today m).

Definition getTodayCacheKey (resolution : string) (m : mem) : string :=
  cacheKey resolution (todayString m).

(** [new Date()], [setDate(getDate() - 1)], then the local date string. *)
Definition getYesterdayCacheKey (resolution : string) (m : mem) : string :=
  cacheKey resolution (format (daysAgo 1 (today m))).

Definition shouldForceRefresh (resolution : string) (m : mem) : bool :=
  let lastSuccessDate := localStorage m !! successKeyOf resolution in
  if negb (Str.truthy lastSuccessDate) ||
     negb (bool_decide (lastSuccessDate = Some (todayString m)))
  then true else false.

Definition markUpdateSuccess (resolution : string) (m : mem) : mem :=
  let m1 := set_localStorage <[successKeyOf resolution := todayString m]> m in
  let retryKey := retryKeyOf resolution in
  let m2 :=
    match retryTimers m1 !! retryKey with
    | Some timerId => set_retryTimers (delete retryKey) (set_timeouts (delete timerId) m1)
    | None => m1
    end in
  set_retryCounts (delete resolution) m2.

Definition scheduleRetry (resolution : string) (m : mem) : mem :=
  let retryKey := retryKeyOf resolution in
  if bool_decide (is_Some (retryTimers m !! retryKey)) then m
  else
    let retryCount := default 0 (retryCounts m !! resolution) in
    if (MAX_RETRY_COUNT <=? retryCount)%nat then m
    else
      let delayIndex := retryCount mod length RETRY_DELAYS_MS in
      let delayMs := nth delayIndex RETRY_DELAYS_MS 0%N in
      let timerId := nextTimer m in
      set_retryTimers <[retryKey := timerId]>
        (set_nextTimer (S timerId)
           (set_timeouts <[timerId := mkTimer retryKey resolution retryCount delayMs]> m)).

(** [updateWallpaperInBackground(resolution).catch(..)], not awaited. *)
Definition spawn (resolution : string) (m : mem) : mem :=
  set_spawned (fun l => (l ++ [resolution])%list) m.

(** The callback [scheduleRetry] hands to [setTimeout]. *)
Definition retryCallback (t : timer) (m : mem) : mem :=
  spawn (t_resolution t)
    (set_retryCounts <[t_resolution t := S (t_retryCount t)]>
       (set_retryTimers (delete (t_retryKey t)) m)).

(** The browser fires timer [timerId]. *)
Definition fireTimer (timerId : nat) (m : mem) : option mem :=
  match timeouts m !! timerId with
  | Some t => Some (retryCallback t (set_timeouts (delete timerId) m))
  | None => None
  end.

Definition onPageVisible (m : mem) : mem :=
  foldl (fun m resolution =>
           if negb (bool_decide (localStorage m !! successKeyOf resolution = Some (todayString m)))
           then spawn resolution m else m)
        m resolutions.

(** [.replace(/\/$/, '')] *)
Fixpoint stripTrailingSlash (s : string) : string :=
  match s with
  | EmptyString => EmptyString
  | String c t =>
      match t with
      | EmptyString => if Ascii.eqb c "/" then EmptyString else s
      | _ => String c (stripTrailingSlash t)
      end
  end.

(** How a template literal renders a built-in function (as V8 prints it). *)
Definition nativeFunctionText (name : string) : string :=
  "function " +:+ name +:+ "() { [native code] }".

(** The methods every object literal inherits from [Object.prototype]. *)
Definition objectPrototypeMethods : list string :=
  ["__defineGetter__"; "__defineSetter__"; "__lookupGetter__"; "__lookupSetter__";
   "hasOwnProperty"; "isPrototypeOf"; "propertyIsEnumerable";
   "toLocaleString"; "toString"; "valueOf"].

(** What indexing an object literal finds under a name that is not one of
    its own: the properties of [Object.prototype], as text.  [__proto__]
    is the prototype itself, [constructor] is [Object]; all are truthy. *)
Definition objectPrototype (name : string) : option string :=
  if name =? "__proto__" then Some "[object Object]"
  else if name =? "constructor" then Some (nativeFunctionText "Object")
  else if existsb (String.eqb name) objectPrototypeMethods
       then Some (nativeFunctionText name)
  else None.

(** [resolutionMap[resolution]], with [undefined] as [None]: the four own
    properties of the literal, then what it inherits. *)
Definition resolutionMap (resolution : string) : option string :=
  if resolution =? "4k" then Some "uhd"
  else if resolution =? "1080p" then Some "1920x1080"
  else if resolution =? "720p" then Some "1366x768"
  else if resolution =? "mobile" then Some "mobile"
  else objectPrototype resolution.

Definition getWallpaperUrl (resolution : string) (m : mem) : string :=
  let supabaseUrl := stripTrailingSlash (supabaseUrlEnv m) in
  if Str.nonEmpty supabaseUrl then
    let targetResolution := default "1920x1080" (resolutionMap resolution) in
    supabaseUrl +:+ "/functions/v1/wallpaper-service?resolution=" +:+ targetResolution
      +:+ "&date=" +:+ todayString m
  else fallbackImage.

Definition getOriginalUrl (key : string) : prog (option string) :=
  try_catch
    (metadataBlob <- call (IdbGet (metadataKeyOf key)) ;;
     match metadataBlob with
     | Some b =>
         text <- call (BlobText b) ;;
         match parseMetadata text with
         | Some originalUrl => Ret originalUrl
         | None => Throw SyntaxError
         end
     | None => Ret None
     end)
    (fun _ => Ret None).

(** The keys [getSmartCache] falls back to when neither today's nor
    yesterday's entry exists. *)
Definition isWallpaperKeyOf (resolution key : string) : bool :=
  Str.startsWith key cachePrefix && Str.includes key resolution &&
  negb (Str.includes key "-metadata").

(** A cache entry, a fresh blob URL for it, and its stored origin. *)
Definition serveEntry (key : string) (b : Blob) (isToday : bool) : prog (option CacheHit) :=
  originalUrl <- getOriginalUrl key ;;
  u <- call (CreateBlobUrl b "wallpaper") ;;
  Ret (Some (mkHit u isToday originalUrl)).

Definition getSmartCache (resolution : string) : prog (option CacheHit) :=
  try_catch
    (todayKey <- read (getTodayCacheKey resolution) ;;
     todayCache <- call (IdbGet todayKey) ;;
     match todayCache with
     | Some b => serveEntry todayKey b true
     | None =>
         yesterdayKey <- read (getYesterdayCacheKey resolution) ;;
         yesterdayCache <- call (IdbGet yesterdayKey) ;;
         match yesterdayCache with
         | Some b => serveEntry yesterdayKey b false
         | None =>
             allKeys <- call IdbGetAllKeys ;;
             let wallpaperKeys := List.filter (isWallpaperKeyOf resolution) allKeys in
             match rev (Str.sort wallpaperKeys) with
             | latestKey :: _ =>
                 latestCache <- call (IdbGet latestKey) ;;
                 match latestCache with
                 | Some b => serveEntry latestKey b false
                 | None => Ret None
                 end
             | [] => Ret None
             end
         end
     end)
    (fun _ => Ret None).

Definition proxyUrlOf (u : string) : string :=
  if Str.includes u "bing.com" || Str.includes u "unsplash.com"
  then "https://corsproxy.io/?" +:+ Str.encodeURIComponent u
  else u.

Definition requestHeaders (u : string) (m : mem) : list (string * string) :=
  ("Accept", "image/*") ::
  (if Str.includes u "supabase.co/functions" && Str.nonEmpty (anonKeyEnv m)
   then [("Authorization", "Bearer " +:+ anonKeyEnv m)] else []).

Definition metadataBlob (wallpaperSourceUrl : string) : Blob :=
  mkBlob (N.of_nat (18 + String.length wallpaperSourceUrl)) "application/json"
         (MetadataJson wallpaperSourceUrl).

Definition cacheTtlMs : N := 48 * 60 * 60 * 1000.
Definition min4kSize : N := 500 * 1024.

Definition downloadAndCache (u resolution : string) : prog Downloaded :=
  try_catch
    (let proxyUrl := proxyUrlOf u in
     headers <- read (requestHeaders u) ;;
     response <- call (Fetch proxyUrl headers 12000) ;;
     let contentType := default "" (contentType response) in
     if Str.includes contentType "application/json" then
       try_catch
         (errorData <- call (RespJson response) ;; Throw EdgeFunctionError)
         (fun _ => Throw InvalidErrorResponse)
     else
       blob <- call (RespBlob response) ;;
       if (size blob =? 0)%N then Throw EmptyPayload
       else
         let headerSource := default "" (wallpaperSource response) in
         let isValidUrl :=
           Str.startsWith headerSource "http://" || Str.startsWith headerSource "https://" in
         wallpaperSourceUrl <-
           (if isValidUrl then Ret headerSource
            else
              key <- read (getTodayCacheKey resolution) ;;
              existingOriginalUrl <- getOriginalUrl key ;;
              if Str.truthy existingOriginalUrl
              then Ret (default "" existingOriginalUrl)
              else Ret u) ;;
         if (resolution =? "4k") && (size blob <? min4kSize)%N then
           (* 4K壁纸大小异常，跳过缓存 *)
           blobUrl <- call (CreateBlobUrl blob "wallpaper") ;;
           Ret (mkDownloaded blobUrl wallpaperSourceUrl true)
         else
           blobUrl <- call (CreateBlobUrl blob "wallpaper") ;;
           key <- read (getTodayCacheKey resolution) ;;
           fire (IdbSet key blob cacheTtlMs) ;;
           fire (IdbSet (metadataKeyOf key) (metadataBlob wallpaperSourceUrl) cacheTtlMs) ;;
           Ret (mkDownloaded blobUrl wallpaperSourceUrl false))
    (fun e => Throw e).

Definition clearCacheForDate (resolution : string) (date : option string) : prog unit :=
  try_catch
    (dateStr <- read (fun m => if Str.truthy date then default "" date else todayString m) ;;
     call (IdbDelete (cacheKey resolution dateStr)))
    (fun _ => Ret tt).

Definition clearTodayCache (resolution : string) : prog unit :=
  clearCacheForDate resolution None.

Definition updateWallpaperInBackground (resolution : string) : prog unit :=
  try_catch
    (wallpaperUrl <- read (getWallpaperUrl resolution) ;;
     if negb (wallpaperUrl =? fallbackImage) then
       result <- downloadAndCache wallpaperUrl resolution ;;
       if Str.nonEmpty (blobUrl result) && negb (isFallback result)
       then update (markUpdateSuccess resolution)
       else if isFallback result then update (scheduleRetry resolution)
       else Ret tt
     else Ret tt)
    (fun _ => update (scheduleRetry resolution)).

(** The first half of [_getWallpaperInternal]: either the method returns
    a cached wallpaper right away ([inl]), or it goes on to download, with
    an old entry ([fallbackCache]) kept for degradation ([inr]). *)
Definition serveFromCache (resolution : string) (shouldRefresh : bool)
    (cachedResult : option CacheHit) : prog (Wallpaper + option CacheHit) :=
  if shouldRefresh then
    match cachedResult with
    | Some c =>
        update (spawn resolution) ;;
        Ret (inl (mkWallpaper (hit_url c) true (hit_isToday c) true (hit_originalUrl c)))
    | None => Ret (inr None)
    end
  else
    match cachedResult with
    | Some c =>
        if negb (Str.truthy (hit_originalUrl c)) && hit_isToday c then
          clearTodayCache resolution ;;
          Ret (inr (Some c))
        else if Str.truthy (hit_originalUrl c) then
          let result :=
            mkWallpaper (hit_url c) true (hit_isToday c) (negb (hit_isToday c))
                        (hit_originalUrl c) in
          (if negb (hit_isToday c) then update (spawn resolution) else Ret tt) ;;
          Ret (inl result)
        else
          let result :=
            mkWallpaper (hit_url c) true (hit_isToday c) true (hit_originalUrl c) in
          update (spawn resolution) ;;
          Ret (inl result)
    | None => Ret (inr None)
    end.

(** The second half: build the request URL, download, mark or retry. *)
Definition downloadFresh (resolution : string) (shouldRefresh : bool)
    (fallbackCache : option CacheHit) : prog Wallpaper :=
  wallpaperUrl <- read (getWallpaperUrl resolution) ;;
  if wallpaperUrl =? fallbackImage then
    match fallbackCache with
    | Some fc => Ret (mkWallpaper (hit_url fc) true false true (hit_originalUrl fc))
    | None => Ret (mkWallpaper wallpaperUrl false true false None)
    end
  else
    try_catch
      (downloaded <- downloadAndCache wallpaperUrl resolution ;;
       (if negb (isFallback downloaded) then
          update (markUpdateSuccess resolution) ;;
          if shouldRefresh then
            yesterdayKey <- read (getYesterdayCacheKey resolution) ;;
            call (IdbDelete yesterdayKey) ;;
            call (IdbDelete (metadataKeyOf yesterdayKey))
          else Ret tt
        else update (scheduleRetry resolution)) ;;
       Ret (mkWallpaper (blobUrl downloaded) false true (isFallback downloaded)
                        (Some (dl_originalUrl downloaded))))
      (fun downloadError =>
         match fallbackCache with
         | Some fc =>
             update (scheduleRetry resolution) ;;
             Ret (mkWallpaper (hit_url fc) true false true (hit_originalUrl fc))
         | None => Throw downloadError
         end).

(** 获取壁纸失败，使用备用图片 *)
Definition defaultWallpaper : Wallpaper := mkWallpaper fallbackImage false true true None.

Definition _getWallpaperInternal (resolution : string) : prog Wallpaper :=
  try_catch
    (if resolution =? "custom" then
       customUrl <- call GetCurrentWallpaper ;;
       if Str.truthy customUrl
       then Ret (mkWallpaper (default "" customUrl) true true false None)
       else Ret (mkWallpaper fallbackImage false true false None)
     else
       shouldRefresh <- read (shouldForceRefresh resolution) ;;
       cachedResult <- getSmartCache resolution ;;
       stage <- serveFromCache resolution shouldRefresh cachedResult ;;
       match stage with
       | inl result => Ret result
       | inr fallbackCache => downloadFresh resolution shouldRefresh fallbackCache
       end)
    (fun _ => Ret defaultWallpaper).

(** The loop of [cleanupExpiredCache]; returns [deletedCount]. *)
Fixpoint deleteExpired (cutoffDate : string) (keys : list string) (deletedCount : nat)
    : prog nat :=
  match keys with
  | [] => Ret deletedCount
  | key :: rest =>
      match Str.matchDate key with
      | Some d =>
          if Str.lt d cutoffDate then
            call (IdbDelete key) ;;
            deleteExpired cutoffDate rest (S deletedCount)
          else deleteExpired cutoffDate rest deletedCount
      | None => deleteExpired cutoffDate rest deletedCount
      end
  end.

Definition cleanupExpiredCache : prog unit :=
  try_catch
    (allKeys <- call IdbGetAllKeys ;;
     let wallpaperKeys := List.filter (fun key => Str.startsWith key cachePrefix) allKeys in
     cutoffDate <- read (fun m => format (daysAgo 3 (today m))) ;;
     deletedCount <- deleteExpired cutoffDate wallpaperKeys 0 ;;
     Ret tt)
    (fun _ => Ret tt).

Definition dailyCheckKey : string := "wallpaper-daily-check".

(** The loop of [performDailyCheck] over all resolutions. *)
Fixpoint preloadMissing (rs : list string) : prog unit :=
  match rs with
  | [] => Ret tt
  | resolution :: rest =>
      todayKey <- read (getTodayCacheKey resolution) ;;
      todayCache <- call (IdbGet todayKey) ;;
      (match todayCache with
       | None => update (spawn resolution)
       | Some _ => Ret tt
       end) ;;
      preloadMissing rest
  end.

Definition performDailyCheck : prog unit :=
  try_catch
    (lastCheck <- read (fun m => bool_decide (localStorage m !! dailyCheckKey = Some (todayString m))) ;;
     if lastCheck then Ret tt
     else
       update (fun m => set_localStorage <[dailyCheckKey := todayString m]> m) ;;
       preloadMissing resolutions ;;
       cleanupExpiredCache)
    (fun _ => Ret tt).

(* ===================================================================== *)
(** * Concrete worlds, used to run the embedding *)
(* ===================================================================== *)

Definition emptyMem (day : N) (supabaseUrl : string) : mem :=
  mkMem day supabaseUrl "anon" ∅ ∅ ∅ ∅ 0 [].

Definition emptyExt (net : string -> option Response) : ext :=
  mkExt ∅ ∅ 0 net None.

Definition jpeg (n : N) : Blob := mkBlob n "image/jpeg" (Image 7).

Definition goodResponse (n : N) : Response :=
  mkResponse 200 (Some "image/jpeg") (Some "https://www.bing.com/th?id=OHR.Sample") (jpeg n).

Definition online (n : N) : string -> option Response := fun _ => Some (goodResponse n).
Definition offline : string -> option Response := fun _ => None.

Definition freshState (day : N) (net : string -> option Response) : state :=
  mkState (emptyMem day "https://proj.supabase.co/") (emptyExt net).


(* ===================================================================== *)
(** * The event loop: interleaved calls, background updates and timers *)
(* ===================================================================== *)

(** A [getWallpaper] call, suspended at one of its two [await]s or done;
    [pid] is the promise it waits (or waited) for. *)
Inductive cstate :=
| Joined (pid : nat)     (* awaits the promise found in [loadingPromises] *)
| Owner (pid : nat)      (* awaits the promise it stored; [finally] still to run *)
| Done (pid : nat) (o : outcome Wallpaper).

Record system := mkSystem {
  st : state;
  detached : list (action unit);               (* calls issued, not awaited, not yet completed *)
  loadingPromises : gmap string nat;           (* [`loading-${resolution}`] -> promise *)
  promises : list (string * prog Wallpaper);   (* the [_getWallpaperInternal] runs *)
  tasks : list (option string * prog unit);    (* [Some r]: updateWallpaperInBackground(r) *)
  callers : list (string * cstate)
}.

Inductive event :=
| Call (resolution : string)                   (* getWallpaper(resolution) *)
| PromiseStep (pid : nat) (fault : option error)
| TaskStep (tid : nat) (fault : option error)
| Lands (i : nat) (fault : option error)       (* a detached call completes *)
| Resume (cid : nat)                           (* a getWallpaper call continues after its await *)
| TimerFires (timerId : nat)
| PageVisible
| DailyCheck
| Cleanup
| Midnight
| NetworkChanges (net : string -> option Response)
| CustomChanges (custom : option string).

(** Synchronous actions do not suspend: [Some] with the result for a
    synchronous action, [None] for one that is awaited. *)
Definition syncStep {X} (a : action X) (m : mem) (ws : list (action unit))
    : option (X * mem * list (action unit)) :=
  match a in action X return option (X * mem * list (action unit)) with
  | Sync f => let '(x, m') := f m in Some (x, m', ws)
  | Detach a' => Some (tt, m, (ws ++ [a'])%list)
  | _ => None
  end.

(** Run a program up to its next [await] (or to its end). *)
Fixpoint advance {A} (p : prog A) (m : mem) (ws : list (action unit))
    : prog A * mem * list (action unit) :=
  match p with
  | Act a k h =>
      match syncStep a m ws with
      | Some (x, m', ws') => advance (k x) m' ws'
      | None => (p, m, ws)
      end
  | _ => (p, m, ws)
  end.

(** The awaited action at the head of [p] completes: with exception [e]
    when [fault = Some e], else as the collaborators answer. *)
Definition complete {A} (fault : option error) (p : prog A) (s : state)
    : option (prog A * state) :=
  match p with
  | Act a k h =>
      match fault with
      | Some e => Some (h e, s)
      | None =>
          match handle _ a s with
          | (inl x, s') => Some (k x, s')
          | (inr e, s') => Some (h e, s')
          end
      end
  | _ => None
  end.

Definition outcomeOf {A} (p : prog A) : option (outcome A) :=
  match p with
  | Ret a => Some (Resolved a)
  | Throw e => Some (Rejected e)
  | Act _ _ _ => None
  end.

Definition with_mem (m : mem) (σ : system) : system :=
  mkSystem (mkState m (async (st σ))) (detached σ) (loadingPromises σ) (promises σ)
           (tasks σ) (callers σ).

Definition with_mem_detached (m : mem) (ws : list (action unit)) (σ : system) : system :=
  mkSystem (mkState m (async (st σ))) ws (loadingPromises σ) (promises σ)
           (tasks σ) (callers σ).

Definition add_task (t : option string * prog unit) (σ : system) : system :=
  mkSystem (st σ) (detached σ) (loadingPromises σ) (promises σ)
           (tasks σ ++ [t]) (callers σ).

(** Start a program that nobody awaits: it runs to its first [await]. *)
Definition start (label : option string) (p : prog unit) (σ : system) : system :=
  let '(p', m, ws) := advance p (sync (st σ)) (detached σ) in
  add_task (label, p') (with_mem_detached m ws σ).

(** Start the background updates that synchronous code has spawned. *)
Definition absorb (σ : system) : system :=
  foldl (fun σ r => start (Some r) (updateWallpaperInBackground r) σ)
        (with_mem (set_spawned (fun _ => []) (sync (st σ))) σ)
        (spawned (sync (st σ))).

Definition step (e : event) (σ : system) : option system :=
  match e with
  | Call r =>
      let key := loadingKeyOf r in
      match loadingPromises σ !! key with
      | Some pid =>
          Some (mkSystem (st σ) (detached σ) (loadingPromises σ) (promises σ) (tasks σ)
                         (callers σ ++ [(r, Joined pid)]))
      | None =>
          let pid := length (promises σ) in
          let '(p, m, ws) := advance (_getWallpaperInternal r) (sync (st σ)) (detached σ) in
          Some (absorb (mkSystem (mkState m (async (st σ))) ws
                                 (<[key := pid]> (loadingPromises σ))
                                 (promises σ ++ [(r, p)]) (tasks σ)
                                 (callers σ ++ [(r, Owner pid)])))
      end
  | PromiseStep pid fault =>
      '(r, p) ← promises σ !! pid;
      '(p1, s1) ← complete fault p (st σ);
      let '(p2, m, ws) := advance p1 (sync s1) (detached σ) in
      Some (absorb (mkSystem (mkState m (async s1)) ws (loadingPromises σ)
                             (<[pid := (r, p2)]> (promises σ)) (tasks σ) (callers σ)))
  | TaskStep tid fault =>
      '(l, p) ← tasks σ !! tid;
      '(p1, s1) ← complete fault p (st σ);
      let '(p2, m, ws) := advance p1 (sync s1) (detached σ) in
      Some (absorb (mkSystem (mkState m (async s1)) ws (loadingPromises σ)
                             (promises σ) (<[tid := (l, p2)]> (tasks σ)) (callers σ)))
  | Lands i fault =>
      a ← detached σ !! i;
      let s1 := match fault with Some _ => st σ | None => snd (handle _ a (st σ)) end in
      Some (mkSystem s1 (delete i (detached σ)) (loadingPromises σ) (promises σ)
                     (tasks σ) (callers σ))
  | Resume cid =>
      '(r, c) ← callers σ !! cid;
      match c with
      | Joined pid =>
          '(_, p) ← promises σ !! pid;
          o ← outcomeOf p;
          Some (mkSystem (st σ) (detached σ) (loadingPromises σ) (promises σ) (tasks σ)
                         (<[cid := (r, Done pid o)]> (callers σ)))
      | Owner pid =>
          '(_, p) ← promises σ !! pid;
          o ← outcomeOf p;
          Some (mkSystem (st σ) (detached σ) (delete (loadingKeyOf r) (loadingPromises σ))
                         (promises σ) (tasks σ)
                         (<[cid := (r, Done pid o)]> (callers σ)))
      | Done _ _ => None
      end
  | TimerFires timerId =>
      m ← fireTimer timerId (sync (st σ));
      Some (absorb (with_mem m σ))
  | PageVisible => Some (absorb (with_mem (onPageVisible (sync (st σ))) σ))
  | DailyCheck => Some (absorb (start None performDailyCheck σ))
  | Cleanup => Some (absorb (start None cleanupExpiredCache σ))
  | Midnight => Some (with_mem (set_today (today (sync (st σ)) + 1) (sync (st σ))) σ)
  | NetworkChanges net =>
      let e := async (st σ) in
      Some (mkSystem (mkState (sync (st σ))
                        (mkExt (idb e) (handles e) (nextHandle e) net (customWallpaper e)))
                     (detached σ) (loadingPromises σ) (promises σ) (tasks σ) (callers σ))
  | CustomChanges custom =>
      let e := async (st σ) in
      Some (mkSystem (mkState (sync (st σ))
                        (mkExt (idb e) (handles e) (nextHandle e) (network e) custom))
                     (detached σ) (loadingPromises σ) (promises σ) (tasks σ) (callers σ))
  end.

(** The service right after [getInstance()]: nothing in flight. *)
Definition boot (s : state) : system := mkSystem s [] ∅ [] [] [].

Fixpoint exec (trace : list event) (σ : system) : option system :=
  match trace with
  | [] => Some σ
  | e :: rest => σ' ← step e σ; exec rest σ'
  end.

Inductive reachable (s0 : state) : system -> Prop :=
| reach_boot : reachable s0 (boot s0)
| reach_step σ e σ' : reachable s0 σ -> step e σ = Some σ' -> reachable s0 σ'.

(** A download is outstanding when the request has been issued and its
    response is awaited. *)
Definition awaitsFetch {A} (p : prog A) : bool :=
  match p with
  | Act (Fetch _ _ _) _ _ => true
  | _ => false
  end.

Definition foregroundDownloads (r : string) (σ : system) : nat :=
  length (List.filter (fun '(r', p) => (r' =? r) && awaitsFetch p) (promises σ)).

Definition backgroundDownloads (r : string) (σ : system) : nat :=
  length (List.filter (fun '(l, p) => bool_decide (l = Some r) && awaitsFetch p) (tasks σ)).

Definition downloadsInFlight (r : string) (σ : system) : nat :=
  foregroundDownloads r σ + backgroundDownloads r σ.

(* ===================================================================== *)
(** * Repeated failures, as the retry scheduler sees them *)
(* ===================================================================== *)

(** The pending retry timer of [resolution] fires and the background
    update it starts runs to its end.  Returns the delay the timer had
    been armed with. *)
Definition retryRound (resolution : string) (s : state) : option (N * state) :=
  timerId ← retryTimers (sync s) !! retryKeyOf resolution;
  t ← timeouts (sync s) !! timerId;
  m ← fireTimer timerId (sync s);
  let s1 := mkState (set_spawned (fun _ => []) m) (async s) in
  Some (t_delayMs t, snd (run handle (updateWallpaperInBackground resolution) s1)).

(** The delays of the first [n] retries, as long as retries are scheduled. *)
Fixpoint observedDelays (resolution : string) (n : nat) (s : state) : list N :=
  match n with
  | 0 => []
  | S k =>
      match retryRound resolution s with
      | Some (d, s') => d :: observedDelays resolution k s'
      | None => []
      end
  end.

(* ===================================================================== *)
(** * Shapes of strings *)
(* ===================================================================== *)

(** The last character of a string. *)
Fixpoint lastChar (s : string) : option ascii :=
  match s with
  | EmptyString => None
  | String c EmptyString => Some c
  | String _ t => lastChar t
  end.

Fixpoint allChars (P : ascii -> bool) (s : string) : bool :=
  match s with
  | EmptyString => true
  | String c t => P c && allChars P t
  end.

(** The characters of a date string. *)
Definition isDateChar (c : ascii) : bool := Str.isDigit c || Str.isHyphen c.

(** A store holding one wallpaper of [resolution], downloaded on
    [entryDay], with its metadata record. *)
Definition storeWith (resolution : string) (entryDay : N) (origin : string)
    : gmap string Blob :=
  let key := cacheKey resolution (Date.getLocalDateString entryDay) in
  <[metadataKeyOf key := metadataBlob origin]> (<[key := jpeg 900000]> ∅).

(** The service on [day], with one cached wallpaper from [entryDay]. *)
Definition cachedState (day entryDay : N) (resolution : string)
    (net : string -> option Response) : state :=
  mkState (emptyMem day "https://proj.supabase.co/")
          (mkExt (storeWith resolution entryDay "https://www.bing.com/th?id=OHR.Old")
                 ∅ 0 net None).

(* ===================================================================== *)
(** * What a program can do *)
(* ===================================================================== *)

(** [always Q p]: whatever the environment answers, every action [p]
    performs satisfies [Q]. *)
Fixpoint always {A} (Q : forall X, action X -> Prop) (p : prog A) : Prop :=
  match p with
  | Ret _ | Throw _ => True
  | Act a k h => Q _ a /\ (forall x, always Q (k x)) /\ (forall e, always Q (h e))
  end.

(** [safe p]: whatever the environment answers, [p] does not end with an
    exception. *)
Fixpoint safe {A} (p : prog A) : Prop :=
  match p with
  | Ret _ => True
  | Throw _ => False
  | Act a k h => (forall x, safe (k x)) /\ (forall e, safe (h e))
  end.

Definition isManagerRead (X : Type) (a : action X) : Prop :=
  match a with
  | GetCurrentWallpaper => True
  | _ => False
  end.

(** A write to the binary store carries a non-empty payload. *)
Fixpoint storesNonEmpty (X : Type) (a : action X) : Prop :=
  match a with
  | IdbSet _ b _ => (0 < size b)%N
  | Detach a' => storesNonEmpty _ a'
  | _ => True
  end.

(** No payload in the store is empty. *)
Definition allNonEmpty (store : gmap string Blob) : Prop :=
  forall key b, store !! key = Some b -> (0 < size b)%N.

(** Nothing in flight can put an empty payload into the store. *)
Record writesNonEmpty (σ : system) : Prop := mkWritesNonEmpty {
  wne_store : allNonEmpty (idb (async (st σ)));
  wne_promises : Forall (fun rp => always storesNonEmpty rp.2) (promises σ);
  wne_tasks : Forall (fun lp => always storesNonEmpty lp.2) (tasks σ);
  wne_detached : Forall (storesNonEmpty unit) (detached σ)
}.

(* ===================================================================== *)
(** * What holds in every state of the event loop *)
(* ===================================================================== *)

Definition pidOf (c : cstate) : nat :=
  match c with
  | Joined pid | Owner pid | Done pid _ => pid
  end.

Definition pending {A} (p : prog A) : Prop := outcomeOf p = None.

Record consistent (σ : system) : Prop := mkConsistent {
  (** the programs behind the promises cannot throw *)
  inv_safe : forall pid r p, promises σ !! pid = Some (r, p) -> safe p;
  (** every map entry is the promise of a run for that resolution, and the
      call that stored it has its [finally] still ahead *)
  inv_entry : forall key pid, loadingPromises σ !! key = Some pid ->
    exists r p cid, key = loadingKeyOf r /\ promises σ !! pid = Some (r, p) /\
                    callers σ !! cid = Some (r, Owner pid);
  (** a run that has not settled is the one registered for its resolution *)
  inv_pending : forall pid r p, promises σ !! pid = Some (r, p) -> pending p ->
    loadingPromises σ !! loadingKeyOf r = Some pid;
  (** a call that stored a promise and has not run its [finally] yet still
      finds it in the map *)
  inv_owner : forall cid r pid, callers σ !! cid = Some (r, Owner pid) ->
    loadingPromises σ !! loadingKeyOf r = Some pid;
  inv_owner_unique : forall c1 c2 r1 r2 pid,
    callers σ !! c1 = Some (r1, Owner pid) -> callers σ !! c2 = Some (r2, Owner pid) ->
    c1 = c2;
  inv_known : forall cid r c, callers σ !! cid = Some (r, c) ->
    exists p, promises σ !! pidOf c = Some (r, p);
  (** a call that has returned got the outcome of its promise *)
  inv_done : forall cid r pid o, callers σ !! cid = Some (r, Done pid o) ->
    exists p, promises σ !! pid = Some (r, p) /\ outcomeOf p = Some o
}.

(** The state a trace leads to from boot (the boot state itself if some
    event of the trace is not enabled). *)
Definition after (trace : list event) (s0 : state) : system :=
  default (boot s0) (exec trace (boot s0)).

Definition runs (trace : list event) (s0 : state) : bool :=
  match exec trace (boot s0) with Some _ => true | None => false end.

(* ===================================================================== *)
(** * Vocabulary of the statements *)
(* ===================================================================== *)

(** The delay the backoff table gives after [retryCount] attempts. *)
Definition delayOf (retryCount : nat) : N :=
  nth (retryCount mod length RETRY_DELAYS_MS) RETRY_DELAYS_MS 0%N.

(** The retry state of [resolution]: a timer armed after [c] earlier
    attempts, or none pending with the attempts used up. *)
Definition armed (resolution : string) (c : nat) (m : mem) : Prop :=
  exists timerId,
    retryTimers m !! retryKeyOf resolution = Some timerId /\
    timeouts m !! timerId = Some (mkTimer (retryKeyOf resolution) resolution c (delayOf c)).

Definition idle (resolution : string) (c : nat) (m : mem) : Prop :=
  retryTimers m !! retryKeyOf resolution = None /\
  default 0 (retryCounts m !! resolution) = c.

(** The origin URL stored next to the entry under [key], as
    [getOriginalUrl] reads it. *)
Definition storedOriginalUrl (store : gmap string Blob) (key : string) : option string :=
  match store !! metadataKeyOf key with
  | Some b => default None (parseMetadata (body b))
  | None => None
  end.

(** The origin recorded for a download: the source header when it is an
    absolute URL, else the origin already stored for today, else the
    request URL. *)
Definition originOf (u resolution : string) (resp : Response) (s : state) : string :=
  let headerSource := default "" (wallpaperSource resp) in
  if Str.startsWith headerSource "http://" || Str.startsWith headerSource "https://"
  then headerSource
  else
    let existing :=
      storedOriginalUrl (idb (async s)) (getTodayCacheKey resolution (sync s)) in
    if Str.truthy existing then default "" existing else u.

(** Sorted by the order of [sort()]. *)
Definition sorted : list string -> Prop :=
  StronglySorted (fun a b => Str.le a b = true).

(** The state after [memoryManager.createBlobUrl(b)]. *)
Definition mint (b : Blob) (s : state) : state :=
  let e := async s in
  mkState (sync s)
    (mkExt (idb e) (<[blobUrlOf (nextHandle e) := b]> (handles e)) (S (nextHandle e))
           (network e) (customWallpaper e)).

(** The entry [getSmartCache] settles on: its key, its payload and whether
    it is today's. *)
Definition resolveTier (resolution : string) (s : state) : option (string * Blob * bool) :=
  let store := idb (async s) in
  let todayKey := getTodayCacheKey resolution (sync s) in
  let yesterdayKey := getYesterdayCacheKey resolution (sync s) in
  match store !! todayKey with
  | Some b => Some (todayKey, b, true)
  | None =>
      match store !! yesterdayKey with
      | Some b => Some (yesterdayKey, b, false)
      | None =>
          match rev (Str.sort (List.filter (isWallpaperKeyOf resolution) (elements (dom store)))) with
          | latestKey :: _ =>
              match store !! latestKey with
              | Some b => Some (latestKey, b, false)
              | None => None
              end
          | [] => None
          end
      end
  end.

(** The wallpaper keys of a store the service has filled: each is the key
    of one of the four resolutions for some day, or its metadata sibling. *)
Definition serviceKeys (store : gmap string Blob) : Prop :=
  forall key, is_Some (store !! key) -> Str.startsWith key cachePrefix = true ->
    exists r n, r ∈ resolutions /\
      (key = cacheKey r (getLocalDateString n) \/
       key = metadataKeyOf (cacheKey r (getLocalDateString n))).

(** No wallpaper entry is empty: [downloadAndCache] refuses empty payloads
    before it stores anything. *)
Definition nonEmptyEntries (store : gmap string Blob) : Prop :=
  forall r n b, store !! cacheKey r (getLocalDateString n) = Some b -> (0 < size b)%N.

(** The test the cleanup loop applies to a key. *)
Definition expired (cutoffDate key : string) : bool :=
  match Str.matchDate key with
  | Some d => Str.lt d cutoffDate
  | None => false
  end.

(** The store after the loop has gone through [keys]. *)
Definition prune (cutoffDate : string) (keys : list string) (store : gmap string Blob)
    : gmap string Blob :=
  foldl (fun st key => if expired cutoffDate key then delete key st else st) store keys.

(** Two states agree on everything the deduplicator looks at. *)
Definition sameCalls (σ σ' : system) : Prop :=
  loadingPromises σ' = loadingPromises σ /\
  promises σ' = promises σ /\
  callers σ' = callers σ.

(** The success marker of a resolution. *)
Definition markerOf (r : string) (s : state) : option string :=
  localStorage (sync s) !! successKeyOf r.

(** The operation has left the clock and the day markers alone. *)
Definition quiet (s s' : state) : Prop :=
  today (sync s') = today (sync s) /\
  localStorage (sync s') = localStorage (sync s).

(** When [s'] is reached from [s], today's key of the resolution holds a
    genuine payload: non-empty, and of at least 500 KB for 4k. *)
Definition hasEntry (r : string) (s s' : state) : Prop :=
  exists b, idb (async s') !! getTodayCacheKey r (sync s) = Some b /\
            (0 < size b)%N /\ (r = "4k" -> (min4kSize <= size b)%N).

(* ===================================================================== *)
(** * Tactics *)
(* ===================================================================== *)

(** Linear arithmetic with division and remainder by constants. *)
Ltac div_lia := zify; Z.to_euclidean_division_equations; lia.

(** Case analysis on a membership in [resolutions]. *)
Ltac each_resolution H :=
  apply list_elem_of_In in H; simpl in H;
  destruct H as [<- | [<- | [<- | [<- | []]]]].

(** A url the page can show: the static default, the custom wallpaper the
    manager handed out, or a blob URL the handle allocator knows. *)
Definition displayable (w : Wallpaper) (s : state) : Prop :=
  url w = fallbackImage \/
  customWallpaper (async s) = Some (url w) \/
  is_Some (handles (async s) !! url w).

(* ===================================================================== *)
(** * Cache statistics *)
(* ===================================================================== *)

(** Result of [getCacheStats]. *)
Record CacheStats := mkStats {
  totalCount : nat;
  todayCount : nat;
  totalSize : N;
  cacheKeys : list string
}.

(** The loop of [getCacheStats] over the wallpaper keys: a key whose read
    fails is skipped. *)
Fixpoint sumSizes (keys : list string) (totalSize : N) : prog N :=
  match keys with
  | [] => Ret totalSize
  | key :: rest =>
      totalSize' <-
        try_catch
          (blob <- call (IdbGet key) ;;
           match blob with
           | Some b => Ret (totalSize + size b)%N
           | None => Ret totalSize
           end)
          (fun _ => Ret totalSize) ;;
      sumSizes rest totalSize'
  end.

Definition getCacheStats : prog CacheStats :=
  try_catch
    (allKeys <- call IdbGetAllKeys ;;
     let wallpaperKeys := List.filter (fun key => Str.startsWith key cachePrefix) allKeys in
     today <- read todayString ;;
     let todayKeys := List.filter (fun key => Str.includes key today) wallpaperKeys in
     totalSize <- sumSizes wallpaperKeys 0 ;;
     Ret (mkStats (length wallpaperKeys) (length todayKeys) totalSize wallpaperKeys))
    (fun _ => Ret (mkStats 0 0 0 [])).

(** The sizes of the entries a list of keys points to. *)
Definition sizeOf (store : gmap string Blob) (key : string) : N :=
  match store !! key with Some b => size b | None => 0%N end.

Definition sizesOf (store : gmap string Blob) (keys : list string) : N :=
  foldr (fun key acc => (sizeOf store key + acc)%N) 0%N keys.

(* ===================================================================== *)
(** * What a program returns, and what it does on the way *)
(* ===================================================================== *)

(** [returns P p]: whatever the environment answers, a value [p] returns
    satisfies [P]. *)
Fixpoint returns {A} (P : A -> Prop) (p : prog A) : Prop :=
  match p with
  | Ret a => P a
  | Throw _ => True
  | Act _ k h => (forall x, returns P (k x)) /\ (forall e, returns P (h e))
  end.

(** The answers an action can get: synchronous code computes its own. *)
Definition answers {X} (a : action X) : X -> Prop :=
  match a in action X return X -> Prop with
  | Sync f => fun x => exists m, x = (f m).1
  | _ => fun _ => True
  end.

(** [throughout Q p]: every action [p] performs satisfies [Q], whatever
    the collaborators answer, synchronous code answering what it computes. *)
Fixpoint throughout {A} (Q : forall X, action X -> Prop) (p : prog A) : Prop :=
  match p with
  | Ret _ | Throw _ => True
  | Act a k h =>
      Q _ a /\ (forall x, answers a x -> throughout Q (k x)) /\ (forall e, throughout Q (h e))
  end.

(** A write or a delete stays within the keys of the wallpaper cache. *)
Fixpoint namespaced (X : Type) (a : action X) : Prop :=
  match a with
  | IdbSet key _ _ => Str.startsWith key cachePrefix = true
  | IdbDelete key => Str.startsWith key cachePrefix = true
  | Detach a' => namespaced _ a'
  | _ => True
  end.

(** Synchronous code keeps a property of the in-memory state. *)
Fixpoint keeps (I : mem -> Prop) (X : Type) (a : action X) : Prop :=
  match a with
  | Sync f => forall m, I m -> I (f m).2
  | Detach a' => keeps I _ a'
  | _ => True
  end.

(** An action that only looks: it reads the store or the clock. *)
Definition observes (X : Type) (a : action X) : Prop :=
  match a with
  | Sync f => forall m, (f m).2 = m
  | IdbGet _ | IdbGetAllKeys | BlobText _ => True
  | _ => False
  end.

(** As [observes], and blob URLs may be minted. *)
Definition looksUp (X : Type) (a : action X) : Prop :=
  match a with
  | CreateBlobUrl _ _ => True
  | _ => observes X a
  end.

(** Everything in flight obeys [Q], and the state satisfies [J]. *)
Record governed (Q : forall X, action X -> Prop) (J : state -> Prop) (σ : system) : Prop :=
  mkGoverned {
    gov_state : J (st σ);
    gov_promises : Forall (fun rp => throughout Q rp.2) (promises σ);
    gov_tasks : Forall (fun lp => throughout Q lp.2) (tasks σ);
    gov_detached : Forall (Q unit) (detached σ)
  }.

(** The books of the retry scheduler are in order: the map of pending
    retries and the browser's timer table describe the same timers, every
    pending timer was armed by [scheduleRetry] for its resolution, timer
    ids are not reused, and no attempt count exceeds the maximum. *)
Record retryBooks (m : mem) : Prop := mkRetryBooks {
  books_pending : forall key timerId, retryTimers m !! key = Some timerId ->
    exists t, timeouts m !! timerId = Some t /\ t_retryKey t = key;
  books_timer : forall timerId t, timeouts m !! timerId = Some t ->
    retryTimers m !! t_retryKey t = Some timerId /\
    t_retryKey t = retryKeyOf (t_resolution t) /\
    t_retryCount t < MAX_RETRY_COUNT /\
    t_delayMs t = delayOf (t_retryCount t);
  books_fresh : forall timerId t, timeouts m !! timerId = Some t -> timerId < nextTimer m;
  books_counts : forall r c, retryCounts m !! r = Some c -> c <= MAX_RETRY_COUNT
}.

(** The flags of a result fit together: what is not today's wallpaper
    comes from the cache and asks for an update. *)
Definition coherent (w : Wallpaper) : Prop :=
  isToday w = false -> isFromCache w = true /\ needsUpdate w = true.

(** The resolutions [onPageVisible] starts an update for. *)
Definition unmarked (m : mem) : list string :=
  List.filter
    (fun r => negb (bool_decide (localStorage m !! successKeyOf r = Some (todayString m))))
    resolutions.

(** The resolutions without an entry for today. *)
Definition missingToday (m : mem) (store : gmap string Blob) : list string :=
  List.filter
    (fun r => match store !! getTodayCacheKey r m with Some _ => false | None => true end)
    resolutions.

(** The state after a download that was written to the cache. *)
Definition stored (key : string) (b : Blob) (origin : string) (s : state) : state :=
  set_async (set_idb (fun store => <[metadataKeyOf key := metadataBlob origin]>
                                     (<[key := b]> store)))
            (mint b s).

(** Synchronous actions: they complete at once, and do not fail. *)
Definition isSync {X} (a : action X) : bool :=
  match a with
  | Sync _ | Detach _ => true
  | _ => false
  end.

(** [settles p]: whatever the collaborators answer, [p] does not end with
    an exception, synchronous code not throwing. *)
Fixpoint settles {A} (p : prog A) : Prop :=
  match p with
  | Ret _ => True
  | Throw _ => False
  | Act a k h => (forall x, settles (k x)) /\ (isSync a = false -> forall e, settles (h e))
  end.

(** An environment in which synchronous code does not throw. *)
Definition syncTotal (H : handler) : Prop :=
  forall X (a : action X) s, isSync a = true -> exists x s', H X a s = (inl x, s').

(** A program suspended at an [await], or finished. *)
Definition suspended {A} (p : prog A) : Prop :=
  match p with
  | Act a _ _ => isSync a = false
  | _ => True
  end.

(** What the cleanup may do: read the clock, list the keys, and delete
    dated keys of the wallpaper cache. *)
Definition cleans (X : Type) (a : action X) : Prop :=
  match a with
  | Sync f => forall m, (f m).2 = m
  | IdbGetAllKeys => True
  | IdbDelete key =>
      Str.startsWith key cachePrefix = true /\ is_Some (Str.matchDate key)
  | _ => False
  end.

(** An action within the law of the service: store changes stay in the
    wallpaper namespace, and synchronous code keeps [I]. *)
Definition lawful (I : mem -> Prop) (X : Type) (a : action X) : Prop :=
  namespaced X a /\ keeps I X a.
Arguments lawful I X a /.

(** The keys outside the wallpaper namespace hold what [store0] holds. *)
Definition foreignKeysAsIn (store0 : gmap string Blob) (s : state) : Prop :=
  forall key, Str.startsWith key cachePrefix = false ->
              idb (async s) !! key = store0 !! key.

(** The state keeps [I] and leaves the keys of other modules alone. *)
Definition abides (I : mem -> Prop) (store0 : gmap string Blob) (s : state) : Prop :=
  I (sync s) /\ foreignKeysAsIn store0 s.

Definition rejected {A} (p : prog A) : bool :=
  match outcomeOf p with
  | Some (Rejected _) => true
  | _ => false
  end.

(** The programs nobody awaits (background updates, daily checks,
    cleanups) that have ended with an exception. *)
Definition rejectedTasks (σ : system) : nat :=
  length (List.filter (fun lp => rejected lp.2) (tasks σ)).
(* ===================================================================== *)
(** * Sanity checks of the embedding *)
(* ===================================================================== *)

Example date_fmt : Date.getLocalDateString 20759 = "2026-11-02".
Proof. vm_compute. reflexivity. Qed.

Example match_date :
  Str.matchDate "wallpaper-optimized:1080p-2026-11-02-metadata" = Some "2026-11-02".
Proof. vm_compute. reflexivity. Qed.

Example url_1080p :
  getWallpaperUrl "1080p" (emptyMem 20759 "https://proj.supabase.co/") =
  "https://proj.supabase.co/functions/v1/wallpaper-service?resolution=1920x1080&date=2026-11-02".
Proof. vm_compute. reflexivity. Qed.

Example first_download :
  let '(o, s) := run handle (_getWallpaperInternal "1080p") (freshState 20759 (online 900000)) in
  o = Resolved (mkWallpaper "blob:0" false true false
                  (Some "https://www.bing.com/th?id=OHR.Sample")) /\
  idb (async s) !! "wallpaper-optimized:1080p-2026-11-02" = Some (jpeg 900000) /\
  localStorage (sync s) !! "wallpaper-update-success-1080p" = Some "2026-11-02".
Proof. vm_compute. repeat split; reflexivity. Qed.

(* ===================================================================== *)
(** * The retry scheduler *)
(* ===================================================================== *)

Section Retry.

Variable resolution : string.

Lemma scheduleRetry_pending m :
  is_Some (retryTimers m !! retryKeyOf resolution) -> scheduleRetry resolution m = m.
Proof.
  intros Hp. unfold scheduleRetry. rewrite bool_decide_eq_true_2; auto.
Qed.

Lemma scheduleRetry_exhausted m :
  retryTimers m !! retryKeyOf resolution = None ->
  MAX_RETRY_COUNT <= default 0 (retryCounts m !! resolution) ->
  scheduleRetry resolution m = m.
Proof.
  intros Hn Hc. unfold scheduleRetry.
  rewrite bool_decide_eq_false_2 by (rewrite Hn; intros [? ?]; discriminate).
  destruct (Nat.leb_spec MAX_RETRY_COUNT (default 0 (retryCounts m !! resolution))); [done | lia].
Qed.

Lemma scheduleRetry_arms m :
  retryTimers m !! retryKeyOf resolution = None ->
  default 0 (retryCounts m !! resolution) < MAX_RETRY_COUNT ->
  let c := default 0 (retryCounts m !! resolution) in
  let t := mkTimer (retryKeyOf resolution) resolution c (delayOf c) in
  scheduleRetry resolution m =
    set_retryTimers <[retryKeyOf resolution := nextTimer m]>
      (set_nextTimer (S (nextTimer m)) (set_timeouts <[nextTimer m := t]> m)).
Proof.
  intros Hn Hc. unfold scheduleRetry.
  rewrite bool_decide_eq_false_2 by (rewrite Hn; intros [? ?]; discriminate).
  destruct (Nat.leb_spec MAX_RETRY_COUNT (default 0 (retryCounts m !! resolution))); [lia | done].
Qed.

(** A failed background update only schedules a retry. *)
Lemma update_fails s :
  network (async s) = offline ->
  getWallpaperUrl resolution (sync s) <> fallbackImage ->
  run handle (updateWallpaperInBackground resolution) s =
    (Resolved tt, set_sync (scheduleRetry resolution) s).
Proof.
  intros Hnet Hurl. destruct s as [m e]. simpl in *.
  unfold updateWallpaperInBackground. simpl.
  apply String.eqb_neq in Hurl. rewrite Hurl. simpl.
  rewrite Hnet. reflexivity.
Qed.

Lemma scheduleRetry_idle c m :
  idle resolution c m -> c < MAX_RETRY_COUNT -> armed resolution c (scheduleRetry resolution m).
Proof.
  intros [Hn Hc] Hlt. rewrite scheduleRetry_arms by (rewrite ?Hc; done).
  exists (nextTimer m). simpl. rewrite !lookup_insert_eq, Hc. done.
Qed.

Lemma retryRound_armed c s :
  network (async s) = offline ->
  getWallpaperUrl resolution (sync s) <> fallbackImage ->
  armed resolution c (sync s) ->
  exists s',
    retryRound resolution s = Some (delayOf c, s') /\
    network (async s') = offline /\
    getWallpaperUrl resolution (sync s') <> fallbackImage /\
    (if decide (S c < MAX_RETRY_COUNT) then armed resolution (S c) (sync s')
     else idle resolution (S c) (sync s')).
Proof.
  intros Hnet Hurl (timerId & Ht & Hto).
  unfold retryRound, fireTimer. rewrite Ht. cbn -[run]. rewrite Hto. cbn -[run].
  set (m1 := set_spawned _ _).
  assert (Hidle : idle resolution (S c) m1).
  { subst m1. split; simpl.
    - apply lookup_delete_eq.
    - rewrite lookup_insert_eq. done. }
  rewrite update_fails by done. simpl.
  eexists. split; [reflexivity |]. simpl.
  split; [done |]. split.
  - unfold scheduleRetry. repeat case_match; done.
  - case_decide as Hc.
    + by apply scheduleRetry_idle.
    + rewrite scheduleRetry_exhausted; [done | apply Hidle |].
      destruct Hidle as [_ ->]. lia.
Qed.

Lemma retryRound_idle c s : idle resolution c (sync s) -> retryRound resolution s = None.
Proof. intros [Hn _]. unfold retryRound. rewrite Hn. done. Qed.

Lemma observedDelays_armed n : forall c s,
  network (async s) = offline ->
  getWallpaperUrl resolution (sync s) <> fallbackImage ->
  armed resolution c (sync s) -> c < MAX_RETRY_COUNT ->
  observedDelays resolution n s = take n (map delayOf (seq c (MAX_RETRY_COUNT - c))).
Proof.
  induction n as [| n IH]; intros c s Hnet Hurl Harm Hc; [done |].
  destruct (retryRound_armed c s Hnet Hurl Harm) as (s' & Hr & Hnet' & Hurl' & Hnext).
  cbn [observedDelays]. rewrite Hr.
  assert (MAX_RETRY_COUNT - c = S (MAX_RETRY_COUNT - S c)) as -> by lia.
  cbn [seq map firstn]. f_equal. case_decide as Hlt.
  - by apply IH.
  - assert (MAX_RETRY_COUNT - S c = 0) as -> by lia.
    destruct n; [done |]. cbn [observedDelays]. by rewrite (retryRound_idle _ _ Hnext).
Qed.

End Retry.

(** C5: [scheduleRetry] does nothing while a timer is pending for the
    resolution; otherwise, with the attempt count (0 when absent) at 8 or
    more it schedules nothing, and below 8 it arms one timer whose delay is
    the backoff table [30s, 60s, 120s, 240s] at index count mod 4.  When
    every background update fails, the delays of the successive retries are
    30, 60, 120, 240, 30, 60, 120, 240 seconds, and no ninth retry is
    scheduled. *)
Theorem scheduleRetry_backoff (resolution : string) :
  (forall m, is_Some (retryTimers m !! retryKeyOf resolution) ->
             scheduleRetry resolution m = m) /\
  (forall m, retryTimers m !! retryKeyOf resolution = None ->
             MAX_RETRY_COUNT <= default 0 (retryCounts m !! resolution) ->
             scheduleRetry resolution m = m) /\
  (forall m, retryTimers m !! retryKeyOf resolution = None ->
             default 0 (retryCounts m !! resolution) < MAX_RETRY_COUNT ->
             let c := default 0 (retryCounts m !! resolution) in
             let m' := scheduleRetry resolution m in
             retryTimers m' !! retryKeyOf resolution = Some (nextTimer m) /\
             timeouts m' !! nextTimer m =
               Some (mkTimer (retryKeyOf resolution) resolution c
                       (nth (c mod 4) [30000; 60000; 120000; 240000]%N 0%N)) /\
             (forall i, i <> nextTimer m -> timeouts m' !! i = timeouts m !! i)) /\
  (forall s n,
     network (async s) = offline ->
     getWallpaperUrl resolution (sync s) <> fallbackImage ->
     retryTimers (sync s) !! retryKeyOf resolution = None ->
     retryCounts (sync s) !! resolution = None ->
     observedDelays resolution n (snd (run handle (updateWallpaperInBackground resolution) s)) =
       take n [30000; 60000; 120000; 240000; 30000; 60000; 120000; 240000]%N).
Proof.
  split; [apply scheduleRetry_pending |].
  split; [apply scheduleRetry_exhausted |].
  split.
  - intros m Hn Hc c m'. subst m'. rewrite scheduleRetry_arms by done. simpl.
    rewrite !lookup_insert_eq. split; [done |]. split; [done |].
    intros i Hi. by rewrite lookup_insert_ne.
  - intros s n Hnet Hurl Hn Hc.
    rewrite update_fails by done. simpl.
    rewrite (observedDelays_armed resolution n 0); try done.
    + simpl. unfold scheduleRetry. repeat case_match; done.
    + apply scheduleRetry_idle; [| unfold MAX_RETRY_COUNT; lia].
      split; [done |]. by rewrite Hc.
    + unfold MAX_RETRY_COUNT; lia.
Qed.

Lemma scheduleRetry_backoff_witness :
  observedDelays "1080p" 9
    (snd (run handle (updateWallpaperInBackground "1080p") (freshState 20759 offline))) =
  [30000; 60000; 120000; 240000; 30000; 60000; 120000; 240000]%N.
Proof.
  apply (proj2 (proj2 (proj2 (scheduleRetry_backoff "1080p"))) (freshState 20759 offline) 9).
  - reflexivity.
  - vm_compute. discriminate.
  - reflexivity.
  - reflexivity.
Defined.

(** The same run, evaluated: nine rounds yield eight delays. *)
Example retry_delays_evaluated :
  observedDelays "4k" 9
    (snd (run handle (updateWallpaperInBackground "4k") (freshState 20759 offline))) =
  [30000; 60000; 120000; 240000; 30000; 60000; 120000; 240000]%N.
Proof. vm_compute. reflexivity. Qed.

(* ===================================================================== *)
(** * Running programs *)
(* ===================================================================== *)

Lemma run_bind {A B} (H : handler) (p : prog A) (f : A -> prog B) s :
  run H (bind p f) s =
  match run H p s with
  | (Resolved a, s') => run H (f a) s'
  | (Rejected e, s') => (Rejected e, s')
  end.
Proof.
  revert s. induction p as [a | e | X a k IHk h IHh]; intros s; simpl; try done.
  destruct (H X a s) as [[x | e] s']; [apply IHk | apply IHh].
Qed.

Lemma run_try_catch {A} (H : handler) (p : prog A) (c : error -> prog A) s :
  run H (try_catch p c) s =
  match run H p s with
  | (Resolved a, s') => (Resolved a, s')
  | (Rejected e, s') => run H (c e) s'
  end.
Proof.
  revert s. induction p as [a | e | X a k IHk h IHh]; intros s; simpl; try done.
  destruct (H X a s) as [[x | e] s']; [apply IHk | apply IHh].
Qed.

Lemma run_getOriginalUrl key s :
  run handle (getOriginalUrl key) s = (Resolved (storedOriginalUrl (idb (async s)) key), s).
Proof.
  unfold getOriginalUrl, storedOriginalUrl. simpl.
  destruct (idb (async s) !! metadataKeyOf key) as [b |]; simpl; [| done].
  destruct (parseMetadata (body b)); done.
Qed.

#[local] Opaque getOriginalUrl.

(* ===================================================================== *)
(** * The downloader *)
(* ===================================================================== *)

(** C2 (as the code has it): a 4k download whose payload is non-empty but
    below 500 KB is not written to the binary cache at all: the store and
    the synchronous state are left as they were, a blob URL is minted for
    the payload and the result carries [isFallback = true]. *)
Theorem downloadAndCache_4k_small_skips_cache (u : string) (s : state) (resp : Response) :
  network (async s) (proxyUrlOf u) = Some resp ->
  Str.includes (default "" (contentType resp)) "application/json" = false ->
  (0 < size (respBody resp) < 500 * 1024)%N ->
  exists s',
    run handle (downloadAndCache u "4k") s =
      (Resolved (mkDownloaded (blobUrlOf (nextHandle (async s))) (originOf u "4k" resp s) true), s') /\
    idb (async s') = idb (async s) /\
    sync s' = sync s /\
    handles (async s') !! blobUrlOf (nextHandle (async s)) = Some (respBody resp).
Proof.
  intros Hnet Hct [Hpos Hsmall].
  unfold downloadAndCache. rewrite run_try_catch. simpl.
  rewrite Hnet, Hct. simpl.
  destruct (N.eqb_spec (size (respBody resp)) 0) as [Hz | _]; [lia |].
  apply N.ltb_lt in Hsmall. fold min4kSize in Hsmall.
  unfold originOf.
  destruct (Str.startsWith _ "http://" || Str.startsWith _ "https://") eqn:Hvalid.
  - simpl. rewrite Hsmall. simpl. eexists. split; [reflexivity |]. simpl.
    rewrite lookup_insert_eq. done.
  - simpl. rewrite !run_bind, run_getOriginalUrl.
    destruct s as [m e]. simpl.
    destruct (Str.truthy _); simpl; rewrite Hsmall; simpl;
      (eexists; split; [reflexivity |]; simpl; rewrite lookup_insert_eq; done).
Qed.

Lemma downloadAndCache_4k_small_witness :
  exists s',
    run handle (downloadAndCache "https://proj.supabase.co/w" "4k") (freshState 20759 (online 1000)) =
      (Resolved (mkDownloaded "blob:0" "https://www.bing.com/th?id=OHR.Sample" true), s') /\
    idb (async s') = ∅ /\
    sync s' = emptyMem 20759 "https://proj.supabase.co/" /\
    handles (async s') !! "blob:0" = Some (jpeg 1000).
Proof.
  apply (downloadAndCache_4k_small_skips_cache "https://proj.supabase.co/w"
           (freshState 20759 (online 1000)) (goodResponse 1000)).
  - reflexivity.
  - reflexivity.
  - split; reflexivity.
Defined.

(** C2 fails as stated: a 1000-byte 4k payload is flagged as a fallback,
    yet nothing is stored under today's cache key. *)
Lemma small_4k_payload_is_not_persisted :
  let s := freshState 20759 (online 1000) in
  let r := run handle (downloadAndCache "https://proj.supabase.co/w" "4k") s in
  (exists d, fst r = Resolved d /\ isFallback d = true) /\
  idb (async (snd r)) !! getTodayCacheKey "4k" (sync (snd r)) = None.
Proof. vm_compute. split; [eexists; split; reflexivity | reflexivity]. Qed.

(* ===================================================================== *)
(** * String order and sorting *)
(* ===================================================================== *)

Module StrFacts.

Lemma ascii_compare_refl (a : ascii) : Ascii.compare a a = Eq.
Proof. unfold Ascii.compare. apply N.compare_refl. Qed.

Lemma ascii_compare_lt_trans (a b c : ascii) :
  Ascii.compare a b = Lt -> Ascii.compare b c = Lt -> Ascii.compare a c = Lt.
Proof.
  unfold Ascii.compare. rewrite !N.compare_lt_iff. lia.
Qed.

Lemma compare_refl (a : string) : String.compare a a = Eq.
Proof. induction a as [| x a IH]; simpl; [done |]. by rewrite ascii_compare_refl. Qed.

Lemma compare_lt_trans (a : string) : forall b c,
  String.compare a b = Lt -> String.compare b c = Lt -> String.compare a c = Lt.
Proof.
  induction a as [| x a IH]; intros [| y b] [| z c]; simpl; try done.
  destruct (Ascii.compare x y) eqn:Hxy; destruct (Ascii.compare y z) eqn:Hyz; try done.
  - apply Ascii.compare_eq_iff in Hxy, Hyz. subst. rewrite ascii_compare_refl. apply IH.
  - apply Ascii.compare_eq_iff in Hxy. subst. by rewrite Hyz.
  - apply Ascii.compare_eq_iff in Hyz. subst. by rewrite Hxy.
  - by rewrite (ascii_compare_lt_trans _ _ _ Hxy Hyz).
Qed.

Lemma le_refl (a : string) : Str.le a a = true.
Proof. unfold Str.le, String.leb. by rewrite compare_refl. Qed.

Lemma le_trans (a b c : string) :
  Str.le a b = true -> Str.le b c = true -> Str.le a c = true.
Proof.
  unfold Str.le, String.leb.
  destruct (String.compare a b) eqn:Hab; [| | discriminate];
    (destruct (String.compare b c) eqn:Hbc; [| | discriminate]); intros _ _.
  - apply String.compare_eq_iff in Hab, Hbc. subst. by rewrite compare_refl.
  - apply String.compare_eq_iff in Hab. subst. by rewrite Hbc.
  - apply String.compare_eq_iff in Hbc. subst. by rewrite Hab.
  - by rewrite (compare_lt_trans _ _ _ Hab Hbc).
Qed.

Lemma le_total (a b : string) : Str.le a b = false -> Str.le b a = true.
Proof.
  intros H. destruct (String.leb_total a b) as [H' | H']; [| done].
  unfold Str.le in H. congruence.
Qed.

(** A common prefix does not change the order. *)
Lemma compare_app (p a b : string) :
  String.compare (p +:+ a) (p +:+ b) = String.compare a b.
Proof. induction p as [| x p IH]; simpl; [done |]. by rewrite ascii_compare_refl. Qed.

Lemma insert_elem k x l : x ∈ Str.insert k l <-> x = k \/ x ∈ l.
Proof.
  induction l as [| y l IH]; simpl.
  - rewrite list_elem_of_singleton, elem_of_nil. tauto.
  - destruct (Str.le k y); rewrite !elem_of_cons; [reflexivity |]. rewrite IH. tauto.
Qed.

Lemma sort_elem x l : x ∈ Str.sort l <-> x ∈ l.
Proof.
  induction l as [| y l IH]; simpl; [done |].
  rewrite insert_elem, elem_of_cons, IH. done.
Qed.

Lemma insert_sorted k l : sorted l -> sorted (Str.insert k l).
Proof.
  induction 1 as [| y l Hs IH Hy]; simpl.
  - repeat constructor.
  - destruct (Str.le k y) eqn:Hky.
    + constructor; [by constructor |].
      constructor; [done |].
      eapply Forall_impl; [exact Hy |]. intros z Hz. by apply (le_trans _ y).
    + constructor; [done |].
      apply Forall_forall. intros z Hz%insert_elem.
      destruct Hz as [-> | Hz]; [by apply le_total |].
      rewrite Forall_forall in Hy. by apply Hy.
Qed.

Lemma sort_sorted l : sorted (Str.sort l).
Proof. induction l; simpl; [constructor | by apply insert_sorted]. Qed.

Lemma sorted_last front x : sorted (front ++ [x]) -> Forall (fun k => Str.le k x = true) front.
Proof.
  induction front as [| y front IH]; simpl; [constructor |].
  intros Hs. inversion Hs as [| ? ? Hs' Hy]; subst.
  constructor; [| by apply IH].
  rewrite Forall_forall in Hy. apply Hy. set_solver.
Qed.

(** [sort().reverse()[0]] is the greatest element. *)
Lemma sort_reverse_head l x rest :
  rev (Str.sort l) = x :: rest ->
  x ∈ l /\ forall k, k ∈ l -> Str.le k x = true.
Proof.
  intros Hrev.
  assert (Hsort : Str.sort l = rev rest ++ [x]).
  { rewrite <- (rev_involutive (Str.sort l)), Hrev. done. }
  split.
  - apply sort_elem. rewrite Hsort. set_solver.
  - intros k Hk%sort_elem. rewrite Hsort in Hk.
    pose proof (sort_sorted l) as Hs. rewrite Hsort in Hs.
    apply sorted_last in Hs. rewrite Forall_forall in Hs.
    apply elem_of_app in Hk as [Hk | Hk].
    + by apply Hs.
    + apply list_elem_of_singleton in Hk as ->. apply le_refl.
Qed.

Lemma sort_reverse_nil l : rev (Str.sort l) = [] -> l = [].
Proof.
  intros Hrev. destruct l as [| y l]; [done |].
  assert (y ∈ Str.sort (y :: l)) as Hy by (apply sort_elem; set_solver).
  rewrite <- (rev_involutive (Str.sort (y :: l))), Hrev in Hy. simpl in Hy. set_solver.
Qed.

End StrFacts.

(* ===================================================================== *)
(** * The tiered cache resolver *)
(* ===================================================================== *)

Lemma run_serveEntry key b t s :
  run handle (serveEntry key b t) s =
    (Resolved (Some (mkHit (blobUrlOf (nextHandle (async s))) t
                           (storedOriginalUrl (idb (async s)) key))),
     mint b s).
Proof. unfold serveEntry. rewrite run_bind, run_getOriginalUrl. reflexivity. Qed.

#[local] Opaque serveEntry.

Lemma run_getSmartCache resolution s :
  run handle (getSmartCache resolution) s =
  match resolveTier resolution s with
  | Some (key, b, t) =>
      (Resolved (Some (mkHit (blobUrlOf (nextHandle (async s))) t
                             (storedOriginalUrl (idb (async s)) key))),
       mint b s)
  | None => (Resolved None, s)
  end.
Proof.
  destruct s as [m e]. unfold getSmartCache, resolveTier. rewrite run_try_catch. simpl.
  destruct (idb e !! getTodayCacheKey resolution m) as [b |].
  { by rewrite run_serveEntry. }
  simpl. destruct (idb e !! getYesterdayCacheKey resolution m) as [b |].
  { by rewrite run_serveEntry. }
  simpl. destruct (rev (Str.sort _)) as [| latestKey rest]; [done |].
  simpl. destruct (idb e !! latestKey) as [b |]; [| done].
  by rewrite run_serveEntry.
Qed.

#[local] Opaque getSmartCache.

(* ===================================================================== *)
(** * Dates and their strings *)
(* ===================================================================== *)

Module DateFacts.

Import Date.
Local Open Scope N_scope.

Lemma daysInMonth_bounds y m : 28 <= daysInMonth y m <= 31.
Proof.
  unfold daysInMonth.
  repeat (match goal with |- context [match ?x with _ => _ end] => destruct x end; try lia).
Qed.

Lemma nextDay_before d : before d (nextDay d).
Proof.
  unfold nextDay, before.
  destruct (N.ltb_spec (day d) (daysInMonth (year d) (month d))); simpl; [lia |].
  destruct (N.ltb_spec (month d) 12); simpl; lia.
Qed.

Lemma nextDay_valid d : valid d -> valid (nextDay d).
Proof.
  unfold nextDay, valid. intros [Hm Hd].
  destruct (N.ltb_spec (day d) (daysInMonth (year d) (month d))); simpl; [lia |].
  destruct (N.ltb_spec (month d) 12); simpl.
  - pose proof (daysInMonth_bounds (year d) (month d + 1)). lia.
  - pose proof (daysInMonth_bounds (year d + 1) 1). lia.
Qed.

Lemma before_trans a b c : before a b -> before b c -> before a c.
Proof. unfold before. lia. Qed.

Lemma civil_succ n : civil (N.succ n) = nextDay (civil n).
Proof. unfold civil. apply N.iter_succ. Qed.

Lemma civil_valid n : valid (civil n).
Proof.
  induction n as [| n IH] using N.peano_ind.
  - unfold valid. simpl. lia.
  - rewrite civil_succ. by apply nextDay_valid.
Qed.

Lemma civil_before a b : a < b -> before (civil a) (civil b).
Proof.
  induction b as [| b IH] using N.peano_ind; [lia |].
  intros Hab. rewrite civil_succ.
  destruct (N.eq_dec a b) as [-> | Hne]; [apply nextDay_before |].
  apply (before_trans _ (civil b)); [apply IH; lia | apply nextDay_before].
Qed.

Lemma civil_year_mono a b : a <= b -> year (civil a) <= year (civil b).
Proof.
  intros Hab. destruct (N.eq_dec a b) as [-> | Hne]; [lia |].
  assert (before (civil a) (civil b)) as Hb by (apply civil_before; lia).
  unfold before in Hb. lia.
Qed.

Lemma digit_code i : i < 10 -> N_of_ascii (digit i) = 48 + i.
Proof. intros Hi. unfold digit. apply N_ascii_embedding. lia. Qed.

Lemma digit_isDigit i : i < 10 -> Str.isDigit (digit i) = true.
Proof.
  intros Hi. unfold Str.isDigit. rewrite digit_code by done.
  apply andb_true_intro. split; apply N.leb_le; lia.
Qed.

Lemma digit_compare i j : i < 10 -> j < 10 -> Ascii.compare (digit i) (digit j) = (i ?= j).
Proof.
  intros Hi Hj. unfold Ascii.compare. rewrite !digit_code by done.
  destruct (N.compare_spec i j) as [-> | H | H].
  - apply N.compare_refl.
  - apply N.compare_lt_iff. lia.
  - apply N.compare_gt_iff. lia.
Qed.

Lemma pad2_compare a b s t :
  a < 100 -> b < 100 ->
  String.compare (pad2 a s) (pad2 b t) =
    match a ?= b with Eq => String.compare s t | c => c end.
Proof.
  intros Ha Hb. unfold pad2. simpl.
  assert (a / 10 mod 10 < 10 /\ a mod 10 < 10 /\ b / 10 mod 10 < 10 /\ b mod 10 < 10)
    as (? & ? & ? & ?) by div_lia.
  rewrite !digit_compare by done.
  destruct (N.compare_spec a b) as [-> | Hlt | Hgt].
  - by rewrite !N.compare_refl.
  - destruct (N.compare_spec (a / 10 mod 10) (b / 10 mod 10)) as [He | ? | ?];
      [| done | exfalso; div_lia].
    assert (a mod 10 < b mod 10) as ->%N.compare_lt_iff by div_lia. done.
  - destruct (N.compare_spec (a / 10 mod 10) (b / 10 mod 10)) as [He | ? | ?];
      [| exfalso; div_lia | done].
    assert (b mod 10 < a mod 10) as ->%N.compare_gt_iff by div_lia. done.
Qed.

Lemma pad4_compare a b s t :
  a < 10000 -> b < 10000 ->
  String.compare (pad4 a s) (pad4 b t) =
    match a ?= b with Eq => String.compare s t | c => c end.
Proof.
  intros Ha Hb. unfold pad4.
  assert (a / 100 < 100 /\ a mod 100 < 100 /\ b / 100 < 100 /\ b mod 100 < 100)
    as (? & ? & ? & ?) by div_lia.
  rewrite !pad2_compare by done.
  destruct (N.compare_spec a b) as [-> | Hlt | Hgt].
  - by rewrite !N.compare_refl.
  - destruct (N.compare_spec (a / 100) (b / 100)) as [He | ? | ?];
      [| done | exfalso; div_lia].
    assert (a mod 100 < b mod 100) as ->%N.compare_lt_iff by div_lia. done.
  - destruct (N.compare_spec (a / 100) (b / 100)) as [He | ? | ?];
      [| exfalso; div_lia | done].
    assert (b mod 100 < a mod 100) as ->%N.compare_gt_iff by div_lia. done.
Qed.

Lemma ascii_compare_refl_hyphen : Ascii.compare "-" "-" = Eq.
Proof. reflexivity. Qed.

(** On valid dates with four-digit years, the order of the strings is
    the order of the dates. *)
Lemma format_before a b :
  valid a -> valid b -> year b < 10000 -> before a b ->
  String.compare (format a) (format b) = Lt.
Proof.
  intros [Hma Hda] [Hmb Hdb] Hy Hab. unfold format.
  pose proof (daysInMonth_bounds (year a) (month a)).
  pose proof (daysInMonth_bounds (year b) (month b)).
  destruct Hab as [Hlt | [Heq Hab]].
  - rewrite pad4_compare by lia. by apply N.compare_lt_iff in Hlt as ->.
  - rewrite pad4_compare, Heq, N.compare_refl by lia. cbn [String.compare].
    rewrite ascii_compare_refl_hyphen.
    destruct Hab as [Hlt | [Hm Hlt]].
    + rewrite pad2_compare by lia. by apply N.compare_lt_iff in Hlt as ->.
    + rewrite pad2_compare, Hm, N.compare_refl by lia. cbn [String.compare].
      rewrite ascii_compare_refl_hyphen.
      rewrite pad2_compare by lia. by apply N.compare_lt_iff in Hlt as ->.
Qed.

(** [prevDay] undoes [nextDay]. *)
Lemma prevDay_nextDay d : valid d -> prevDay (nextDay d) = d.
Proof.
  destruct d as [y m dd]. unfold valid, nextDay, prevDay. simpl. intros [Hm Hd].
  destruct (N.ltb_spec dd (daysInMonth y m)) as [Hlt | Hge]; simpl.
  - replace (1 <? dd + 1) with true by (symmetry; apply N.ltb_lt; lia).
    f_equal. lia.
  - destruct (N.ltb_spec m 12) as [Hlt | Hdec]; simpl.
    + replace (1 <? m + 1) with true by (symmetry; apply N.ltb_lt; lia).
      replace (m + 1 - 1) with m by lia. f_equal. lia.
    + assert (m = 12) as -> by lia. simpl in *. f_equal; lia.
Qed.

Lemma daysAgo_le k n : k <= n -> daysAgo k n = civil (n - k).
Proof. intros H. unfold daysAgo. by apply N.leb_le in H as ->. Qed.

Lemma civil_year_epoch n : 1970 <= year (civil n).
Proof. apply (civil_year_mono 0 n). lia. Qed.

(** The days the service can look back to before 1970-01-01. *)
Lemma daysAgo_early k n : n < k <= 3 -> valid (daysAgo k n) /\ year (daysAgo k n) = 1969.
Proof.
  intros H. unfold daysAgo.
  replace (k <=? n) with false by (symmetry; apply N.leb_gt; lia).
  assert (k - n = 1 \/ k - n = 2 \/ k - n = 3) as [-> | [-> | ->]] by lia;
    (split; [vm_compute; repeat split; discriminate | reflexivity]).
Qed.

End DateFacts.

(* ===================================================================== *)
(** * Prefixes, substrings and the date pattern *)
(* ===================================================================== *)

Module KeyFacts.

Import Date.

Lemma app_cons c s t : String c s +:+ t = String c (s +:+ t).
Proof. reflexivity. Qed.

Lemma app_nil t : "" +:+ t = t.
Proof. reflexivity. Qed.

Lemma prefix_app p s : String.prefix p (p +:+ s) = true.
Proof.
  induction p as [| c p IH]; simpl; [by destruct s |].
  destruct (ascii_dec c c); [done | congruence].
Qed.

Lemma prefix_nil_r p : String.prefix p "" = true -> p = "".
Proof. by destruct p. Qed.

Lemma prefix_allChars P p s :
  String.prefix p s = true -> allChars P s = true -> allChars P p = true.
Proof.
  revert s. induction p as [| c p IH]; intros [| d s]; simpl; try done.
  destruct (ascii_dec c d) as [-> |]; [| done].
  intros Hp [Hd Hs]%andb_prop. rewrite Hd. simpl. by apply (IH s).
Qed.

Lemma allChars_lastChar P p c :
  allChars P p = true -> lastChar p = Some c -> P c = true.
Proof.
  induction p as [| d p IH]; simpl; [done |].
  intros [Hd Hp]%andb_prop. destruct p; [by intros [= <-] | by apply IH].
Qed.

(** A pattern whose last character cannot occur in the tail of a string
    can only match inside its head. *)
Lemma prefix_head P c : forall p hd tl,
  lastChar p = Some c -> P c = false -> allChars P tl = true ->
  String.prefix p (hd +:+ tl) = String.prefix p hd.
Proof.
  induction p as [| x p IH]; intros hd tl Hl Hc Ht; [done |].
  destruct hd as [| h hd].
  - change ("" +:+ tl) with tl.
    destruct (String.prefix (String x p) tl) eqn:Hp; [| by destruct tl].
    pose proof (prefix_allChars P _ _ Hp Ht) as Hall.
    pose proof (allChars_lastChar P _ c Hall Hl). congruence.
  - simpl. destruct (ascii_dec x h); [| done].
    destruct p as [| y p]; [by destruct hd, tl |]. by apply IH.
Qed.

Lemma includes_head P c p : forall hd tl,
  lastChar p = Some c -> P c = false -> allChars P tl = true ->
  Str.includes (hd +:+ tl) p = Str.includes hd p.
Proof.
  intros hd tl Hl Hc Ht. induction hd as [| h hd IH].
  - change ("" +:+ tl) with tl.
    assert (Str.includes "" p = false) as -> by (by destruct p).
    induction tl as [| d tl IHt]; [by destruct p |].
    simpl in Ht. apply andb_prop in Ht as [Hd Ht'].
    change (Str.includes (String d tl) p)
      with (String.prefix p (String d tl) || Str.includes tl p).
    rewrite (IHt Ht'), orb_false_r.
    destruct (String.prefix p (String d tl)) eqn:Hp; [| done].
    assert (allChars P (String d tl) = true) as Hall' by (simpl; by rewrite Hd, Ht').
    pose proof (prefix_allChars P _ _ Hp Hall') as Hall.
    pose proof (allChars_lastChar P _ c Hall Hl). congruence.
  - change (Str.includes (String h hd +:+ tl) p)
      with (String.prefix p (String h hd +:+ tl) || Str.includes (hd +:+ tl) p).
    rewrite (prefix_head P c) by done. by rewrite IH.
Qed.

Lemma prefix_refl p : String.prefix p p = true.
Proof. induction p as [| c p IH]; simpl; [done |]. destruct (ascii_dec c c); [done | congruence]. Qed.

Lemma includes_suffix p : forall s, Str.includes (s +:+ p) p = true.
Proof.
  induction s as [| c s IH].
  - change ("" +:+ p) with p. destruct p; simpl; [done |].
    destruct (ascii_dec a a); [| congruence]. by rewrite prefix_refl.
  - change (Str.includes (String c s +:+ p) p)
      with (String.prefix p (String c s +:+ p) || Str.includes (s +:+ p) p).
    by rewrite IH, orb_true_r.
Qed.

Lemma format_chars d : allChars isDateChar (format d) = true.
Proof.
  assert (forall n, isDateChar (digit (n mod 10)) = true) as Hd.
  { intros n. unfold isDateChar. rewrite DateFacts.digit_isDigit; [done |].
    apply N.mod_lt. done. }
  unfold format, pad4, pad2. simpl. rewrite !Hd. reflexivity.
Qed.

Lemma format_dateAt d rest : Str.dateAt (format d +:+ rest) = true.
Proof.
  assert (forall n, Str.isDigit (digit (n mod 10)) = true) as Hd.
  { intros n. apply DateFacts.digit_isDigit. apply N.mod_lt. done. }
  unfold format, pad4, pad2. simpl. rewrite !Hd. reflexivity.
Qed.

Lemma format_substring d rest : String.substring 0 10 (format d +:+ rest) = format d.
Proof. unfold format, pad4, pad2. simpl. by destruct rest. Qed.

Lemma startsWith_cacheKey r d : Str.startsWith (cacheKey r d) cachePrefix = true.
Proof. apply prefix_app. Qed.

Lemma app_assoc_string (a b c : string) : (a +:+ b) +:+ c = a +:+ (b +:+ c).
Proof. induction a as [| x a IH]; [done |]. rewrite !app_cons. by rewrite IH. Qed.

Lemma app_nil_r_string (a : string) : a +:+ "" = a.
Proof. induction a as [| x a IH]; [done |]. rewrite app_cons. by rewrite IH. Qed.

Lemma startsWith_metadataKey r d :
  Str.startsWith (metadataKeyOf (cacheKey r d)) cachePrefix = true.
Proof. unfold metadataKeyOf, cacheKey. rewrite app_assoc_string. apply prefix_app. Qed.

(** Among the keys of the four resolutions, [key.includes(resolution)]
    singles out the keys of that resolution. *)
Lemma includes_cacheKey_format r r' d :
  r ∈ resolutions -> r' ∈ resolutions ->
  Str.includes (cacheKey r' (format d)) r = bool_decide (r = r').
Proof.
  intros Hr Hr'.
  pose proof (format_chars d) as Hchars.
  each_resolution Hr; each_resolution Hr';
    match goal with
    | |- Str.includes (cacheKey ?a ?d) ?b = _ =>
        let hd := eval vm_compute in (cachePrefix +:+ a +:+ "-") in
        change (cacheKey a d) with (hd +:+ d);
        erewrite (includes_head isDateChar);
          [vm_compute; reflexivity | reflexivity | reflexivity | exact Hchars]
    end.
Qed.

Lemma includes_cacheKey r r' n :
  r ∈ resolutions -> r' ∈ resolutions ->
  Str.includes (cacheKey r' (getLocalDateString n)) r = bool_decide (r = r').
Proof. apply includes_cacheKey_format. Qed.

Lemma cacheKey_not_metadata_format r d :
  r ∈ resolutions ->
  Str.includes (cacheKey r (format d)) "-metadata" = false.
Proof.
  intros Hr.
  pose proof (format_chars d) as Hchars.
  each_resolution Hr;
    match goal with
    | |- Str.includes (cacheKey ?a ?d) ?b = _ =>
        let hd := eval vm_compute in (cachePrefix +:+ a +:+ "-") in
        change (cacheKey a d) with (hd +:+ d);
        erewrite (includes_head isDateChar);
          [vm_compute; reflexivity | reflexivity | reflexivity | exact Hchars]
    end.
Qed.

Lemma cacheKey_not_metadata r n :
  r ∈ resolutions ->
  Str.includes (cacheKey r (getLocalDateString n)) "-metadata" = false.
Proof. apply cacheKey_not_metadata_format. Qed.

Lemma isWallpaperKeyOf_cacheKey_format r r' d :
  r ∈ resolutions -> r' ∈ resolutions ->
  isWallpaperKeyOf r (cacheKey r' (format d)) = bool_decide (r = r').
Proof.
  intros Hr Hr'. unfold isWallpaperKeyOf.
  rewrite startsWith_cacheKey, includes_cacheKey_format, cacheKey_not_metadata_format by done.
  by rewrite andb_true_r.
Qed.

Lemma isWallpaperKeyOf_cacheKey r r' n :
  r ∈ resolutions -> r' ∈ resolutions ->
  isWallpaperKeyOf r (cacheKey r' (getLocalDateString n)) = bool_decide (r = r').
Proof. apply isWallpaperKeyOf_cacheKey_format. Qed.

Lemma isWallpaperKeyOf_metadata r key : isWallpaperKeyOf r (metadataKeyOf key) = false.
Proof.
  unfold isWallpaperKeyOf, metadataKeyOf. rewrite includes_suffix. apply andb_false_r.
Qed.

Lemma matchDate_skip c s :
  Str.dateAt (String c s) = false -> Str.matchDate (String c s) = Str.matchDate s.
Proof.
  intros H.
  change (Str.matchDate (String c s))
    with (if Str.dateAt (String c s) then Some (String.substring 0 10 (String c s))
          else Str.matchDate s).
  by rewrite H.
Qed.

Lemma matchDate_here s :
  Str.dateAt s = true -> Str.matchDate s = Some (String.substring 0 10 s).
Proof.
  intros H. destruct s as [| c s]; [done |].
  change (Str.matchDate (String c s))
    with (if Str.dateAt (String c s) then Some (String.substring 0 10 (String c s))
          else Str.matchDate s).
  by rewrite H.
Qed.

(** The date the cleanup reads off a key of one of the four resolutions
    is the date the key was built from. *)
Lemma matchDate_cacheKey_format r d rest :
  r ∈ resolutions ->
  Str.matchDate (cacheKey r (format d) +:+ rest) = Some (format d).
Proof.
  intros Hr.
  pose proof (format_dateAt d rest) as Hat.
  pose proof (format_substring d rest) as Hsub.
  each_resolution Hr.
  all: match goal with
    | |- Str.matchDate (cacheKey ?a ?d +:+ _) = _ =>
        let hd := eval vm_compute in (cachePrefix +:+ a +:+ "-") in
        change (cacheKey a d +:+ rest) with (hd +:+ (d +:+ rest))
    end.
  all: rewrite !app_cons, app_nil.
  all: repeat (rewrite matchDate_skip by (vm_compute; reflexivity)).
  all: by rewrite matchDate_here, Hsub.
Qed.

Lemma matchDate_cacheKey r n rest :
  r ∈ resolutions ->
  Str.matchDate (cacheKey r (getLocalDateString n) +:+ rest) = Some (getLocalDateString n).
Proof. apply matchDate_cacheKey_format. Qed.

End KeyFacts.

(* ===================================================================== *)
(** * Cache resolution follows the tiers *)
(* ===================================================================== *)

Lemma candidates_elem resolution (store : gmap string Blob) key :
  key ∈ List.filter (isWallpaperKeyOf resolution) (elements (dom store)) <->
  is_Some (store !! key) /\ isWallpaperKeyOf resolution key = true.
Proof.
  rewrite list_elem_of_In, filter_In, <- list_elem_of_In, elem_of_elements, elem_of_dom. done.
Qed.

Lemma le_cacheKey r d d' : Str.le (cacheKey r d) (cacheKey r d') = Str.le d d'.
Proof.
  unfold Str.le, String.leb, cacheKey. by rewrite !StrFacts.compare_app.
Qed.

(** What the third tier picks in a store filled by the service. *)
Lemma latest_is_greatest resolution (store : gmap string Blob) latestKey rest :
  resolution ∈ resolutions -> serviceKeys store ->
  rev (Str.sort (List.filter (isWallpaperKeyOf resolution) (elements (dom store)))) =
    latestKey :: rest ->
  exists n b,
    latestKey = cacheKey resolution (getLocalDateString n) /\
    store !! latestKey = Some b /\
    forall n', is_Some (store !! cacheKey resolution (getLocalDateString n')) ->
               Str.le (getLocalDateString n') (getLocalDateString n) = true.
Proof.
  intros Hr Hkeys Hrev.
  apply StrFacts.sort_reverse_head in Hrev as [Hin Hmax].
  apply candidates_elem in Hin as [[b Hb] Hw].
  destruct (Hkeys latestKey) as (r & n & Hr' & [-> | ->]).
  - by exists b.
  - unfold isWallpaperKeyOf in Hw. by destruct (Str.startsWith latestKey cachePrefix).
  - rewrite KeyFacts.isWallpaperKeyOf_cacheKey in Hw by done.
    apply bool_decide_eq_true in Hw as <-.
    exists n, b. split; [done |]. split; [done |].
    intros n' Hn'. rewrite <- (le_cacheKey resolution). apply Hmax.
    apply candidates_elem. split; [done |].
    rewrite KeyFacts.isWallpaperKeyOf_cacheKey by done. by apply bool_decide_eq_true.
  - by rewrite KeyFacts.isWallpaperKeyOf_metadata in Hw.
Qed.

(** C6: in a store filled by the service, [getSmartCache] resolves in tier
    order.  Today's entry, whenever present (and then it is non-empty), is
    served with [isToday = true], and nothing else is ever served with
    [isToday = true]; else yesterday's entry, if present, with
    [isToday = false]; else, if the resolution has any stored key, the entry
    whose date string is the lexicographically greatest, with
    [isToday = false]; else [null]. *)
Theorem getSmartCache_tier_order (resolution : string) (s : state) :
  resolution ∈ resolutions ->
  serviceKeys (idb (async s)) ->
  nonEmptyEntries (idb (async s)) ->
  let store := idb (async s) in
  let todayKey := getTodayCacheKey resolution (sync s) in
  let yesterdayKey := getYesterdayCacheKey resolution (sync s) in
  let served key b t :=
    (Resolved (Some (mkHit (blobUrlOf (nextHandle (async s))) t (storedOriginalUrl store key))),
     mint b s) in
  let result := run handle (getSmartCache resolution) s in
  (forall b, store !! todayKey = Some b ->
     (0 < size b)%N /\ result = served todayKey b true) /\
  (forall hit s', result = (Resolved (Some hit), s') -> hit_isToday hit = true ->
     exists b, store !! todayKey = Some b /\ (0 < size b)%N /\
               handles (async s') !! hit_url hit = Some b) /\
  (store !! todayKey = None ->
   forall b, store !! yesterdayKey = Some b -> result = served yesterdayKey b false) /\
  (store !! todayKey = None -> store !! yesterdayKey = None ->
   forall n0, is_Some (store !! cacheKey resolution (getLocalDateString n0)) ->
   exists n b,
     store !! cacheKey resolution (getLocalDateString n) = Some b /\
     (forall n', is_Some (store !! cacheKey resolution (getLocalDateString n')) ->
                 Str.le (getLocalDateString n') (getLocalDateString n) = true) /\
     result = served (cacheKey resolution (getLocalDateString n)) b false) /\
  ((forall n, store !! cacheKey resolution (getLocalDateString n) = None) ->
   result = (Resolved None, s)).
Proof.
  intros Hr Hkeys Hne. cbv zeta.
  rewrite run_getSmartCache. unfold resolveTier.
  set (store := idb (async s)) in *.
  set (todayKey := getTodayCacheKey resolution (sync s)).
  set (yesterdayKey := getYesterdayCacheKey resolution (sync s)).
  split; [| split; [| split; [| split]]].
  - intros b Hb. rewrite Hb. split; [| done]. by apply (Hne resolution (today (sync s))).
  - intros hit s'. destruct (store !! todayKey) as [b |] eqn:Hb.
    + intros [= <- <-] _. exists b. split; [done |].
      split; [by apply (Hne resolution (today (sync s))) |].
      simpl. apply lookup_insert_eq.
    + destruct (store !! yesterdayKey); [by intros [= <- <-] |].
      destruct (rev _) as [| latestKey rest]; [done |].
      destruct (store !! latestKey); [by intros [= <- <-] | done].
  - intros Ht b Hb. by rewrite Ht, Hb.
  - intros Ht Hy n0 Hn0. rewrite Ht, Hy.
    destruct (rev _) as [| latestKey rest] eqn:Hrev.
    + apply StrFacts.sort_reverse_nil in Hrev.
      assert (cacheKey resolution (getLocalDateString n0) ∈
              List.filter (isWallpaperKeyOf resolution) (elements (dom store))) as Hin.
      { apply candidates_elem. split; [done |].
        rewrite KeyFacts.isWallpaperKeyOf_cacheKey by done. by apply bool_decide_eq_true. }
      rewrite Hrev in Hin. by apply elem_of_nil in Hin.
    + destruct (latest_is_greatest _ _ _ _ Hr Hkeys Hrev) as (n & b & -> & Hb & Hmax).
      exists n, b. rewrite Hb. done.
  - intros Hnone.
    assert (store !! yesterdayKey = None) as ->.
    { destruct (store !! yesterdayKey) as [b |] eqn:Hb; [exfalso | done].
      pose proof (KeyFacts.isWallpaperKeyOf_cacheKey_format resolution resolution
                    (daysAgo 1 (today (sync s))) Hr Hr) as Hw.
      rewrite bool_decide_eq_true_2 in Hw by done.
      change (cacheKey resolution _) with yesterdayKey in Hw.
      destruct (Hkeys yesterdayKey) as (r & n & Hr' & [Heq | Heq]).
      - eauto.
      - apply KeyFacts.startsWith_cacheKey.
      - rewrite Heq, KeyFacts.isWallpaperKeyOf_cacheKey in Hw by done.
        apply bool_decide_eq_true in Hw as <-. by rewrite Heq, Hnone in Hb.
      - by rewrite Heq, KeyFacts.isWallpaperKeyOf_metadata in Hw. }
    unfold todayKey, getTodayCacheKey, todayString.
    rewrite (Hnone (today (sync s))).
    destruct (rev _) as [| latestKey rest] eqn:Hrev; [done |].
    destruct (latest_is_greatest _ _ _ _ Hr Hkeys Hrev) as (n & b & -> & Hb & _).
    by rewrite Hnone in Hb.
Qed.

Lemma storeWith_lookup resolution entryDay origin key b :
  storeWith resolution entryDay origin !! key = Some b ->
  (key = metadataKeyOf (cacheKey resolution (getLocalDateString entryDay)) /\
   b = metadataBlob origin) \/
  (key = cacheKey resolution (getLocalDateString entryDay) /\ b = jpeg 900000).
Proof.
  unfold storeWith. intros H.
  apply lookup_insert_Some in H as [[<- <-] | [_ H]]; [by left |].
  apply lookup_insert_Some in H as [[<- <-] | [_ H]]; [by right |].
  by rewrite lookup_empty in H.
Qed.

Lemma storeWith_serviceKeys resolution entryDay origin :
  resolution ∈ resolutions -> serviceKeys (storeWith resolution entryDay origin).
Proof.
  intros Hr key [b Hb] _. exists resolution, entryDay. split; [done |].
  apply storeWith_lookup in Hb as [[-> _] | [-> _]]; auto.
Qed.

Lemma storeWith_nonEmpty resolution entryDay origin :
  nonEmptyEntries (storeWith resolution entryDay origin).
Proof.
  intros r n b Hb. apply storeWith_lookup in Hb as [[_ ->] | [_ ->]]; simpl; lia.
Qed.

Lemma getSmartCache_tier_order_witness :
  run handle (getSmartCache "1080p") (cachedState 20759 20758 "1080p" offline) =
    (Resolved (Some (mkHit "blob:0" false (Some "https://www.bing.com/th?id=OHR.Old"))),
     mint (jpeg 900000) (cachedState 20759 20758 "1080p" offline)).
Proof.
  apply (proj1 (proj2 (proj2
           (getSmartCache_tier_order "1080p" (cachedState 20759 20758 "1080p" offline)
              ltac:(unfold resolutions; set_solver)
              (storeWith_serviceKeys "1080p" 20758 _ ltac:(unfold resolutions; set_solver))
              (storeWith_nonEmpty "1080p" 20758 _))))).
  - reflexivity.
  - reflexivity.
Defined.

(** The resolver only tests that an entry is present: an empty payload
    under today's key, which the downloader never stores, would be served. *)
Example empty_entry_would_be_served :
  let s := mkState (emptyMem 20759 "")
             (mkExt {[ "wallpaper-optimized:4k-2026-11-02" := mkBlob 0 "image/jpeg" (Image 0) ]}
                    ∅ 0 offline None) in
  fst (run handle (getSmartCache "4k") s) = Resolved (Some (mkHit "blob:0" true None)).
Proof. vm_compute. reflexivity. Qed.

(* ===================================================================== *)
(** * Cleanup of expired entries *)
(* ===================================================================== *)

Lemma prune_lookup cutoffDate keys : forall (store : gmap string Blob) key,
  prune cutoffDate keys store !! key =
    if bool_decide (key ∈ keys) && expired cutoffDate key then None else store !! key.
Proof.
  unfold prune. induction keys as [| k keys IH]; intros store key; simpl; [done |].
  rewrite IH. destruct (decide (key = k)) as [-> | Hne].
  - rewrite (bool_decide_eq_true_2 (k ∈ k :: keys)) by set_solver. simpl.
    destruct (expired cutoffDate k) eqn:He.
    + rewrite andb_true_r, lookup_delete_eq. by case_bool_decide.
    + by rewrite andb_false_r.
  - assert (bool_decide (key ∈ k :: keys) = bool_decide (key ∈ keys)) as ->.
    { apply bool_decide_ext. rewrite elem_of_cons. tauto. }
    destruct (bool_decide (key ∈ keys) && expired cutoffDate key); [done |].
    destruct (expired cutoffDate k); [by rewrite lookup_delete_ne | done].
Qed.

Lemma run_deleteExpired cutoffDate keys : forall count m store hs nh net cw,
  exists count',
    run handle (deleteExpired cutoffDate keys count) (mkState m (mkExt store hs nh net cw)) =
      (Resolved count', mkState m (mkExt (prune cutoffDate keys store) hs nh net cw)).
Proof.
  induction keys as [| k keys IH]; intros count m store hs nh net cw; simpl.
  - by exists count.
  - unfold prune, expired. simpl. destruct (Str.matchDate k) as [d |]; [| apply IH].
    destruct (Str.lt d cutoffDate); [| apply IH]. simpl. apply IH.
Qed.

Lemma run_cleanupExpiredCache m store hs nh net cw :
  run handle cleanupExpiredCache (mkState m (mkExt store hs nh net cw)) =
    (Resolved tt,
     mkState m (mkExt (prune (format (daysAgo 3 (today m)))
                             (List.filter (fun key => Str.startsWith key cachePrefix)
                                          (elements (dom store)))
                             store)
                      hs nh net cw)).
Proof.
  unfold cleanupExpiredCache. rewrite run_try_catch. simpl.
  rewrite run_bind.
  destruct (run_deleteExpired (format (daysAgo 3 (today m)))
              (List.filter (fun key => Str.startsWith key cachePrefix) (elements (dom store)))
              0 m store hs nh net cw) as [count' ->].
  reflexivity.
Qed.

Lemma getLocalDateString_lt a b :
  (a < b)%N -> (year (civil b) < 10000)%N ->
  String.compare (getLocalDateString a) (getLocalDateString b) = Lt.
Proof.
  intros Hab Hy. apply DateFacts.format_before; auto using DateFacts.civil_valid.
  by apply DateFacts.civil_before.
Qed.

Lemma format_daysAgo k n : (k <= n)%N -> format (daysAgo k n) = getLocalDateString (n - k).
Proof. intros H. by rewrite DateFacts.daysAgo_le. Qed.

Lemma yesterdayKey_pos r m :
  (0 < today m)%N ->
  getYesterdayCacheKey r m = cacheKey r (getLocalDateString (today m - 1)).
Proof. intros H. unfold getYesterdayCacheKey. by rewrite format_daysAgo by lia. Qed.

(** A day of the calendar is not before the cutoff of a cleanup that runs
    within three days. *)
Lemma cutoff_not_after n t :
  (n <= t <= n + 3)%N -> (year (civil t) < 10000)%N ->
  Str.lt (getLocalDateString n) (format (daysAgo 3 t)) = false.
Proof.
  intros [Hle Hnew] Hy. unfold Str.lt, String.ltb.
  pose proof (DateFacts.civil_year_mono n t Hle) as Hn.
  destruct (N.le_gt_cases 3 t) as [Ht | Ht].
  - rewrite format_daysAgo by done.
    destruct (N.eq_dec n (t - 3)%N) as [-> | Hne].
    + by rewrite StrFacts.compare_refl.
    + rewrite String.compare_antisym, getLocalDateString_lt; [done | lia | lia].
  - destruct (DateFacts.daysAgo_early 3 t) as [Hvalid Hyear]; [lia |].
    pose proof (DateFacts.civil_year_epoch n) as Hepoch.
    rewrite String.compare_antisym. unfold getLocalDateString.
    rewrite DateFacts.format_before; [done | done | apply DateFacts.civil_valid | lia |].
    left. lia.
Qed.

(** The cleanup keeps a key whose date is not before the cutoff. *)
Lemma cleanup_keeps s key d :
  Str.matchDate key = Some d ->
  Str.lt d (format (daysAgo 3 (today (sync s)))) = false ->
  idb (async (snd (run handle cleanupExpiredCache s))) !! key = idb (async s) !! key.
Proof.
  destruct s as [m [store hs nh net cw]]. intros Hd Hlt.
  rewrite run_cleanupExpiredCache. simpl in *. rewrite prune_lookup.
  unfold expired. by rewrite Hd, Hlt, andb_false_r.
Qed.

(** What the cleanup does to a single key. *)
Lemma cleanup_by_key (s : state) :
  (year (civil (today (sync s))) < 10000)%N ->
  let result := run handle cleanupExpiredCache s in
  let s' := snd result in
  fst result = Resolved tt /\
  sync s' = sync s /\
  forall key,
    (Str.startsWith key cachePrefix = true ->
     forall n, Str.matchDate key = Some (getLocalDateString n) ->
               (n + 3 < today (sync s))%N ->
               idb (async s') !! key = None) /\
    (Str.startsWith key cachePrefix = true ->
     forall n, Str.matchDate key = Some (getLocalDateString n) ->
               (n <= today (sync s) <= n + 3)%N ->
               idb (async s') !! key = idb (async s) !! key) /\
    (Str.startsWith key cachePrefix = false ->
     idb (async s') !! key = idb (async s) !! key).
Proof.
  destruct s as [m [store hs nh net cw]]. intros Hy. simpl in Hy. cbv zeta.
  rewrite run_cleanupExpiredCache. simpl.
  split; [done |]. split; [done |].
  intros key. rewrite prune_lookup.
  set (keys := List.filter _ _).
  assert (Hkeys : key ∈ keys <-> is_Some (store !! key) /\ Str.startsWith key cachePrefix = true).
  { subst keys. by rewrite list_elem_of_In, filter_In, <- list_elem_of_In,
      elem_of_elements, elem_of_dom. }
  assert (Hcut : (year (civil (today m - 3)) < 10000)%N).
  { pose proof (DateFacts.civil_year_mono (today m - 3)%N (today m)). lia. }
  split; [| split].
  - intros Hw n Hd Hold. unfold expired. rewrite Hd.
    unfold Str.lt, String.ltb. rewrite format_daysAgo by lia.
    rewrite getLocalDateString_lt by (done || lia).
    case_bool_decide as Hin; [done |]. simpl.
    destruct (store !! key) eqn:Hs; [| done].
    exfalso. apply Hin, Hkeys. eauto.
  - intros Hw n Hd Hn. unfold expired. rewrite Hd.
    by rewrite cutoff_not_after, andb_false_r.
  - intros Hw. case_bool_decide as Hin; [| done].
    apply Hkeys in Hin as [_ Hin]. congruence.
Qed.

(** C9: after [cleanupExpiredCache], a wallpaper key whose encoded date
    (the date the cleanup reads off the key) lies more than 3 days before
    the current local date is gone from the store; a wallpaper key whose
    encoded date lies within the last 3 days, and every key that is not a
    wallpaper key, holds what it held before; the synchronous state is
    untouched.  For the keys the service writes, the entry of a resolution
    for day [n] and its metadata record, the encoded date is day [n]: they
    are gone when [n] is more than 3 days back and kept when it is not. *)
Theorem cleanupExpiredCache_retention (s : state) :
  (year (civil (today (sync s))) < 10000)%N ->
  let result := run handle cleanupExpiredCache s in
  let s' := snd result in
  fst result = Resolved tt /\
  sync s' = sync s /\
  (forall key,
    (Str.startsWith key cachePrefix = true ->
     forall n, Str.matchDate key = Some (getLocalDateString n) ->
               (n + 3 < today (sync s))%N ->
               idb (async s') !! key = None) /\
    (Str.startsWith key cachePrefix = true ->
     forall n, Str.matchDate key = Some (getLocalDateString n) ->
               (n <= today (sync s) <= n + 3)%N ->
               idb (async s') !! key = idb (async s) !! key) /\
    (Str.startsWith key cachePrefix = false ->
     idb (async s') !! key = idb (async s) !! key)) /\
  (forall r n, r ∈ resolutions ->
     let key := cacheKey r (getLocalDateString n) in
     ((n + 3 < today (sync s))%N ->
      idb (async s') !! key = None /\ idb (async s') !! metadataKeyOf key = None) /\
     ((n <= today (sync s) <= n + 3)%N ->
      idb (async s') !! key = idb (async s) !! key /\
      idb (async s') !! metadataKeyOf key = idb (async s) !! metadataKeyOf key)).
Proof.
  intros Hy. destruct (cleanup_by_key s Hy) as (Hres & Hsync & Hkey).
  cbv zeta. split; [done |]. split; [done |]. split; [done |].
  intros r n Hr.
  assert (Hd1 : Str.matchDate (cacheKey r (getLocalDateString n)) = Some (getLocalDateString n)).
  { rewrite <- (KeyFacts.app_nil_r_string (cacheKey r (getLocalDateString n))).
    by apply KeyFacts.matchDate_cacheKey. }
  assert (Hd2 : Str.matchDate (metadataKeyOf (cacheKey r (getLocalDateString n))) =
                Some (getLocalDateString n)) by (by apply KeyFacts.matchDate_cacheKey).
  pose proof (KeyFacts.startsWith_cacheKey r (getLocalDateString n)) as Hw1.
  pose proof (KeyFacts.startsWith_metadataKey r (getLocalDateString n)) as Hw2.
  split; intros Hn; split.
  - by apply (proj1 (Hkey _) Hw1 n).
  - by apply (proj1 (Hkey _) Hw2 n).
  - by apply (proj1 (proj2 (Hkey _)) Hw1 n).
  - by apply (proj1 (proj2 (Hkey _)) Hw2 n).
Qed.

Lemma cleanupExpiredCache_retention_witness :
  let s := cachedState 20759 20755 "4k" offline in
  let s' := snd (run handle cleanupExpiredCache s) in
  let key := cacheKey "4k" (getLocalDateString 20755) in
  idb (async s') !! key = None /\ idb (async s') !! metadataKeyOf key = None.
Proof.
  assert (Hr : "4k" ∈ resolutions) by (unfold resolutions; set_solver).
  assert (Hy : (year (civil (today (sync (cachedState 20759 20755 "4k" offline)))) < 10000)%N)
    by (vm_compute; reflexivity).
  pose proof (cleanupExpiredCache_retention (cachedState 20759 20755 "4k" offline) Hy)
    as (_ & _ & _ & H).
  destruct (H "4k" 20755%N Hr) as [Hold _]. cbv zeta in Hold |- *.
  apply Hold. vm_compute. reflexivity.
Defined.

(** The cleanup, evaluated: of three wallpapers, the one from five days
    ago goes, with its metadata; those from three days ago and from today
    stay, and so does a key of another module. *)
Example cleanup_evaluated :
  let old := storeWith "1080p" 20754 "https://www.bing.com/a" in
  let edge := storeWith "720p" 20756 "https://www.bing.com/b" in
  let fresh := storeWith "4k" 20759 "https://www.bing.com/c" in
  let other : gmap string Blob := {[ "favicon-cache:example.org" := jpeg 10 ]} in
  let s := mkState (emptyMem 20759 "")
                   (mkExt (old ∪ edge ∪ fresh ∪ other) ∅ 0 offline None) in
  idb (async (snd (run handle cleanupExpiredCache s))) = edge ∪ fresh ∪ other.
Proof. vm_compute. reflexivity. Qed.


(* ===================================================================== *)
(** * Custom wallpapers *)
(* ===================================================================== *)

(** C10: for the resolution ['custom'], the only action the method can
    ever perform is the read of the custom wallpaper manager: no network
    request, no access to the binary cache, no synchronous code (hence no
    retry scheduling).  With the manager answering, the state is left as it
    was and the result is the stored custom wallpaper with
    [isFromCache = true, isToday = true, needsUpdate = false] when there is
    one, and the static local default with
    [isFromCache = false, isToday = true, needsUpdate = false] when there is
    none. *)
Theorem custom_wallpaper_is_local :
  always isManagerRead (_getWallpaperInternal "custom") /\
  forall s,
    run handle (_getWallpaperInternal "custom") s =
      (Resolved
         (match customWallpaper (async s) with
          | Some (String c u) => mkWallpaper (String c u) true true false None
          | _ => mkWallpaper fallbackImage false true false None
          end),
       s).
Proof.
  split.
  - simpl. split; [done |]. split; [| done].
    intros customUrl. by destruct (Str.truthy customUrl).
  - intros s. simpl. by destruct (customWallpaper (async s)) as [[| c u] |].
Qed.

(* ===================================================================== *)
(** * The static default *)
(* ===================================================================== *)

#[local] Opaque downloadAndCache.

Lemma resolveTier_none_run resolution s :
  fst (run handle (getSmartCache resolution) s) = Resolved None ->
  run handle (getSmartCache resolution) s = (Resolved None, s).
Proof.
  rewrite run_getSmartCache. by destruct (resolveTier resolution s) as [[[? ?] ?] |].
Qed.

(** Without a cache tier, the method ends in one of two ways. *)
Lemma internal_without_cache (resolution : string) (s : state) :
  resolution <> "custom" ->
  fst (run handle (getSmartCache resolution) s) = Resolved None ->
  (getWallpaperUrl resolution (sync s) <> fallbackImage ->
   (exists e, fst (run handle (downloadAndCache (getWallpaperUrl resolution (sync s))
                                                resolution) s) = Rejected e) ->
   fst (run handle (_getWallpaperInternal resolution) s) =
     Resolved (mkWallpaper fallbackImage false true true None)) /\
  (getWallpaperUrl resolution (sync s) = fallbackImage ->
   run handle (_getWallpaperInternal resolution) s =
     (Resolved (mkWallpaper fallbackImage false true false None), s)).
Proof.
  intros Hcustom Hnone%resolveTier_none_run.
  apply String.eqb_neq in Hcustom.
  destruct s as [m e]. simpl in *.
  unfold _getWallpaperInternal. rewrite Hcustom, run_try_catch.
  simpl. rewrite run_bind, Hnone, run_bind.
  assert (Hstage : run handle (serveFromCache resolution (shouldForceRefresh resolution m) None)
                     (mkState m e) = (Resolved (inr None), mkState m e)).
  { unfold serveFromCache. by destruct (shouldForceRefresh resolution m). }
  rewrite Hstage. unfold downloadFresh. simpl.
  split.
  - intros Hurl [err Hfail]. apply String.eqb_neq in Hurl. rewrite Hurl.
    rewrite run_try_catch, run_bind.
    destruct (run handle (downloadAndCache (getWallpaperUrl resolution m) resolution)
                (mkState m e)) as [[d | err'] s1]; [done |].
    reflexivity.
  - intros Hurl. rewrite Hurl. reflexivity.
Qed.

(** C7 (as the code has it): with no cache tier available for a
    resolution other than ['custom'], the method returns the static local
    default, and the needs-update flag tells the two cases apart: it is set
    when a download was attempted and failed, and it is not set when no
    endpoint is configured, so that there was nothing to download from. *)
Theorem static_default_when_nothing_available (resolution : string) (s : state) :
  resolution <> "custom" ->
  fst (run handle (getSmartCache resolution) s) = Resolved None ->
  (getWallpaperUrl resolution (sync s) <> fallbackImage ->
   (exists e, fst (run handle (downloadAndCache (getWallpaperUrl resolution (sync s))
                                                resolution) s) = Rejected e) ->
   fst (run handle (_getWallpaperInternal resolution) s) =
     Resolved (mkWallpaper fallbackImage false true true None)) /\
  (getWallpaperUrl resolution (sync s) = fallbackImage ->
   run handle (_getWallpaperInternal resolution) s =
     (Resolved (mkWallpaper fallbackImage false true false None), s)).
Proof. apply internal_without_cache. Qed.

Lemma static_default_witness :
  fst (run handle (_getWallpaperInternal "1080p") (freshState 20759 offline)) =
    Resolved (mkWallpaper fallbackImage false true true None).
Proof.
  apply (proj1 (static_default_when_nothing_available "1080p" (freshState 20759 offline)
                  ltac:(discriminate) eq_refl)).
  - vm_compute. discriminate.
  - exists NetworkError. reflexivity.
Defined.

(** C7 fails as stated: with no endpoint configured no download candidate
    succeeds and no cache tier exists, and the static default comes back
    with [needsUpdate = false]. *)
Lemma unconfigured_default_is_not_flagged :
  let s := mkState (emptyMem 20759 "") (emptyExt offline) in
  fst (run handle (getSmartCache "1080p") s) = Resolved None /\
  getWallpaperUrl "1080p" (sync s) = fallbackImage /\
  exists w, fst (run handle (_getWallpaperInternal "1080p") s) = Resolved w /\
            url w = fallbackImage /\ needsUpdate w = false.
Proof.
  vm_compute. split; [reflexivity |]. split; [reflexivity |].
  eexists. split; [reflexivity |]. split; reflexivity.
Qed.

(* ===================================================================== *)
(** * Programs that cannot throw *)
(* ===================================================================== *)

Lemma safe_try_catch {A} (p : prog A) (c : error -> prog A) :
  (forall e, safe (c e)) -> safe (try_catch p c).
Proof.
  intros Hc. induction p as [a | e | X a k IHk h IHh]; simpl; auto.
Qed.

Lemma safe_internal resolution : safe (_getWallpaperInternal resolution).
Proof. unfold _getWallpaperInternal. by apply safe_try_catch. Qed.

Lemma safe_run {A} (H : handler) (p : prog A) :
  safe p -> forall s, exists a s', run H p s = (Resolved a, s').
Proof.
  induction p as [a | e | X a k IHk h IHh]; simpl; intros Hs s.
  - eauto.
  - done.
  - destruct Hs as [Hk Hh]. destruct (H X a s) as [[x | e] s']; eauto.
Qed.

Lemma safe_advance {A} (p : prog A) : forall m ws,
  safe p -> safe (advance p m ws).1.1.
Proof.
  induction p as [a | e | X a k IHk h IHh]; simpl; intros m ws Hs; try done.
  destruct (syncStep a m ws) as [[[x m'] ws'] |]; [| done].
  apply IHk, Hs.
Qed.

Lemma safe_complete {A} fault (p p1 : prog A) s s1 :
  complete fault p s = Some (p1, s1) -> safe p -> safe p1.
Proof.
  destruct p as [a | e | X a k h]; simpl; try done.
  intros Hc [Hk Hh]. destruct fault as [e |].
  - by injection Hc as <- _.
  - destruct (handle X a s) as [[x | e] s']; by injection Hc as <- _.
Qed.

Lemma complete_pending {A} fault (p p1 : prog A) s s1 :
  complete fault p s = Some (p1, s1) -> pending p.
Proof. by destruct p. Qed.

(* ===================================================================== *)
(** * Frame lemmas of the event loop *)
(* ===================================================================== *)

Lemma sameCalls_refl σ : sameCalls σ σ.
Proof. done. Qed.

Lemma sameCalls_trans σ1 σ2 σ3 : sameCalls σ1 σ2 -> sameCalls σ2 σ3 -> sameCalls σ1 σ3.
Proof. intros (? & ? & ?) (? & ? & ?). repeat split; congruence. Qed.

Lemma start_sameCalls label p σ : sameCalls σ (start label p σ).
Proof. unfold start. by destruct (advance p _ _) as [[? ?] ?]. Qed.

Lemma absorb_sameCalls σ : sameCalls σ (absorb σ).
Proof.
  unfold absorb.
  assert (forall rs σ0, sameCalls σ0
            (foldl (fun σ r => start (Some r) (updateWallpaperInBackground r) σ) σ0 rs)) as H.
  { induction rs as [| r rs IH]; intros σ0; simpl; [done |].
    eapply sameCalls_trans; [apply start_sameCalls | apply IH]. }
  eapply sameCalls_trans; [| apply H]. done.
Qed.

Lemma consistent_sameCalls σ σ' : sameCalls σ σ' -> consistent σ -> consistent σ'.
Proof.
  intros (Hl & Hp & Hc) [H1 H2 H3 H4 H5 H6 H7].
  split; rewrite ?Hl, ?Hp, ?Hc; done.
Qed.

Lemma loadingKeyOf_inj r r' : loadingKeyOf r = loadingKeyOf r' -> r = r'.
Proof. unfold loadingKeyOf. cbv [String.append]. by intros [= ->]. Qed.

(* ===================================================================== *)
(** * The deduplicator keeps its books *)
(* ===================================================================== *)

Section Preservation.

Variables σ σ' : system.
Hypothesis Hσ : consistent σ.

(** [getWallpaper] finds a promise in the map and awaits it. *)
Lemma consistent_join r pid :
  loadingPromises σ !! loadingKeyOf r = Some pid ->
  loadingPromises σ' = loadingPromises σ ->
  promises σ' = promises σ ->
  callers σ' = callers σ ++ [(r, Joined pid)] ->
  consistent σ'.
Proof.
  intros Hentry Hl Hp Hc. destruct Hσ as [H1 H2 H3 H4 H5 H6 H7].
  split; rewrite ?Hl, ?Hp, ?Hc.
  - done.
  - intros key pid0 Hk. destruct (H2 _ _ Hk) as (r0 & p0 & cid & ? & ? & Hcid).
    exists r0, p0, cid. eauto using lookup_app_l_Some.
  - done.
  - intros cid r0 pid0 [[_ Hc0] | [_ [=]]]%lookup_snoc_Some. eauto.
  - intros c1 c2 r1 r2 pid0 [[_ Hc1] | [_ [=]]]%lookup_snoc_Some
      [[_ Hc2] | [_ [=]]]%lookup_snoc_Some. eauto.
  - intros cid r0 c [[_ Hc0] | [_ [= <- <-]]]%lookup_snoc_Some; [eauto |].
    destruct (H2 _ _ Hentry) as (r0 & p0 & _ & ->%loadingKeyOf_inj & Hp0 & _). eauto.
  - intros cid r0 pid0 o [[_ Hc0] | [_ [=]]]%lookup_snoc_Some. eauto.
Qed.

(** [getWallpaper] finds no promise, starts a run and stores its promise. *)
Lemma consistent_fresh r p :
  loadingPromises σ !! loadingKeyOf r = None ->
  safe p ->
  loadingPromises σ' = <[loadingKeyOf r := length (promises σ)]> (loadingPromises σ) ->
  promises σ' = promises σ ++ [(r, p)] ->
  callers σ' = callers σ ++ [(r, Owner (length (promises σ)))] ->
  consistent σ'.
Proof.
  intros Hnone Hsafe Hl Hp Hc. destruct Hσ as [H1 H2 H3 H4 H5 H6 H7].
  split; rewrite ?Hl, ?Hp, ?Hc.
  - intros pid r0 p0 [[_ Hp0] | [_ [= <- <-]]]%lookup_snoc_Some; eauto.
  - intros key pid [[<- <-] | [Hne Hk]]%lookup_insert_Some.
    + exists r, p, (length (callers σ)). split; [done |].
      split; by apply list_lookup_middle.
    + destruct (H2 _ _ Hk) as (r0 & p0 & cid & ? & ? & ?).
      exists r0, p0, cid. eauto using lookup_app_l_Some.
  - intros pid r0 p0 [[_ Hp0] | [-> [= <- <-]]]%lookup_snoc_Some Hpend.
    + specialize (H3 _ _ _ Hp0 Hpend).
      rewrite lookup_insert_ne; [done |]. intros Heq. congruence.
    + apply lookup_insert_eq.
  - intros cid r0 pid [[_ Hc0] | [_ [= <- <-]]]%lookup_snoc_Some.
    + specialize (H4 _ _ _ Hc0).
      rewrite lookup_insert_ne; [done |]. intros Heq. congruence.
    + apply lookup_insert_eq.
  - intros c1 c2 r1 r2 pid Hc1%lookup_snoc_Some Hc2%lookup_snoc_Some.
    destruct Hc1 as [[_ Hc1] | [-> Heq1]], Hc2 as [[_ Hc2] | [-> Heq2]]; simplify_eq.
    + eauto.
    + destruct (H6 _ _ _ Hc1) as [p0 Hp0%lookup_lt_Some]. simpl in Hp0. lia.
    + destruct (H6 _ _ _ Hc2) as [p0 Hp0%lookup_lt_Some]. simpl in Hp0. lia.
    + done.
  - intros cid r0 c [[_ Hc0] | [_ [= <- <-]]]%lookup_snoc_Some.
    + destruct (H6 _ _ _ Hc0) as [p0 Hp0]. eauto using lookup_app_l_Some.
    + exists p. by apply list_lookup_middle.
  - intros cid r0 pid o [[_ Hc0] | [_ [=]]]%lookup_snoc_Some.
    destruct (H7 _ _ _ _ Hc0) as (p0 & ? & ?). eauto using lookup_app_l_Some.
Qed.

(** A run of [_getWallpaperInternal] moves on. *)
Lemma consistent_progress pid r p p' :
  promises σ !! pid = Some (r, p) ->
  pending p -> safe p' ->
  loadingPromises σ' = loadingPromises σ ->
  promises σ' = <[pid := (r, p')]> (promises σ) ->
  callers σ' = callers σ ->
  consistent σ'.
Proof.
  intros Hpid Hpend Hsafe Hl Hp Hc. destruct Hσ as [H1 H2 H3 H4 H5 H6 H7].
  pose proof (lookup_lt_Some _ _ _ Hpid) as Hlt.
  assert (Hsame : forall pid0 r0 p0, promises σ !! pid0 = Some (r0, p0) ->
            exists p1, <[pid := (r, p')]> (promises σ) !! pid0 = Some (r0, p1)).
  { intros pid0 r0 p0 Hp0. destruct (decide (pid = pid0)) as [<- | Hne].
    - rewrite list_lookup_insert_eq by done. exists p'. congruence.
    - rewrite list_lookup_insert_ne by done. eauto. }
  split; rewrite ?Hl, ?Hp, ?Hc.
  - intros pid0 r0 p0 [(_ & [= <- <-] & _) | [_ Hp0]]%list_lookup_insert_Some; eauto.
  - intros key pid0 Hk. destruct (H2 _ _ Hk) as (r0 & p0 & cid & ? & Hp0 & ?).
    destruct (Hsame _ _ _ Hp0) as [p1 Hp1]. eauto 10.
  - intros pid0 r0 p0 [(<- & [= <- <-] & _) | [_ Hp0]]%list_lookup_insert_Some Hp0'; eauto.
  - done.
  - done.
  - intros cid r0 c Hc0. destruct (H6 _ _ _ Hc0) as [p0 Hp0]. eauto.
  - intros cid r0 pid0 o Hc0. destruct (H7 _ _ _ _ Hc0) as (p0 & Hp0 & Ho).
    exists p0. split; [| done].
    rewrite list_lookup_insert_ne; [done |]. intros <-.
    unfold pending in Hpend. congruence.
Qed.

(** A call that had joined a promise returns. *)
Lemma consistent_joined_returns cid r pid o :
  callers σ !! cid = Some (r, Joined pid) ->
  (exists r0 p, promises σ !! pid = Some (r0, p) /\ outcomeOf p = Some o) ->
  loadingPromises σ' = loadingPromises σ ->
  promises σ' = promises σ ->
  callers σ' = <[cid := (r, Done pid o)]> (callers σ) ->
  consistent σ'.
Proof.
  intros Hcid (r0 & p & Hp0 & Ho) Hl Hp Hc. destruct Hσ as [H1 H2 H3 H4 H5 H6 H7].
  destruct (H6 _ _ _ Hcid) as [p1 Hp1]. simpl in Hp1.
  assert (r0 = r /\ p1 = p) as [-> ->] by (split; congruence).
  split; rewrite ?Hl, ?Hp, ?Hc.
  - done.
  - intros key pid0 Hk. destruct (H2 _ _ Hk) as (r1 & p2 & cid0 & ? & ? & Hcid0).
    exists r1, p2, cid0. split; [done |]. split; [done |].
    rewrite list_lookup_insert_ne; [done |]. intros <-. congruence.
  - done.
  - intros cid0 r1 pid0 [(_ & [=] & _) | [_ Hc0]]%list_lookup_insert_Some. eauto.
  - intros c1 c2 r1 r2 pid0 [(_ & [=] & _) | [_ Hc1]]%list_lookup_insert_Some
      [(_ & [=] & _) | [_ Hc2]]%list_lookup_insert_Some. eauto.
  - intros cid0 r1 c [(_ & [= <- <-] & _) | [_ Hc0]]%list_lookup_insert_Some; eauto.
  - intros cid0 r1 pid0 o0 [(_ & [= <- <- <-] & _) | [_ Hc0]]%list_lookup_insert_Some; eauto.
Qed.

(** The call that had stored the promise returns: its [finally] removes
    the map entry. *)
Lemma consistent_owner_returns cid r pid o :
  callers σ !! cid = Some (r, Owner pid) ->
  (exists r0 p, promises σ !! pid = Some (r0, p) /\ outcomeOf p = Some o) ->
  loadingPromises σ' = delete (loadingKeyOf r) (loadingPromises σ) ->
  promises σ' = promises σ ->
  callers σ' = <[cid := (r, Done pid o)]> (callers σ) ->
  consistent σ'.
Proof.
  intros Hcid (r0 & p & Hp0 & Ho) Hl Hp Hc. destruct Hσ as [H1 H2 H3 H4 H5 H6 H7].
  destruct (H6 _ _ _ Hcid) as [p1 Hp1]. simpl in Hp1.
  assert (r0 = r /\ p1 = p) as [-> ->] by (split; congruence).
  pose proof (H4 _ _ _ Hcid) as Hmine.
  split; rewrite ?Hl, ?Hp, ?Hc.
  - done.
  - intros key pid0 [Hne Hk]%lookup_delete_Some.
    destruct (H2 _ _ Hk) as (r1 & p2 & cid0 & -> & ? & Hcid0).
    exists r1, p2, cid0. split; [done |]. split; [done |].
    rewrite list_lookup_insert_ne; [done |]. intros <-. congruence.
  - intros pid0 r1 p2 Hp2 Hpend. specialize (H3 _ _ _ Hp2 Hpend).
    rewrite lookup_delete_ne; [done |]. intros Heq%loadingKeyOf_inj. subst r1.
    assert (pid0 = pid) as -> by congruence.
    unfold pending in Hpend. congruence.
  - intros cid0 r1 pid0 [(_ & [=] & _) | [Hne Hc0]]%list_lookup_insert_Some.
    specialize (H4 _ _ _ Hc0).
    rewrite lookup_delete_ne; [done |]. intros Heq%loadingKeyOf_inj. subst r1.
    assert (pid0 = pid) as -> by congruence.
    apply Hne. eauto.
  - intros c1 c2 r1 r2 pid0 [(_ & [=] & _) | [_ Hc1]]%list_lookup_insert_Some
      [(_ & [=] & _) | [_ Hc2]]%list_lookup_insert_Some. eauto.
  - intros cid0 r1 c [(_ & [= <- <-] & _) | [_ Hc0]]%list_lookup_insert_Some; eauto.
  - intros cid0 r1 pid0 o0 [(_ & [= <- <- <-] & _) | [_ Hc0]]%list_lookup_insert_Some; eauto.
Qed.

End Preservation.

Lemma boot_consistent s0 : consistent (boot s0).
Proof. split; simpl; intros; by simplify_eq. Qed.

Lemma step_consistent e σ σ' : step e σ = Some σ' -> consistent σ -> consistent σ'.
Proof.
  intros Hstep Hσ. destruct e; simpl in Hstep.
  - (* Call *)
    destruct (loadingPromises σ !! loadingKeyOf resolution) as [pid |] eqn:Hentry.
    + injection Hstep as <-. by eapply consistent_join.
    + destruct (advance (_getWallpaperInternal resolution) (sync (st σ)) (detached σ))
        as [[p m] ws] eqn:Hadv.
      injection Hstep as <-.
      eapply consistent_sameCalls; [apply absorb_sameCalls |].
      eapply (consistent_fresh σ _ Hσ resolution p); try done.
      pose proof (safe_advance (_getWallpaperInternal resolution) (sync (st σ)) (detached σ)
                    (safe_internal resolution)) as Hs.
      by rewrite Hadv in Hs.
  - (* PromiseStep *)
    destruct (promises σ !! pid) as [[r p] |] eqn:Hp; simpl in Hstep; [| done].
    destruct (complete fault p (st σ)) as [[p1 s1] |] eqn:Hc; simpl in Hstep; [| done].
    destruct (advance p1 (sync s1) (detached σ)) as [[p2 m] ws] eqn:Hadv.
    injection Hstep as <-.
    eapply consistent_sameCalls; [apply absorb_sameCalls |].
    eapply (consistent_progress σ _ Hσ pid r p p2); try done.
    + by eapply complete_pending.
    + pose proof (safe_advance p1 (sync s1) (detached σ)) as Hs.
      rewrite Hadv in Hs. apply Hs.
      eapply safe_complete; [exact Hc |]. by eapply (inv_safe σ Hσ).
  - (* TaskStep *)
    destruct (tasks σ !! tid) as [[l p] |] eqn:Hp; simpl in Hstep; [| done].
    destruct (complete fault p (st σ)) as [[p1 s1] |] eqn:Hc; simpl in Hstep; [| done].
    destruct (advance p1 (sync s1) (detached σ)) as [[p2 m] ws] eqn:Hadv.
    injection Hstep as <-.
    eapply consistent_sameCalls; [apply absorb_sameCalls |].
    by eapply consistent_sameCalls; [| exact Hσ].
  - (* Lands *)
    destruct (detached σ !! i) as [a |]; simpl in Hstep; [| done].
    injection Hstep as <-. by eapply consistent_sameCalls; [| exact Hσ].
  - (* Resume *)
    destruct (callers σ !! cid) as [[r c] |] eqn:Hcid; simpl in Hstep; [| done].
    destruct c as [pid | pid | pid o]; [| | done].
    + destruct (promises σ !! pid) as [[r0 p] |] eqn:Hp; simpl in Hstep; [| done].
      destruct (outcomeOf p) as [o |] eqn:Ho; simpl in Hstep; [| done].
      injection Hstep as <-. eapply (consistent_joined_returns σ _ Hσ cid r pid o); eauto.
    + destruct (promises σ !! pid) as [[r0 p] |] eqn:Hp; simpl in Hstep; [| done].
      destruct (outcomeOf p) as [o |] eqn:Ho; simpl in Hstep; [| done].
      injection Hstep as <-. eapply (consistent_owner_returns σ _ Hσ cid r pid o); eauto.
  - (* TimerFires *)
    destruct (fireTimer timerId (sync (st σ))) as [m |]; simpl in Hstep; [| done].
    injection Hstep as <-.
    eapply consistent_sameCalls; [apply absorb_sameCalls |].
    by eapply consistent_sameCalls; [| exact Hσ].
  - (* PageVisible *)
    injection Hstep as <-.
    eapply consistent_sameCalls; [apply absorb_sameCalls |].
    by eapply consistent_sameCalls; [| exact Hσ].
  - (* DailyCheck *)
    injection Hstep as <-.
    eapply consistent_sameCalls; [apply absorb_sameCalls |].
    eapply consistent_sameCalls; [apply start_sameCalls | exact Hσ].
  - (* Cleanup *)
    injection Hstep as <-.
    eapply consistent_sameCalls; [apply absorb_sameCalls |].
    eapply consistent_sameCalls; [apply start_sameCalls | exact Hσ].
  - (* Midnight *)
    injection Hstep as <-. by eapply consistent_sameCalls; [| exact Hσ].
  - (* NetworkChanges *)
    injection Hstep as <-. by eapply consistent_sameCalls; [| exact Hσ].
  - (* CustomChanges *)
    injection Hstep as <-. by eapply consistent_sameCalls; [| exact Hσ].
Qed.

Lemma reachable_consistent s0 σ : reachable s0 σ -> consistent σ.
Proof.
  induction 1 as [| σ e σ' _ IH Hstep]; [apply boot_consistent |].
  by eapply step_consistent.
Qed.

(* ===================================================================== *)
(** * Traces of the event loop *)
(* ===================================================================== *)

Lemma exec_reachable trace : forall s0 σ σ',
  reachable s0 σ -> exec trace σ = Some σ' -> reachable s0 σ'.
Proof.
  induction trace as [| e trace IH]; simpl; intros s0 σ σ' Hr He.
  - by injection He as <-.
  - destruct (step e σ) as [σ1 |] eqn:Hs; simpl in He; [| done].
    eapply IH; [| exact He]. by eapply reach_step.
Qed.


(* ===================================================================== *)
(** * Downloads in flight *)
(* ===================================================================== *)

Lemma filter_at_most_one {A} (f : A -> bool) (l : list A) :
  (forall i j x y, l !! i = Some x -> l !! j = Some y ->
                   f x = true -> f y = true -> i = j) ->
  length (List.filter f l) <= 1.
Proof.
  induction l as [| a l IH]; intros Huniq; simpl; [lia |].
  assert (Htail : length (List.filter f l) <= 1).
  { apply IH. intros i j x y Hi Hj Hx Hy.
    assert (S i = S j) by (eapply Huniq; eauto). lia. }
  destruct (f a) eqn:Ha; [| done]. simpl.
  destruct (List.filter f l) as [| b rest] eqn:Hf; [simpl; lia |].
  assert (b ∈ List.filter f l) as Hb by (rewrite Hf; set_solver).
  apply list_elem_of_In, filter_In in Hb as [Hb%list_elem_of_In Hfb].
  apply list_elem_of_lookup in Hb as [i Hi].
  assert (0 = S i) by (eapply (Huniq 0 (S i)); eauto). lia.
Qed.

(** C3 (as the code has it): the deduplicator covers the runs that
    [getWallpaper] starts and nothing else.  In every state of the event
    loop, at most one run of [_getWallpaperInternal] per resolution has not
    settled, so at most one download awaited by a [getWallpaper] call is
    outstanding per resolution.  Background updates do not go through the
    map and are not counted here. *)
Theorem one_foreground_run_per_resolution (s0 : state) (σ : system) :
  reachable s0 σ ->
  (forall pid1 pid2 r p1 p2,
     promises σ !! pid1 = Some (r, p1) -> promises σ !! pid2 = Some (r, p2) ->
     pending p1 -> pending p2 -> pid1 = pid2) /\
  (forall r, foregroundDownloads r σ <= 1).
Proof.
  intros Hσ%reachable_consistent.
  assert (Huniq : forall pid1 pid2 r p1 p2,
            promises σ !! pid1 = Some (r, p1) -> promises σ !! pid2 = Some (r, p2) ->
            pending p1 -> pending p2 -> pid1 = pid2).
  { intros pid1 pid2 r p1 p2 H1 H2 Hp1 Hp2.
    pose proof (inv_pending σ Hσ _ _ _ H1 Hp1).
    pose proof (inv_pending σ Hσ _ _ _ H2 Hp2). congruence. }
  split; [done |].
  intros r. unfold foregroundDownloads. apply filter_at_most_one.
  intros i j [r1 p1] [r2 p2] Hi Hj [Hr1 Hf1]%andb_prop [Hr2 Hf2]%andb_prop.
  apply String.eqb_eq in Hr1, Hr2. subst.
  eapply Huniq; eauto; by destruct p1, p2.
Qed.

Lemma after_reachable trace s0 : runs trace s0 = true -> reachable s0 (after trace s0).
Proof.
  unfold runs, after. destruct (exec trace (boot s0)) as [σ |] eqn:He; [| done].
  intros _. simpl. eapply exec_reachable; [apply reach_boot | exact He].
Qed.

Lemma one_foreground_run_witness :
  foregroundDownloads "1080p"
    (after [Call "1080p"; Call "1080p"; Call "1080p"] (freshState 20759 (online 900000))) <= 1.
Proof.
  eapply (one_foreground_run_per_resolution (freshState 20759 (online 900000))).
  apply after_reachable. vm_compute. reflexivity.
Defined.

(** C3 fails as stated: the page becomes visible twice before the first
    response arrives, and two downloads for the same resolution are
    outstanding. *)
Lemma two_background_downloads_in_flight :
  let s0 := freshState 20759 (online 900000) in
  let σ := after [PageVisible; PageVisible] s0 in
  reachable s0 σ /\ downloadsInFlight "1080p" σ = 2.
Proof.
  split.
  - apply after_reachable. vm_compute. reflexivity.
  - vm_compute. reflexivity.
Qed.

(** The same through [getWallpaper] alone: two calls, one after the other,
    each served from yesterday's entry, each leaving a background download
    behind. *)
Example two_calls_two_background_downloads :
  let served := [PromiseStep 0 None; PromiseStep 0 None; PromiseStep 0 None;
                 PromiseStep 0 None; PromiseStep 0 None; Resume 0] in
  let again := [PromiseStep 1 None; PromiseStep 1 None; PromiseStep 1 None;
                PromiseStep 1 None; PromiseStep 1 None; Resume 1] in
  let s0 := cachedState 20759 20758 "1080p" (online 900000) in
  let σ := after (Call "1080p" :: served ++ Call "1080p" :: again) s0 in
  reachable s0 σ /\
  callers σ =
    [("1080p", Done 0 (Resolved (mkWallpaper "blob:0" true false true
                                   (Some "https://www.bing.com/th?id=OHR.Old"))));
     ("1080p", Done 1 (Resolved (mkWallpaper "blob:1" true false true
                                   (Some "https://www.bing.com/th?id=OHR.Old"))))] /\
  loadingPromises σ = ∅ /\
  downloadsInFlight "1080p" σ = 2.
Proof.
  split; [apply after_reachable; vm_compute; reflexivity |].
  split; [vm_compute; reflexivity |].
  split; vm_compute; reflexivity.
Qed.

(* ===================================================================== *)
(** * Single flight *)
(* ===================================================================== *)

(** Only the [finally] of the call that stored an entry takes it out of the
    map: every other event leaves the entry as it is. *)
Lemma entry_stays σ e σ' key pid :
  consistent σ -> loadingPromises σ !! key = Some pid -> step e σ = Some σ' ->
  loadingPromises σ' !! key = Some pid \/
  exists cid r, e = Resume cid /\ callers σ !! cid = Some (r, Owner pid) /\ key = loadingKeyOf r.
Proof.
  intros Hσ Hentry Hstep.
  destruct e as [r | pid' fault | tid fault | i fault | cid | timerId | | | | | net | custom];
    simpl in Hstep.
  - left. destruct (loadingPromises σ !! loadingKeyOf r) as [pid' |] eqn:Hr.
    + by injection Hstep as <-.
    + destruct (advance _ _ _) as [[p m] ws]. injection Hstep as <-.
      destruct (absorb_sameCalls
                  (mkSystem (mkState m (async (st σ))) ws
                     (<[loadingKeyOf r := length (promises σ)]> (loadingPromises σ))
                     (promises σ ++ [(r, p)]) (tasks σ)
                     (callers σ ++ [(r, Owner (length (promises σ)))])))
        as (-> & _).
      simpl. rewrite lookup_insert_ne; [done | congruence].
  - left. destruct (promises σ !! pid') as [[r p] |]; [| done]. simpl in Hstep.
    destruct (complete fault p (st σ)) as [[p1 s1] |]; [| done]. simpl in Hstep.
    destruct (advance _ _ _) as [[p2 m] ws]. injection Hstep as <-.
    by destruct (absorb_sameCalls
                (mkSystem (mkState m (async s1)) ws (loadingPromises σ)
                   (<[pid' := (r, p2)]> (promises σ)) (tasks σ) (callers σ))) as (-> & _).
  - left. destruct (tasks σ !! tid) as [[l p] |]; [| done]. simpl in Hstep.
    destruct (complete fault p (st σ)) as [[p1 s1] |]; [| done]. simpl in Hstep.
    destruct (advance _ _ _) as [[p2 m] ws]. injection Hstep as <-.
    by destruct (absorb_sameCalls
                (mkSystem (mkState m (async s1)) ws (loadingPromises σ)
                   (promises σ) (<[tid := (l, p2)]> (tasks σ)) (callers σ))) as (-> & _).
  - left. destruct (detached σ !! i); [| done]. by injection Hstep as <-.
  - destruct (callers σ !! cid) as [[r c] |] eqn:Hc; [| done]. simpl in Hstep.
    destruct c as [pid' | pid' | pid' o]; [| | done].
    + destruct (promises σ !! pid') as [[r' p] |]; [| done]. simpl in Hstep.
      destruct (outcomeOf p); [| done]. injection Hstep as <-. by left.
    + destruct (promises σ !! pid') as [[r' p] |]; [| done]. simpl in Hstep.
      destruct (outcomeOf p); [| done]. injection Hstep as <-. simpl.
      destruct (decide (key = loadingKeyOf r)) as [-> | Hne].
      * right. exists cid, r. rewrite (inv_owner σ Hσ _ _ _ Hc) in Hentry.
        injection Hentry as ->. done.
      * left. by rewrite lookup_delete_ne.
  - left. destruct (fireTimer _ _) as [m |]; [| done]. injection Hstep as <-.
    by destruct (absorb_sameCalls (with_mem m σ)) as (-> & _).
  - left. injection Hstep as <-.
    by destruct (absorb_sameCalls (with_mem (onPageVisible (sync (st σ))) σ)) as (-> & _).
  - left. injection Hstep as <-.
    destruct (absorb_sameCalls (start None performDailyCheck σ)) as (-> & _).
    by destruct (start_sameCalls None performDailyCheck σ) as (-> & _).
  - left. injection Hstep as <-.
    destruct (absorb_sameCalls (start None cleanupExpiredCache σ)) as (-> & _).
    by destruct (start_sameCalls None cleanupExpiredCache σ) as (-> & _).
  - left. by injection Hstep as <-.
  - left. by injection Hstep as <-.
  - left. by injection Hstep as <-.
Qed.

(** C8 (as the code has it): in every state of the event loop, (1) while
    the map holds an entry for a resolution, a further [getWallpaper] call
    for it starts nothing: it awaits the promise of the entry; (2) a run
    that has not settled is in the map, so calls made during the flight do
    join it; (3) every call that has returned got the outcome of the
    promise it awaited, so all callers of one promise got the same result;
    (4) every entry belongs to a call whose [finally] is still to run, and
    once the promise has settled, with a value or with an exception, that
    continuation is enabled and removes the entry; (5) once the entry is
    gone, the next call starts a fresh run of [_getWallpaperInternal] and
    stores its promise; (6) settlement itself removes nothing: the entry
    stays as it is until the call that stored it resumes, whatever else
    happens first, so by (1) a call made after the promise has settled and
    before that [finally] joins the settled promise. *)
Theorem getWallpaper_single_flight (s0 : state) (σ : system) :
  reachable s0 σ ->
  (forall r pid, loadingPromises σ !! loadingKeyOf r = Some pid ->
     (exists p, promises σ !! pid = Some (r, p)) /\
     step (Call r) σ =
       Some (mkSystem (st σ) (detached σ) (loadingPromises σ) (promises σ) (tasks σ)
                      (callers σ ++ [(r, Joined pid)]))) /\
  (forall pid r p, promises σ !! pid = Some (r, p) -> pending p ->
     loadingPromises σ !! loadingKeyOf r = Some pid) /\
  (forall cid r pid o, callers σ !! cid = Some (r, Done pid o) ->
     (exists p, promises σ !! pid = Some (r, p) /\ outcomeOf p = Some o) /\
     (forall cid' r' o', callers σ !! cid' = Some (r', Done pid o') -> o' = o)) /\
  (forall key pid, loadingPromises σ !! key = Some pid ->
     exists r p cid,
       key = loadingKeyOf r /\ promises σ !! pid = Some (r, p) /\
       callers σ !! cid = Some (r, Owner pid) /\
       forall o, outcomeOf p = Some o ->
         exists σ', step (Resume cid) σ = Some σ' /\
                    loadingPromises σ' !! key = None /\
                    callers σ' !! cid = Some (r, Done pid o)) /\
  (forall r, loadingPromises σ !! loadingKeyOf r = None ->
     exists σ',
       step (Call r) σ = Some σ' /\
       loadingPromises σ' !! loadingKeyOf r = Some (length (promises σ)) /\
       promises σ' =
         promises σ ++ [(r, (advance (_getWallpaperInternal r) (sync (st σ)) (detached σ)).1.1)]) /\
  (forall key pid e σ', loadingPromises σ !! key = Some pid -> step e σ = Some σ' ->
     loadingPromises σ' !! key = Some pid \/
     exists cid r, e = Resume cid /\ callers σ !! cid = Some (r, Owner pid) /\
                   key = loadingKeyOf r).
Proof.
  intros Hσ%reachable_consistent.
  split; [| split; [| split; [| split; [| split]]]].
  - intros r pid Hentry. split.
    + destruct (inv_entry σ Hσ _ _ Hentry) as (r' & p & _ & ->%loadingKeyOf_inj & Hp & _).
      eauto.
    + simpl. by rewrite Hentry.
  - apply (inv_pending σ Hσ).
  - intros cid r pid o Hc. destruct (inv_done σ Hσ _ _ _ _ Hc) as (p & Hp & Ho).
    split; [eauto |].
    intros cid' r' o' Hc'. destruct (inv_done σ Hσ _ _ _ _ Hc') as (p' & Hp' & Ho').
    congruence.
  - intros key pid Hentry.
    destruct (inv_entry σ Hσ _ _ Hentry) as (r & p & cid & -> & Hp & Hc).
    exists r, p, cid. split; [done |]. split; [done |]. split; [done |].
    intros o Ho. simpl. rewrite Hc. simpl. rewrite Hp. simpl. rewrite Ho. simpl.
    eexists. split; [reflexivity |]. simpl. split; [apply lookup_delete_eq |].
    apply list_lookup_insert_eq. by eapply lookup_lt_Some.
  - intros r Hnone. simpl. rewrite Hnone.
    destruct (advance (_getWallpaperInternal r) (sync (st σ)) (detached σ))
      as [[p m] ws] eqn:Hadv.
    eexists. split; [reflexivity |].
    destruct (absorb_sameCalls
                (mkSystem (mkState m (async (st σ))) ws
                   (<[loadingKeyOf r := length (promises σ)]> (loadingPromises σ))
                   (promises σ ++ [(r, p)]) (tasks σ)
                   (callers σ ++ [(r, Owner (length (promises σ)))])))
      as (-> & -> & _).
    simpl. split; [apply lookup_insert_eq | done].
  - intros key pid e σ' Hentry Hstep. by eapply entry_stays.
Qed.

Lemma getWallpaper_single_flight_witness :
  let σ := after [Call "1080p"] (freshState 20759 (online 900000)) in
  (exists p, promises σ !! 0 = Some ("1080p", p)) /\
  step (Call "1080p") σ =
    Some (mkSystem (st σ) (detached σ) (loadingPromises σ) (promises σ) (tasks σ)
                   (callers σ ++ [("1080p", Joined 0)])).
Proof.
  assert (Hrun : runs [Call "1080p"] (freshState 20759 (online 900000)) = true)
    by (vm_compute; reflexivity).
  apply (proj1 (getWallpaper_single_flight (freshState 20759 (online 900000))
                  (after [Call "1080p"] (freshState 20759 (online 900000)))
                  (after_reachable _ _ Hrun)) "1080p" 0).
  vm_compute. reflexivity.
Defined.

(** The entry of a settled promise is still in the map until the call that
    stored it resumes.  A call made in between (a job queued ahead of that
    continuation) finds the entry, awaits the settled promise and returns
    its result: no second run is started. *)
Lemma settled_entry_is_joined :
  let s0 := freshState 20759 offline in
  let σ := after [Call "custom"; PromiseStep 0 None] s0 in
  let σ' := after [Call "custom"; PromiseStep 0 None; Call "custom"; Resume 0; Resume 1] s0 in
  reachable s0 σ /\ reachable s0 σ' /\
  (exists w, promises σ !! 0 = Some ("custom", Ret w)) /\
  loadingPromises σ !! loadingKeyOf "custom" = Some 0 /\
  length (promises σ') = 1 /\
  callers σ' !! 1 =
    Some ("custom", Done 0 (Resolved (mkWallpaper fallbackImage false true false None))).
Proof.
  cbv zeta.
  split; [apply after_reachable; vm_compute; reflexivity |].
  split; [apply after_reachable; vm_compute; reflexivity |].
  split; [eexists; vm_compute; reflexivity |].
  split; [vm_compute; reflexivity |].
  split; vm_compute; reflexivity.
Qed.

(** Three calls during one flight, then the response chain completes:
    one run only, and all three callers get its result. *)
Example three_callers_one_run :
  let s0 := freshState 20759 (online 900000) in
  let σ := after ([Call "720p"; Call "720p"; Call "720p"] ++
                  repeat (PromiseStep 0 None) 8 ++ [Resume 2; Resume 0; Resume 1]) s0 in
  reachable s0 σ /\
  length (promises σ) = 1 /\
  loadingPromises σ = ∅ /\
  map snd (callers σ) =
    repeat (Done 0 (Resolved (mkWallpaper "blob:0" false true false
                                (Some "https://www.bing.com/th?id=OHR.Sample")))) 3.
Proof.
  split; [apply after_reachable; vm_compute; reflexivity |].
  split; [vm_compute; reflexivity |].
  split; vm_compute; reflexivity.
Qed.

(* ===================================================================== *)
(** * The success marker and the cache entry *)
(* ===================================================================== *)

#[local] Transparent downloadAndCache.

(** What a download leaves behind. *)
Lemma downloadAndCache_effect u r s :
  let result := run handle (downloadAndCache u r) s in
  sync (snd result) = sync s /\
  match fst result with
  | Resolved d =>
      if isFallback d then idb (async (snd result)) = idb (async s)
      else exists b, (0 < size b)%N /\ (r = "4k" -> (min4kSize <= size b)%N) /\
             idb (async (snd result)) =
               <[metadataKeyOf (getTodayCacheKey r (sync s)) := metadataBlob (dl_originalUrl d)]>
                 (<[getTodayCacheKey r (sync s) := b]> (idb (async s)))
  | Rejected _ => idb (async (snd result)) = idb (async s)
  end.
Proof.
  destruct s as [m e]. cbv zeta. unfold downloadAndCache. rewrite run_try_catch. simpl.
  destruct (network e (proxyUrlOf u)) as [resp |]; simpl; [| done].
  destruct (Str.includes _ "application/json"); simpl; [done |].
  destruct (N.eqb_spec (size (respBody resp)) 0) as [Hz | Hnz]; simpl; [done |].
  set (source := if _ : bool then _ else _).
  assert (Hsource : exists w, run handle source (mkState m e) = (Resolved w, mkState m e)).
  { subst source. destruct (_ || _); simpl; [eauto |].
    rewrite run_bind, run_getOriginalUrl. simpl.
    destruct (Str.truthy _); simpl; eauto. }
  destruct Hsource as [w Hw]. rewrite run_bind, Hw.
  destruct ((r =? "4k")%string && (size (respBody resp) <? min4kSize)%N) eqn:Hsmall; simpl.
  - done.
  - split; [done |]. exists (respBody resp). split; [lia |]. split; [| done].
    intros ->. simpl in Hsmall. apply N.ltb_ge in Hsmall. done.
Qed.

#[local] Opaque downloadAndCache.

Lemma snd_run_try_catch_ret {A} (p : prog A) (a : A) s :
  snd (run handle (try_catch p (fun _ => Ret a)) s) = snd (run handle p s).
Proof. rewrite run_try_catch. by destruct (run handle p s) as [[? | ?] ?]. Qed.

Lemma scheduleRetry_localStorage r m :
  localStorage (scheduleRetry r m) = localStorage m /\ today (scheduleRetry r m) = today m.
Proof. unfold scheduleRetry. by repeat case_match. Qed.

Lemma markUpdateSuccess_localStorage r m :
  localStorage (markUpdateSuccess r m) = <[successKeyOf r := todayString m]> (localStorage m) /\
  today (markUpdateSuccess r m) = today m.
Proof. unfold markUpdateSuccess. simpl. by case_match. Qed.

#[local] Opaque markUpdateSuccess scheduleRetry.

Lemma length_append (a b : string) :
  String.length (a +:+ b) = String.length a + String.length b.
Proof. induction a as [| c a IH]; [done |]. rewrite KeyFacts.app_cons. simpl. by rewrite IH. Qed.

Lemma metadataKeyOf_ne key : metadataKeyOf key <> key.
Proof.
  unfold metadataKeyOf. intros Heq%(f_equal String.length).
  rewrite length_append in Heq. simpl in Heq. lia.
Qed.

Lemma background_marker r s :
  let s' := snd (run handle (updateWallpaperInBackground r) s) in
  markerOf r s' <> markerOf r s ->
  markerOf r s' = Some (todayString (sync s)) /\ hasEntry r s s'.
Proof.
  cbv zeta. unfold updateWallpaperInBackground, markerOf.
  rewrite run_try_catch, run_bind.
  destruct s as [m e]. simpl.
  destruct (getWallpaperUrl r m =? fallbackImage)%string; simpl; [done |].
  rewrite run_bind.
  pose proof (downloadAndCache_effect (getWallpaperUrl r m) r (mkState m e)) as [Hsync Heff].
  destruct (run handle (downloadAndCache (getWallpaperUrl r m) r) (mkState m e))
    as [[d | err] [m1 e1]]; simpl in *; subst m1.
  - destruct (isFallback d) eqn:Hfb; simpl.
    + rewrite andb_false_r. simpl.
      by destruct (scheduleRetry_localStorage r m) as [-> _].
    + destruct (Str.nonEmpty (blobUrl d)); simpl; [| done].
      destruct (markUpdateSuccess_localStorage r m) as [-> _].
      rewrite lookup_insert_eq. intros _. split; [done |].
      destruct Heff as (b & Hb & H4k & Hidb).
      exists b. split; [| done]. simpl. rewrite Hidb.
      rewrite lookup_insert_ne, lookup_insert_eq; [done |]. apply metadataKeyOf_ne.
  - by destruct (scheduleRetry_localStorage r m) as [-> _].
Qed.

Lemma length_dateString n : String.length (getLocalDateString n) = 10.
Proof. reflexivity. Qed.

Lemma length_cacheKey r d :
  String.length (cacheKey r d) = 20 + String.length r + 1 + String.length d.
Proof. unfold cacheKey. rewrite !length_append. simpl. lia. Qed.

Example yesterday_keys :
  getYesterdayCacheKey "4k" (emptyMem 20759 "") = "wallpaper-optimized:4k-2026-11-01" /\
  getYesterdayCacheKey "4k" (emptyMem 0 "") = "wallpaper-optimized:4k-1969-12-31".
Proof. split; vm_compute; reflexivity. Qed.

Lemma yesterday_is_not_today r m :
  (0 < today m)%N -> (year (civil (today m)) < 10000)%N ->
  getYesterdayCacheKey r m <> getTodayCacheKey r m /\
  metadataKeyOf (getYesterdayCacheKey r m) <> getTodayCacheKey r m.
Proof.
  intros Hpos Hy. rewrite yesterdayKey_pos by done.
  unfold getTodayCacheKey, todayString. split.
  - intros Heq.
    assert (String.compare (cacheKey r (getLocalDateString (today m - 1)))
                           (cacheKey r (getLocalDateString (today m))) = Eq) as Hc
      by (rewrite Heq; apply StrFacts.compare_refl).
    unfold cacheKey in Hc. rewrite !StrFacts.compare_app in Hc.
    rewrite getLocalDateString_lt in Hc; [done | lia | done].
  - unfold metadataKeyOf. intros Heq%(f_equal String.length).
    rewrite length_append, !length_cacheKey, !length_dateString in Heq. simpl in Heq. lia.
Qed.

Lemma getSmartCache_quiet r s :
  exists c s1, run handle (getSmartCache r) s = (Resolved c, s1) /\
               sync s1 = sync s /\ idb (async s1) = idb (async s).
Proof.
  rewrite run_getSmartCache. destruct (resolveTier r s) as [[[key b] t] |]; eauto.
Qed.

Lemma serveFromCache_quiet r sr c s :
  exists stage s2, run handle (serveFromCache r sr c) s = (Resolved stage, s2) /\
    quiet s s2.
Proof.
  destruct s as [m e]. unfold serveFromCache, quiet, markerOf.
  destruct sr, c as [c |]; simpl;
    repeat (match goal with |- context [if ?b then _ else _] => destruct b end; simpl);
    do 2 eexists; (split; [reflexivity |]); done.
Qed.

Lemma downloadFresh_marker r sr fc s :
  (0 < today (sync s))%N -> (year (civil (today (sync s))) < 10000)%N ->
  let s' := snd (run handle (downloadFresh r sr fc) s) in
  markerOf r s' <> markerOf r s ->
  markerOf r s' = Some (todayString (sync s)) /\ hasEntry r s s'.
Proof.
  intros Hpos Hy. cbv zeta. unfold downloadFresh, markerOf.
  destruct s as [m e]. simpl in Hpos, Hy. simpl.
  destruct (getWallpaperUrl r m =? fallbackImage)%string; simpl.
  { by destruct fc. }
  rewrite run_try_catch, run_bind.
  pose proof (downloadAndCache_effect (getWallpaperUrl r m) r (mkState m e)) as [Hsync Heff].
  destruct (run handle (downloadAndCache (getWallpaperUrl r m) r) (mkState m e))
    as [[d | err] [m1 e1]]; simpl in *; subst m1.
  - destruct (isFallback d) eqn:Hfb; simpl.
    + by destruct (scheduleRetry_localStorage r m) as [-> _].
    + destruct Heff as (b & Hb & H4k & Hidb).
      destruct (markUpdateSuccess_localStorage r m) as [Hls Htoday].
      destruct (yesterday_is_not_today r m Hpos Hy) as [Hy1 Hy2].
      assert (getYesterdayCacheKey r (markUpdateSuccess r m) = getYesterdayCacheKey r m) as Hyk
        by (unfold getYesterdayCacheKey; by rewrite Htoday).
      destruct sr; simpl; rewrite ?Hyk, Hls, lookup_insert_eq; intros _;
        (split; [done |]); exists b; (split; [| done]); simpl;
        rewrite ?lookup_delete_ne by done;
        rewrite Hidb, lookup_insert_ne, lookup_insert_eq; done || apply metadataKeyOf_ne.
  - destruct fc; simpl; [| done].
    by destruct (scheduleRetry_localStorage r m) as [-> _].
Qed.

Lemma foreground_marker r s :
  (0 < today (sync s))%N -> (year (civil (today (sync s))) < 10000)%N ->
  let s' := snd (run handle (_getWallpaperInternal r) s) in
  markerOf r s' <> markerOf r s ->
  markerOf r s' = Some (todayString (sync s)) /\ hasEntry r s s'.
Proof.
  intros Hpos Hy. cbv zeta. unfold _getWallpaperInternal.
  rewrite snd_run_try_catch_ret.
  destruct (r =? "custom")%string.
  { simpl. by destruct (Str.truthy _). }
  rewrite run_bind.
  assert (run handle (read (shouldForceRefresh r)) s =
          (Resolved (shouldForceRefresh r (sync s)), s)) as -> by (by destruct s).
  rewrite run_bind.
  destruct (getSmartCache_quiet r s) as (c & s1 & -> & Hs1 & Hidb1).
  rewrite run_bind.
  destruct (serveFromCache_quiet r (shouldForceRefresh r (sync s)) c s1)
    as (stage & s2 & -> & [Ht2 Hl2]).
  assert (Hm : markerOf r s2 = markerOf r s).
  { unfold markerOf. by rewrite Hl2, Hs1. }
  destruct stage as [w | fc]; simpl.
  - by rewrite Hm.
  - rewrite <- Hm. rewrite Hs1 in Ht2.
    assert (todayString (sync s) = todayString (sync s2)) as ->
      by (unfold todayString; by rewrite Ht2).
    assert (forall s', hasEntry r s2 s' -> hasEntry r s s') as Hentry.
    { unfold hasEntry, getTodayCacheKey, todayString. by rewrite Ht2. }
    intros Hne.
    destruct (downloadFresh_marker r (shouldForceRefresh r (sync s)) fc s2) as [? ?];
      rewrite ?Ht2; auto.
Qed.

(** C4 (as the code has it): the marker follows a stored entry only at
    the moment it is set.  Whenever a background update or a
    [getWallpaper] run changes the success marker of a resolution, the new
    marker is today's date, the download was not a fallback, and, the
    store performing the write it was handed, a non-empty entry (of at
    least 500 KB for 4k) is stored under today's key of that resolution
    when the operation ends.  Nothing keeps the entry there afterwards. *)
Theorem success_marker_set_with_entry (r : string) (s : state) :
  (0 < today (sync s))%N ->
  (year (civil (today (sync s))) < 10000)%N ->
  (let s' := snd (run handle (updateWallpaperInBackground r) s) in
   markerOf r s' <> markerOf r s ->
   markerOf r s' = Some (todayString (sync s)) /\ hasEntry r s s') /\
  (let s' := snd (run handle (_getWallpaperInternal r) s) in
   markerOf r s' <> markerOf r s ->
   markerOf r s' = Some (todayString (sync s)) /\ hasEntry r s s').
Proof.
  intros Hpos Hy. split; [apply background_marker | by apply foreground_marker].
Qed.

Lemma success_marker_witness :
  let s := freshState 20759 (online 900000) in
  let s' := snd (run handle (updateWallpaperInBackground "1080p") s) in
  markerOf "1080p" s' = Some "2026-11-02" /\ hasEntry "1080p" s s'.
Proof.
  apply (proj1 (success_marker_set_with_entry "1080p" (freshState 20759 (online 900000))
                  eq_refl eq_refl)).
  vm_compute. discriminate.
Defined.

(** C4 fails as stated: a background update downloads a genuine wallpaper
    and marks success, the write of the payload is rejected by the store
    (which is only logged), and the marker stands without an entry. *)
Lemma marker_without_entry :
  let s0 := freshState 20759 (online 900000) in
  let σ := after [PageVisible; TaskStep 0 None; TaskStep 0 None; TaskStep 0 None;
                  Lands 0 (Some StorageError); Lands 0 None] s0 in
  reachable s0 σ /\
  detached σ = [] /\
  localStorage (sync (st σ)) !! successKeyOf "1080p" = Some "2026-11-02" /\
  idb (async (st σ)) !! cacheKey "1080p" "2026-11-02" = None.
Proof.
  split; [apply after_reachable; vm_compute; reflexivity |].
  split; [vm_compute; reflexivity |].
  split; vm_compute; reflexivity.
Qed.

(** The same with a store that never fails: four days later the cleanup
    removes the entry, and the marker still holds its date. *)
Example marker_outlives_entry :
  let s0 := freshState 20759 (online 900000) in
  let σ := after ([PageVisible; TaskStep 0 None; TaskStep 0 None; TaskStep 0 None;
                   Lands 0 None; Lands 0 None] ++
                  [Midnight; Midnight; Midnight; Midnight; Cleanup;
                   TaskStep 4 None; TaskStep 4 None; TaskStep 4 None]) s0 in
  reachable s0 σ /\
  localStorage (sync (st σ)) !! successKeyOf "1080p" = Some "2026-11-02" /\
  idb (async (st σ)) = ∅.
Proof.
  split; [apply after_reachable; vm_compute; reflexivity |].
  split; vm_compute; reflexivity.
Qed.

(* ===================================================================== *)
(** * No empty payload reaches the store *)
(* ===================================================================== *)

Lemma always_bind {A B} Q (p : prog A) (f : A -> prog B) :
  always Q p -> (forall a, always Q (f a)) -> always Q (bind p f).
Proof.
  intros Hp Hf. induction p as [a | e | X a k IHk h IHh]; simpl in *; [done | done |].
  destruct Hp as (Ha & Hk & Hh). auto.
Qed.

Lemma always_try_catch {A} Q (p : prog A) (c : error -> prog A) :
  always Q p -> (forall e, always Q (c e)) -> always Q (try_catch p c).
Proof.
  intros Hp Hc. induction p as [a | e | X a k IHk h IHh]; simpl in *; [done | done |].
  destruct Hp as (Ha & Hk & Hh). auto.
Qed.

Ltac always_step :=
  first
    [ apply always_try_catch
    | apply always_bind
    | match goal with
      | |- always _ (if ?b then _ else _) => destruct b eqn:?
      | |- always _ (match ?x with _ => _ end) => destruct x eqn:?
      | |- forall _, _ => intro
      | |- _ /\ _ => split
      end ].

#[local] Transparent getOriginalUrl.

Lemma getOriginalUrl_writes key : always storesNonEmpty (getOriginalUrl key).
Proof. unfold getOriginalUrl. repeat (always_step; simpl; try done). Qed.

#[local] Opaque getOriginalUrl.

#[local] Transparent serveEntry.

Lemma serveEntry_writes key b t : always storesNonEmpty (serveEntry key b t).
Proof.
  unfold serveEntry. apply always_bind; [apply getOriginalUrl_writes |].
  intros. simpl. done.
Qed.

#[local] Opaque serveEntry.

#[local] Transparent getSmartCache.

Lemma getSmartCache_writes r : always storesNonEmpty (getSmartCache r).
Proof.
  unfold getSmartCache.
  repeat (first [apply serveEntry_writes | always_step]; simpl; try done).
Qed.

#[local] Opaque getSmartCache.

#[local] Transparent downloadAndCache.

Lemma downloadAndCache_writes u r : always storesNonEmpty (downloadAndCache u r).
Proof.
  unfold downloadAndCache.
  apply always_try_catch; [| done]. simpl. split; [done |]. split; [| done].
  intros headers. split; [done |]. split; [| done].
  intros response. destruct (Str.includes _ _); simpl; [done |].
  split; [done |]. split; [| done].
  intros blob. destruct (N.eqb_spec (size blob) 0) as [Hz | Hnz]; simpl; [done |].
  apply always_bind.
  - destruct (_ || _); simpl; [done |]. split; [done |]. split; [| done].
    intros key. apply always_bind; [apply getOriginalUrl_writes |].
    intros existing. by destruct (Str.truthy existing).
  - intros source. destruct (_ && _); simpl; [done |].
    split; [done |]. split; [| done]. intros blobUrl.
    split; [done |]. split; [| done]. intros key.
    split; [lia |]. split; [| done]. intros _.
    split; [| done]. unfold metadataBlob. simpl. lia.
Qed.

#[local] Opaque downloadAndCache.

Lemma clearTodayCache_writes r : always storesNonEmpty (clearTodayCache r).
Proof. unfold clearTodayCache, clearCacheForDate. simpl. done. Qed.

Lemma internal_writes r : always storesNonEmpty (_getWallpaperInternal r).
Proof.
  unfold _getWallpaperInternal. apply always_try_catch; [| done].
  destruct (r =? "custom")%string.
  { simpl. split; [done |]. split; [| done]. intros c. by destruct (Str.truthy c). }
  apply always_bind; [done |]. intros shouldRefresh.
  apply always_bind; [apply getSmartCache_writes |]. intros cached.
  apply always_bind.
  { unfold serveFromCache.
    repeat (first [apply clearTodayCache_writes | always_step]; simpl; try done). }
  intros [w | fc]; [done |].
  unfold downloadFresh. apply always_bind; [done |]. intros wallpaperUrl.
  destruct (wallpaperUrl =? fallbackImage)%string; [by destruct fc |].
  apply always_try_catch.
  - apply always_bind; [apply downloadAndCache_writes |]. intros d.
    apply always_bind; [| done].
    destruct (negb (isFallback d)); simpl; [| done].
    split; [done |]. split; [| done]. intros _. by destruct shouldRefresh.
  - intros e. by destruct fc.
Qed.

Lemma background_writes r : always storesNonEmpty (updateWallpaperInBackground r).
Proof.
  unfold updateWallpaperInBackground. apply always_try_catch; [| done].
  apply always_bind; [done |]. intros wallpaperUrl.
  destruct (negb _); [| done].
  apply always_bind; [apply downloadAndCache_writes |]. intros d.
  destruct (_ && _); [done |]. by destruct (isFallback d).
Qed.

Lemma deleteExpired_writes cutoff keys : forall count,
  always storesNonEmpty (deleteExpired cutoff keys count).
Proof.
  induction keys as [| key keys IH]; intros count; simpl; [done |].
  destruct (Str.matchDate key) as [d |]; [| apply IH].
  destruct (Str.lt d cutoff); [| apply IH]. simpl. auto.
Qed.

Lemma cleanup_writes : always storesNonEmpty cleanupExpiredCache.
Proof.
  unfold cleanupExpiredCache. apply always_try_catch; [| done].
  simpl. split; [done |]. split; [| done]. intros allKeys.
  split; [done |]. split; [| done]. intros cutoff.
  apply always_bind; [apply deleteExpired_writes | done].
Qed.

Lemma preloadMissing_writes rs : always storesNonEmpty (preloadMissing rs).
Proof.
  induction rs as [| r rs IH]; simpl; [done |].
  split; [done |]. split; [| done]. intros key.
  split; [done |]. split; [| done]. intros [b |]; simpl; auto.
Qed.

Lemma dailyCheck_writes : always storesNonEmpty performDailyCheck.
Proof.
  unfold performDailyCheck. apply always_try_catch; [| done].
  apply always_bind; [done |]. intros [|]; [done |].
  apply always_bind; [done |]. intros _.
  apply always_bind; [apply preloadMissing_writes |]. intros _. apply cleanup_writes.
Qed.

Lemma handle_nonEmpty X (a : action X) : forall s,
  storesNonEmpty X a -> allNonEmpty (idb (async s)) ->
  allNonEmpty (idb (async (snd (handle X a s)))).
Proof.
  induction a; intros s Ha Hs; simpl in *; try done; try (by repeat case_match).
  - intros k b' [[_ <-] | [_ Hk]]%lookup_insert_Some; eauto.
  - intros k b' [_ Hk]%lookup_delete_Some. eauto.
  - by apply IHa.
Qed.

Lemma complete_writes {A} fault (p p1 : prog A) s s1 :
  complete fault p s = Some (p1, s1) ->
  always storesNonEmpty p -> allNonEmpty (idb (async s)) ->
  always storesNonEmpty p1 /\ allNonEmpty (idb (async s1)).
Proof.
  destruct p as [a | e | X a k h]; simpl; try done.
  intros Hc (Ha & Hk & Hh) Hs. destruct fault as [e |].
  - by injection Hc as <- <-.
  - pose proof (handle_nonEmpty X a s Ha Hs) as Hs'.
    destruct (handle X a s) as [[x | e] s']; injection Hc as <- <-; auto.
Qed.

Lemma advance_writes {A} (p : prog A) : forall m ws,
  always storesNonEmpty p -> Forall (storesNonEmpty unit) ws ->
  always storesNonEmpty (advance p m ws).1.1 /\
  Forall (storesNonEmpty unit) (advance p m ws).2.
Proof.
  induction p as [a | e | X a k IHk h IHh]; simpl; intros m ws Hp Hws; try done.
  destruct Hp as (Ha & Hk & Hh).
  destruct a; simpl; try done.
  - destruct (f m) as [x m']. by apply IHk.
  - apply IHk; [done |]. apply Forall_app. split; [done |]. by constructor.
Qed.

Lemma start_writes label p σ :
  always storesNonEmpty p -> writesNonEmpty σ -> writesNonEmpty (start label p σ).
Proof.
  intros Hp [H1 H2 H3 H4]. unfold start.
  destruct (advance_writes p (sync (st σ)) (detached σ) Hp H4) as [Hp' Hws'].
  destruct (advance p (sync (st σ)) (detached σ)) as [[p' m] ws].
  split; simpl in *; try done.
  apply Forall_app. split; [done |]. by constructor.
Qed.

Lemma absorb_writes σ : writesNonEmpty σ -> writesNonEmpty (absorb σ).
Proof.
  intros Hσ. unfold absorb.
  assert (forall rs σ0, writesNonEmpty σ0 -> writesNonEmpty
            (foldl (fun σ r => start (Some r) (updateWallpaperInBackground r) σ) σ0 rs)) as H.
  { induction rs as [| r rs IH]; intros σ0 H0; simpl; [done |].
    apply IH, start_writes; [apply background_writes | done]. }
  apply H. by destruct Hσ.
Qed.

Lemma boot_writes s0 : allNonEmpty (idb (async s0)) -> writesNonEmpty (boot s0).
Proof. intros. split; simpl; done || constructor. Qed.

Lemma step_writes e σ σ' : step e σ = Some σ' -> writesNonEmpty σ -> writesNonEmpty σ'.
Proof.
  intros Hstep Hσ. pose proof Hσ as [H1 H2 H3 H4]. destruct e; simpl in Hstep.
  - (* Call *)
    destruct (loadingPromises σ !! loadingKeyOf resolution) as [pid |].
    + injection Hstep as <-. by split.
    + destruct (advance_writes (_getWallpaperInternal resolution) (sync (st σ)) (detached σ)
                  (internal_writes resolution) H4) as [Hp Hws].
      destruct (advance (_getWallpaperInternal resolution) (sync (st σ)) (detached σ))
        as [[p m] ws].
      injection Hstep as <-. apply absorb_writes. split; simpl in *; try done.
      apply Forall_app. split; [done |]. by constructor.
  - (* PromiseStep *)
    destruct (promises σ !! pid) as [[r p] |] eqn:Hp; simpl in Hstep; [| done].
    destruct (complete fault p (st σ)) as [[p1 s1] |] eqn:Hc; simpl in Hstep; [| done].
    pose proof (Forall_lookup_1 _ _ _ _ H2 Hp) as Hpa. simpl in Hpa.
    destruct (complete_writes _ _ _ _ _ Hc Hpa H1) as [Hp1 Hs1].
    destruct (advance_writes p1 (sync s1) (detached σ) Hp1 H4) as [Hp2 Hws].
    destruct (advance p1 (sync s1) (detached σ)) as [[p2 m] ws].
    injection Hstep as <-. apply absorb_writes. split; simpl in *; try done.
    by apply Forall_insert.
  - (* TaskStep *)
    destruct (tasks σ !! tid) as [[l p] |] eqn:Hp; simpl in Hstep; [| done].
    destruct (complete fault p (st σ)) as [[p1 s1] |] eqn:Hc; simpl in Hstep; [| done].
    pose proof (Forall_lookup_1 _ _ _ _ H3 Hp) as Hpa. simpl in Hpa.
    destruct (complete_writes _ _ _ _ _ Hc Hpa H1) as [Hp1 Hs1].
    destruct (advance_writes p1 (sync s1) (detached σ) Hp1 H4) as [Hp2 Hws].
    destruct (advance p1 (sync s1) (detached σ)) as [[p2 m] ws].
    injection Hstep as <-. apply absorb_writes. split; simpl in *; try done.
    by apply Forall_insert.
  - (* Lands *)
    destruct (detached σ !! i) as [a |] eqn:Ha; simpl in Hstep; [| done].
    injection Hstep as <-. split; simpl; try done.
    + destruct fault; [done |].
      apply handle_nonEmpty; [| done]. by eapply (Forall_lookup_1 _ _ _ _ H4).
    + by apply Forall_delete.
  - (* Resume *)
    destruct (callers σ !! cid) as [[r c] |]; simpl in Hstep; [| done].
    destruct c as [pid | pid | pid o]; [| | done];
      (destruct (promises σ !! pid) as [[r0 p] |]; simpl in Hstep; [| done]);
      (destruct (outcomeOf p); simpl in Hstep; [| done]);
      injection Hstep as <-; by split.
  - (* TimerFires *)
    destruct (fireTimer timerId (sync (st σ))) as [m |]; simpl in Hstep; [| done].
    injection Hstep as <-. apply absorb_writes. by split.
  - injection Hstep as <-. apply absorb_writes. by split.
  - injection Hstep as <-. by apply absorb_writes, start_writes; [apply dailyCheck_writes |].
  - injection Hstep as <-. by apply absorb_writes, start_writes; [apply cleanup_writes |].
  - injection Hstep as <-. by split.
  - injection Hstep as <-. by split.
  - injection Hstep as <-. by split.
Qed.

(** Started with a store without empty payloads, the service never holds
    one: the hypothesis of the tier theorem is met in every state. *)
Lemma reachable_nonEmpty s0 σ :
  allNonEmpty (idb (async s0)) -> reachable s0 σ ->
  allNonEmpty (idb (async (st σ))) /\ nonEmptyEntries (idb (async (st σ))).
Proof.
  intros H0 Hr.
  assert (writesNonEmpty σ) as [H1 _ _ _].
  { induction Hr as [| σ e σ' _ IH Hstep]; [by apply boot_writes |]. by eapply step_writes. }
  split; [done |]. intros r n b Hb. by eapply H1.
Qed.

(* ===================================================================== *)
(** * The url of the result can be displayed *)
(* ===================================================================== *)

#[local] Transparent downloadAndCache.

Lemma downloadAndCache_handles u r s :
  let result := run handle (downloadAndCache u r) s in
  customWallpaper (async (snd result)) = customWallpaper (async s) /\
  (forall x, is_Some (handles (async s) !! x) -> is_Some (handles (async (snd result)) !! x)) /\
  (forall d, fst result = Resolved d -> is_Some (handles (async (snd result)) !! blobUrl d)).
Proof.
  destruct s as [m e]. cbv zeta. unfold downloadAndCache. rewrite run_try_catch. simpl.
  destruct (network e (proxyUrlOf u)) as [resp |]; simpl; [| done].
  destruct (Str.includes _ "application/json"); simpl; [done |].
  destruct (N.eqb_spec (size (respBody resp)) 0) as [Hz | Hnz]; simpl; [done |].
  set (source := if _ : bool then _ else _).
  assert (Hsource : exists w, run handle source (mkState m e) = (Resolved w, mkState m e)).
  { subst source. destruct (_ || _); simpl; [eauto |].
    rewrite run_bind, run_getOriginalUrl. simpl.
    destruct (Str.truthy _); simpl; eauto. }
  destruct Hsource as [w Hw]. rewrite run_bind, Hw.
  assert (Hgrow : forall x, is_Some (handles e !! x) ->
            is_Some (<[blobUrlOf (nextHandle e) := respBody resp]> (handles e) !! x)).
  { intros x Hx. rewrite lookup_insert. by case_decide. }
  destruct (_ && _); simpl; (split; [done |]); (split; [done |]);
    intros d [= <-]; simpl; rewrite lookup_insert_eq; eauto.
Qed.

#[local] Opaque downloadAndCache.

Lemma getSmartCache_hit r s :
  exists c s1, run handle (getSmartCache r) s = (Resolved c, s1) /\
    customWallpaper (async s1) = customWallpaper (async s) /\
    (forall hit, c = Some hit -> is_Some (handles (async s1) !! hit_url hit)).
Proof.
  rewrite run_getSmartCache. destruct (resolveTier r s) as [[[key b] t] |].
  - do 2 eexists. split; [reflexivity |]. split; [done |].
    intros hit [= <-]. simpl. rewrite lookup_insert_eq. eauto.
  - do 2 eexists. split; [reflexivity |]. split; [done |]. done.
Qed.

Lemma serveFromCache_stage r sr c s :
  exists stage s2, run handle (serveFromCache r sr c) s = (Resolved stage, s2) /\
    customWallpaper (async s2) = customWallpaper (async s) /\
    handles (async s2) = handles (async s) /\
    match stage with
    | inl w => exists hit, c = Some hit /\ url w = hit_url hit
    | inr fc => fc = None \/ fc = c
    end.
Proof.
  destruct s as [m e]. unfold serveFromCache.
  destruct sr, c as [c |]; simpl;
    repeat (match goal with |- context [if ?b then _ else _] => destruct b end; simpl);
    do 2 eexists; (split; [reflexivity |]); simpl; eauto 10.
Qed.

Lemma downloadFresh_displayable r sr fc s :
  (forall hit, fc = Some hit -> is_Some (handles (async s) !! hit_url hit)) ->
  let result := run handle (downloadFresh r sr fc) s in
  customWallpaper (async (snd result)) = customWallpaper (async s) /\
  forall w, fst result = Resolved w -> displayable w (snd result).
Proof.
  intros Hfc. cbv zeta. unfold downloadFresh, displayable.
  destruct s as [m e]. simpl in Hfc. simpl.
  destruct (getWallpaperUrl r m =? fallbackImage)%string eqn:Hurl; simpl.
  { apply String.eqb_eq in Hurl.
    destruct fc as [hit |]; simpl; (split; [done |]); intros w [= <-]; simpl; eauto. }
  rewrite run_try_catch, run_bind.
  pose proof (downloadAndCache_handles (getWallpaperUrl r m) r (mkState m e))
    as (Hcw & Hgrow & Hnew).
  destruct (run handle (downloadAndCache (getWallpaperUrl r m) r) (mkState m e))
    as [[d | err] [m1 e1]]; simpl in *.
  - specialize (Hnew d eq_refl).
    destruct (isFallback d), sr; simpl; (split; [done |]);
      intros w [= <-]; simpl; eauto.
  - destruct fc as [hit |]; simpl; [| done]. split; [done |].
    intros w [= <-]. simpl. eauto.
Qed.

Lemma internal_displayable r s :
  let result := run handle (_getWallpaperInternal r) s in
  exists w, fst result = Resolved w /\ displayable w (snd result).
Proof.
  cbv zeta. unfold _getWallpaperInternal. rewrite run_try_catch.
  destruct (r =? "custom")%string.
  { simpl. unfold displayable.
    destruct (customWallpaper (async s)) as [[| c u] |] eqn:Hcw; simpl; eauto. }
  rewrite run_bind.
  assert (run handle (read (shouldForceRefresh r)) s =
          (Resolved (shouldForceRefresh r (sync s)), s)) as -> by (by destruct s).
  rewrite run_bind.
  destruct (getSmartCache_hit r s) as (c & s1 & -> & Hcw1 & Hhit).
  rewrite run_bind.
  destruct (serveFromCache_stage r (shouldForceRefresh r (sync s)) c s1)
    as (stage & s2 & -> & Hcw2 & Hh2 & Hstage).
  destruct stage as [w | fc].
  - simpl. exists w. split; [done |]. destruct Hstage as (hit & -> & Hu).
    right. right. rewrite Hu, Hh2. by apply Hhit.
  - pose proof (downloadFresh_displayable r (shouldForceRefresh r (sync s)) fc s2) as Hd.
    cbv zeta in Hd. destruct Hd as [_ Hd].
    { intros hit ->. rewrite Hh2. apply Hhit. by destruct Hstage. }
    destruct (run handle (downloadFresh r (shouldForceRefresh r (sync s)) fc) s2)
      as [[w | err] s3]; simpl in *.
    + eauto.
    + eexists. split; [reflexivity |]. by left.
Qed.

(* ===================================================================== *)
(** * getWallpaper never rejects *)
(* ===================================================================== *)

(** C1: [getWallpaper] never rejects.  Whatever the collaborators answer
    (values or exceptions, in any order), a run of [_getWallpaperInternal]
    resolves to a result record (a url and the flags isFromCache, isToday,
    needsUpdate); in every state of the event loop no promise of such a run
    is rejected and every [getWallpaper] call that has returned, whether it
    started the run or joined it, has resolved; the url of the result can
    be displayed (it is the static default, the custom wallpaper or a blob
    URL the allocator has minted); and when no cache tier exists and every
    download fails (or there is nothing to download from), it is the static
    local default. *)
Theorem getWallpaper_never_rejects :
  (forall (H : handler) resolution s,
     exists w s', run H (_getWallpaperInternal resolution) s = (Resolved w, s')) /\
  (forall s0 σ, reachable s0 σ ->
     (forall pid r p o, promises σ !! pid = Some (r, p) -> outcomeOf p = Some o ->
                        exists w, o = Resolved w) /\
     (forall cid r pid o, callers σ !! cid = Some (r, Done pid o) ->
                          exists w, o = Resolved w)) /\
  (forall resolution s,
     let result := run handle (_getWallpaperInternal resolution) s in
     exists w, fst result = Resolved w /\ displayable w (snd result)) /\
  (forall resolution s,
     resolution <> "custom" ->
     fst (run handle (getSmartCache resolution) s) = Resolved None ->
     (getWallpaperUrl resolution (sync s) = fallbackImage \/
      exists e, fst (run handle (downloadAndCache (getWallpaperUrl resolution (sync s))
                                                  resolution) s) = Rejected e) ->
     exists w, fst (run handle (_getWallpaperInternal resolution) s) = Resolved w /\
               url w = fallbackImage).
Proof.
  split; [| split; [| split]].
  - intros H resolution s. apply safe_run, safe_internal.
  - intros s0 σ Hσ%reachable_consistent.
    assert (Hsettled : forall pid r p o,
              promises σ !! pid = Some (r, p) -> outcomeOf p = Some o ->
              exists w, o = Resolved w).
    { intros pid r p o Hp Ho. pose proof (inv_safe σ Hσ _ _ _ Hp) as Hs.
      destruct p; simpl in *; simplify_eq; eauto. done. }
    split; [done |].
    intros cid r pid o Hc. destruct (inv_done σ Hσ _ _ _ _ Hc) as (p & Hp & Ho). eauto.
  - apply internal_displayable.
  - intros resolution s Hcustom Hnone Hfail.
    destruct (internal_without_cache resolution s Hcustom Hnone) as [Hdl Hno].
    destruct (decide (getWallpaperUrl resolution (sync s) = fallbackImage)) as [Heq | Hne].
    + rewrite (Hno Heq). eauto.
    + destruct Hfail as [? | Hfail]; [done |]. rewrite (Hdl Hne Hfail). eauto.
Qed.

Lemma getWallpaper_never_rejects_witness :
  (exists w s', run handle (_getWallpaperInternal "4k") (freshState 20759 offline) =
                  (Resolved w, s')) /\
  (exists w, fst (run handle (_getWallpaperInternal "4k") (freshState 20759 offline)) =
               Resolved w /\ url w = fallbackImage).
Proof.
  split.
  - apply (proj1 getWallpaper_never_rejects handle "4k" (freshState 20759 offline)).
  - apply (proj2 (proj2 (proj2 getWallpaper_never_rejects)) "4k" (freshState 20759 offline)).
    + discriminate.
    + reflexivity.
    + right. exists NetworkError. reflexivity.
Defined.

(** A failing custom wallpaper manager, seen from two callers: the run
    ends in the default record and both calls resolve with it. *)
Example failing_manager_still_resolves :
  let s0 := freshState 20759 offline in
  let σ := after [Call "custom"; Call "custom"; PromiseStep 0 (Some OtherError);
                  Resume 0; Resume 1] s0 in
  reachable s0 σ /\
  map snd (callers σ) = repeat (Done 0 (Resolved defaultWallpaper)) 2.
Proof.
  split; [apply after_reachable; vm_compute; reflexivity |].
  vm_compute. reflexivity.
Qed.

(* ===================================================================== *)
(** * The request URL *)
(* ===================================================================== *)

Lemma stripTrailingSlash_empty s : stripTrailingSlash s = "" <-> s = "" \/ s = "/".
Proof.
  destruct s as [| c [| d t]]; simpl.
  - tauto.
  - destruct (Ascii.eqb_spec c "/") as [-> | Hne]; [tauto |].
    split; [done |]. intros [? | [= ?]]; done.
  - split; [done |]. intros [? | ?]; done.
Qed.

Lemma append_slash_cons s : exists c t, s +:+ "/" = String c t.
Proof. destruct s as [| c s]; [by exists "/"%char, "" | by exists c, (s +:+ "/")]. Qed.

Lemma stripTrailingSlash_slash s : stripTrailingSlash (s +:+ "/") = s.
Proof.
  induction s as [| c s IH]; [done |].
  rewrite KeyFacts.app_cons. destruct (append_slash_cons s) as (d & t & Heq).
  simpl. rewrite Heq in IH |- *. by rewrite IH.
Qed.

Lemma stripTrailingSlash_id s : lastChar s <> Some "/"%char -> stripTrailingSlash s = s.
Proof.
  induction s as [| c s IH]; [done |]. destruct s as [| d t].
  - simpl. intros Hne. destruct (Ascii.eqb_spec c "/") as [-> | _]; [done | done].
  - intros Hne. change (stripTrailingSlash (String c (String d t)))
      with (String c (stripTrailingSlash (String d t))).
    by rewrite IH.
Qed.

Lemma append_inv_head p a b : p +:+ a = p +:+ b -> a = b.
Proof.
  induction p as [| c p IH]; [done |]. rewrite !KeyFacts.app_cons. intros [= Heq]. auto.
Qed.

Lemma resolutionMap_unknown r : r ∉ resolutions -> resolutionMap r = objectPrototype r.
Proof.
  intros Hr. unfold resolutionMap.
  repeat match goal with
  | |- context [(r =? ?x)%string] =>
      destruct (String.eqb_spec r x) as [-> | _];
        [exfalso; apply Hr; unfold resolutions; set_solver |]
  end.
  done.
Qed.

(** The inherited names are none of the four resolutions. *)
Lemma objectPrototype_resolutions r : r ∈ resolutions -> objectPrototype r = None.
Proof.
  intros Hr%list_elem_of_In. simpl in Hr.
  destruct Hr as [<- | [<- | [<- | [<- | []]]]]; vm_compute; reflexivity.
Qed.

(** What is inherited renders as text that does not start like a size. *)
Lemma objectPrototype_text name text :
  objectPrototype name = Some text ->
  exists c rest, text = String c rest /\ c <> "1"%char.
Proof.
  unfold objectPrototype, nativeFunctionText.
  destruct (name =? "__proto__")%string; [intros [= <-]; by eexists _, _ |].
  destruct (name =? "constructor")%string; [intros [= <-]; by eexists _, _ |].
  destruct (existsb _ _); [| done].
  intros [= <-]. rewrite KeyFacts.app_cons. by eexists _, _.
Qed.

(** X1: [getWallpaperUrl] yields the local default image exactly when no
    endpoint is configured, that is when the configured Supabase URL is
    empty or a lone slash; the test [wallpaperUrl === this.fallbackImage]
    of its callers is therefore the test for a missing configuration.  A
    resolution that is neither one of the four known ones nor the name of
    a property every object inherits gets the URL of 1080p.  An inherited
    name ([constructor], [toString], [__proto__], ...) does not: the
    lookup finds a truthy value, the default is not taken, and the text
    of that value is put into the URL. *)
Theorem getWallpaperUrl_default_iff (resolution : string) (m : mem) :
  (getWallpaperUrl resolution m = fallbackImage <->
   supabaseUrlEnv m = "" \/ supabaseUrlEnv m = "/") /\
  (resolution ∉ resolutions -> objectPrototype resolution = None ->
   getWallpaperUrl resolution m = getWallpaperUrl "1080p" m) /\
  (forall text, objectPrototype resolution = Some text ->
   ~ (supabaseUrlEnv m = "" \/ supabaseUrlEnv m = "/") ->
   getWallpaperUrl resolution m =
     stripTrailingSlash (supabaseUrlEnv m) +:+ "/functions/v1/wallpaper-service?resolution="
       +:+ text +:+ "&date=" +:+ todayString m /\
   getWallpaperUrl resolution m <> getWallpaperUrl "1080p" m).
Proof.
  split; [| split].
  - rewrite <- stripTrailingSlash_empty. unfold getWallpaperUrl.
    destruct (stripTrailingSlash (supabaseUrlEnv m)) as [| c base] eqn:Hbase; simpl.
    + done.
    + split; [| done]. intros Heq%(f_equal String.length).
      rewrite !length_append in Heq. simpl in Heq. lia.
  - intros Hr Hnone. unfold getWallpaperUrl.
    by rewrite (resolutionMap_unknown _ Hr), Hnone.
  - intros text Htext Hconf. rewrite <- stripTrailingSlash_empty in Hconf.
    assert (resolution ∉ resolutions) as Hr.
    { intros Hin. by rewrite (objectPrototype_resolutions _ Hin) in Htext. }
    unfold getWallpaperUrl. rewrite (resolutionMap_unknown _ Hr), Htext.
    destruct (stripTrailingSlash (supabaseUrlEnv m)) as [| c base]; [done |].
    cbn [Str.nonEmpty default]. split; [done |].
    change (resolutionMap "1080p") with (Some "1920x1080"). cbn [default].
    intros Heq%append_inv_head%append_inv_head.
    destruct (objectPrototype_text _ _ Htext) as (c' & rest & -> & Hc).
    rewrite !KeyFacts.app_cons in Heq. by injection Heq.
Qed.

Example url_constructor :
  getWallpaperUrl "constructor" (emptyMem 20759 "https://proj.supabase.co") =
  "https://proj.supabase.co/functions/v1/wallpaper-service?resolution=function Object() { [native code] }&date=2026-11-02".
Proof. vm_compute. reflexivity. Qed.

(** X2: one trailing slash of the configured Supabase URL makes no
    difference to the request URL. *)
Theorem getWallpaperUrl_trailing_slash (resolution : string) (m m' : mem) :
  lastChar (supabaseUrlEnv m) <> Some "/"%char ->
  supabaseUrlEnv m' = supabaseUrlEnv m +:+ "/" ->
  today m' = today m ->
  getWallpaperUrl resolution m' = getWallpaperUrl resolution m.
Proof.
  intros Hlast Henv Htoday. unfold getWallpaperUrl, todayString.
  by rewrite Henv, Htoday, stripTrailingSlash_slash, stripTrailingSlash_id.
Qed.

Lemma getWallpaperUrl_trailing_slash_witness :
  getWallpaperUrl "4k" (emptyMem 20759 "https://proj.supabase.co/") =
  getWallpaperUrl "4k" (emptyMem 20759 "https://proj.supabase.co").
Proof.
  apply (getWallpaperUrl_trailing_slash "4k" (emptyMem 20759 "https://proj.supabase.co")
           (emptyMem 20759 "https://proj.supabase.co/")).
  - vm_compute. discriminate.
  - reflexivity.
  - reflexivity.
Defined.

(* ===================================================================== *)
(** * The success marker and the retry state *)
(* ===================================================================== *)

Lemma successKeyOf_inj r r' : successKeyOf r = successKeyOf r' -> r = r'.
Proof. unfold successKeyOf. cbv [String.append]. by intros [= ->]. Qed.

Lemma retryKeyOf_inj r r' : retryKeyOf r = retryKeyOf r' -> r = r'.
Proof. unfold retryKeyOf. cbv [String.append]. by intros [= ->]. Qed.

Lemma getLocalDateString_nonEmpty n : Str.nonEmpty (getLocalDateString n) = true.
Proof. reflexivity. Qed.

Lemma getLocalDateString_ne a b :
  (a < b)%N -> (year (civil b) < 10000)%N -> getLocalDateString a <> getLocalDateString b.
Proof.
  intros Hab Hy Heq. pose proof (getLocalDateString_lt a b Hab Hy) as Hlt.
  rewrite Heq, StrFacts.compare_refl in Hlt. done.
Qed.

(** X3: after [markUpdateSuccess] for a resolution, [shouldForceRefresh]
    answers no for it for the rest of the day, answers for the other
    resolutions as before, and answers yes again on any later day. *)
Theorem markUpdateSuccess_settles_the_day (r : string) (m : mem) :
  shouldForceRefresh r (markUpdateSuccess r m) = false /\
  (forall r', r' <> r ->
     shouldForceRefresh r' (markUpdateSuccess r m) = shouldForceRefresh r' m) /\
  (forall n, (today m < n)%N -> (year (civil n) < 10000)%N ->
     shouldForceRefresh r (set_today n (markUpdateSuccess r m)) = true).
Proof.
  destruct (markUpdateSuccess_localStorage r m) as [Hls Htoday].
  unfold shouldForceRefresh, todayString in *. split; [| split].
  - rewrite Hls, Htoday, lookup_insert_eq. cbn [Str.truthy].
    rewrite getLocalDateString_nonEmpty. by rewrite bool_decide_eq_true_2.
  - intros r' Hne. rewrite Hls, Htoday, lookup_insert_ne; [done |].
    intros Heq%successKeyOf_inj. done.
  - intros n Hlt Hy. cbn [localStorage today set_today]. rewrite Hls, lookup_insert_eq.
    cbn [Str.truthy]. rewrite getLocalDateString_nonEmpty.
    rewrite bool_decide_eq_false_2; [done |].
    intros Heq. apply (getLocalDateString_ne (today m) n Hlt Hy). congruence.
Qed.

#[local] Transparent markUpdateSuccess.

Lemma markUpdateSuccess_retry r m :
  retryTimers (markUpdateSuccess r m) = delete (retryKeyOf r) (retryTimers m) /\
  retryCounts (markUpdateSuccess r m) = delete r (retryCounts m) /\
  timeouts (markUpdateSuccess r m) =
    match retryTimers m !! retryKeyOf r with
    | Some timerId => delete timerId (timeouts m)
    | None => timeouts m
    end /\
  nextTimer (markUpdateSuccess r m) = nextTimer m /\
  spawned (markUpdateSuccess r m) = spawned m.
Proof.
  unfold markUpdateSuccess. simpl.
  destruct (retryTimers m !! retryKeyOf r) as [timerId |] eqn:Ht; simpl; [done |].
  by rewrite delete_id.
Qed.

#[local] Opaque markUpdateSuccess.

(** X4: a success wipes the retry state of its resolution: no retry is
    pending and no attempt is counted, the timer that was pending is
    cancelled and cannot fire any more, and the next failure arms a timer
    with the first delay of the table, 30 seconds.  The retry state of the
    other resolutions is left alone. *)
Theorem markUpdateSuccess_resets_backoff (r : string) (m : mem) :
  let m' := markUpdateSuccess r m in
  idle r 0 m' /\
  (exists timerId,
     retryTimers (scheduleRetry r m') !! retryKeyOf r = Some timerId /\
     timeouts (scheduleRetry r m') !! timerId =
       Some (mkTimer (retryKeyOf r) r 0 30000)) /\
  (forall timerId, retryTimers m !! retryKeyOf r = Some timerId ->
                   fireTimer timerId m' = None) /\
  (forall r', r' <> r ->
     retryTimers m' !! retryKeyOf r' = retryTimers m !! retryKeyOf r' /\
     retryCounts m' !! r' = retryCounts m !! r').
Proof.
  cbv zeta. destruct (markUpdateSuccess_retry r m) as (Ht & Hc & Hto & _ & _).
  assert (Hidle : idle r 0 (markUpdateSuccess r m)).
  { split; [by rewrite Ht, lookup_delete_eq | by rewrite Hc, lookup_delete_eq]. }
  split; [done |]. split; [| split].
  - apply (scheduleRetry_idle r 0) in Hidle; [| unfold MAX_RETRY_COUNT; lia].
    exact Hidle.
  - intros timerId Hpending. unfold fireTimer.
    by rewrite Hto, Hpending, lookup_delete_eq.
  - intros r' Hne. rewrite Ht, Hc. split.
    + rewrite lookup_delete_ne; [done |]. intros Heq%retryKeyOf_inj. done.
    + by rewrite lookup_delete_ne.
Qed.

(** X5: when its retry timer fires, the resolution has no retry pending
    any more, one more attempt is counted, exactly one background update
    is started for it, and the timer is gone: it cannot fire twice. *)
Theorem retry_timer_fires_once (r : string) (c timerId : nat) (m : mem) :
  retryTimers m !! retryKeyOf r = Some timerId ->
  timeouts m !! timerId = Some (mkTimer (retryKeyOf r) r c (delayOf c)) ->
  exists m',
    fireTimer timerId m = Some m' /\
    idle r (S c) m' /\
    spawned m' = spawned m ++ [r] /\
    fireTimer timerId m' = None /\
    localStorage m' = localStorage m.
Proof.
  intros Hpending Htimer. unfold fireTimer. rewrite Htimer.
  eexists. split; [reflexivity |]. simpl.
  split; [| by rewrite lookup_delete_eq].
  split; simpl; [apply lookup_delete_eq | by rewrite lookup_insert_eq].
Qed.

Lemma retry_timer_fires_once_witness :
  exists m',
    fireTimer 0 (scheduleRetry "4k" (emptyMem 20759 "")) = Some m' /\
    idle "4k" 1 m' /\
    spawned m' = ["4k"] /\
    fireTimer 0 m' = None /\
    localStorage m' = ∅.
Proof.
  apply (retry_timer_fires_once "4k" 0 0 (scheduleRetry "4k" (emptyMem 20759 ""))).
  - vm_compute. reflexivity.
  - vm_compute. reflexivity.
Defined.

Lemma onPageVisible_fold rs : forall m,
  foldl (fun m resolution =>
           if negb (bool_decide (localStorage m !! successKeyOf resolution = Some (todayString m)))
           then spawn resolution m else m)
        m rs =
  set_spawned
    (fun l => l ++ List.filter
       (fun r => negb (bool_decide (localStorage m !! successKeyOf r = Some (todayString m))))
       rs) m.
Proof.
  induction rs as [| r rs IH]; intros m; simpl.
  - destruct m. unfold set_spawned. simpl. by rewrite app_nil_r.
  - rewrite IH.
    destruct (negb (bool_decide (localStorage m !! successKeyOf r = Some (todayString m))));
      [| done].
    unfold spawn, set_spawned. cbn [spawned localStorage today todayString].
    f_equal. by rewrite <- app_assoc.
Qed.

(** X6: when the page becomes visible, a background update is started
    for exactly those of the four resolutions whose success marker is not
    today's date, in the order 1080p, 720p, 4k, mobile, and nothing else
    changes; when [shouldForceRefresh] answers no for all four, nothing
    happens at all. *)
Theorem onPageVisible_starts_unmarked (m : mem) :
  onPageVisible m = set_spawned (fun l => l ++ unmarked m) m /\
  ((forall r, r ∈ resolutions -> shouldForceRefresh r m = false) -> onPageVisible m = m).
Proof.
  assert (Hfirst : onPageVisible m = set_spawned (fun l => l ++ unmarked m) m)
    by apply onPageVisible_fold.
  split; [done |].
  intros Hall. rewrite Hfirst.
  assert (Hm : forall r, r ∈ resolutions ->
            bool_decide (localStorage m !! successKeyOf r = Some (todayString m)) = true).
  { intros r Hr. specialize (Hall r Hr). unfold shouldForceRefresh in Hall.
    destruct (bool_decide _); [done |]. by rewrite orb_true_r in Hall. }
  assert (unmarked m = []) as ->.
  { unfold unmarked, resolutions. simpl.
    rewrite !Hm by (apply list_elem_of_In; simpl; tauto). done. }
  destruct m. unfold set_spawned. simpl. by rewrite app_nil_r.
Qed.

(* ===================================================================== *)
(** * The downloader, case by case *)
(* ===================================================================== *)

#[local] Transparent downloadAndCache.

Lemma run_downloadAndCache u r s :
  run handle (downloadAndCache u r) s =
    match network (async s) (proxyUrlOf u) with
    | None => (Rejected NetworkError, s)
    | Some resp =>
        if Str.includes (default "" (contentType resp)) "application/json"
        then (Rejected InvalidErrorResponse, s)
        else if (size (respBody resp) =? 0)%N then (Rejected EmptyPayload, s)
        else
          let origin := originOf u r resp s in
          let blobUrl := blobUrlOf (nextHandle (async s)) in
          if (r =? "4k")%string && (size (respBody resp) <? min4kSize)%N
          then (Resolved (mkDownloaded blobUrl origin true), mint (respBody resp) s)
          else (Resolved (mkDownloaded blobUrl origin false),
                stored (getTodayCacheKey r (sync s)) (respBody resp) origin s)
    end.
Proof.
  destruct s as [m e]. unfold downloadAndCache. rewrite run_try_catch. simpl.
  destruct (network e (proxyUrlOf u)) as [resp |]; simpl; [| done].
  destruct (Str.includes _ "application/json"); simpl; [done |].
  destruct (size (respBody resp) =? 0)%N; simpl; [done |].
  unfold originOf. simpl.
  destruct (Str.startsWith _ "http://" || Str.startsWith _ "https://"); simpl.
  - by destruct ((r =? "4k")%string && _).
  - rewrite !run_bind, run_getOriginalUrl. simpl.
    destruct (Str.truthy _); simpl; by destruct ((r =? "4k")%string && _).
Qed.

#[local] Opaque downloadAndCache.

(** X7: [downloadAndCache] rejects in exactly three cases, and leaves no
    trace when it does: no blob URL is minted and nothing is written.  The
    request fails; the response is JSON, which always surfaces as the
    invalid-error-response error, because the error thrown for a parsed
    error body is caught by the catch around the parse; or the payload is
    empty.  In every other case it resolves. *)
Theorem downloadAndCache_failures (u r : string) (s : state) :
  let result := run handle (downloadAndCache u r) s in
  (network (async s) (proxyUrlOf u) = None -> result = (Rejected NetworkError, s)) /\
  (forall resp, network (async s) (proxyUrlOf u) = Some resp ->
     (Str.includes (default "" (contentType resp)) "application/json" = true ->
      result = (Rejected InvalidErrorResponse, s)) /\
     (Str.includes (default "" (contentType resp)) "application/json" = false ->
      size (respBody resp) = 0%N -> result = (Rejected EmptyPayload, s)) /\
     (Str.includes (default "" (contentType resp)) "application/json" = false ->
      size (respBody resp) <> 0%N -> exists d s', result = (Resolved d, s'))) /\
  (forall e s', result = (Rejected e, s') ->
     s' = s /\ (e = NetworkError \/ e = InvalidErrorResponse \/ e = EmptyPayload)).
Proof.
  cbv zeta. rewrite run_downloadAndCache.
  split; [by intros -> |]. split.
  - intros resp ->. split; [by intros -> |]. split.
    + intros -> ->. done.
    + intros -> Hnz. apply N.eqb_neq in Hnz. rewrite Hnz. cbv zeta.
      destruct (_ && _); eauto.
  - intros e s'. destruct (network (async s) (proxyUrlOf u)) as [resp |].
    + destruct (Str.includes _ _); [intros [= <- <-]; auto |].
      destruct (_ =? _)%N; [intros [= <- <-]; auto |].
      cbv zeta. by destruct (_ && _).
    + intros [= <- <-]. auto.
Qed.

(** X8: a download that is not a fallback can be read back: the payload
    is under today's key of the resolution, and [getSmartCache] then
    serves it as today's wallpaper, under a new blob URL, with the origin
    the download recorded. *)
Theorem download_then_resolve (u r : string) (s : state) (resp : Response) :
  network (async s) (proxyUrlOf u) = Some resp ->
  Str.includes (default "" (contentType resp)) "application/json" = false ->
  (0 < size (respBody resp))%N ->
  (r = "4k" -> (min4kSize <= size (respBody resp))%N) ->
  exists s1,
    run handle (downloadAndCache u r) s =
      (Resolved (mkDownloaded (blobUrlOf (nextHandle (async s))) (originOf u r resp s) false),
       s1) /\
    sync s1 = sync s /\
    idb (async s1) !! getTodayCacheKey r (sync s) = Some (respBody resp) /\
    run handle (getSmartCache r) s1 =
      (Resolved (Some (mkHit (blobUrlOf (S (nextHandle (async s)))) true
                             (Some (originOf u r resp s)))),
       mint (respBody resp) s1).
Proof.
  intros Hnet Hct Hpos H4k. rewrite run_downloadAndCache, Hnet, Hct.
  destruct (N.eqb_spec (size (respBody resp)) 0) as [Hz | _]; [lia |]. cbv zeta.
  assert ((r =? "4k")%string && (size (respBody resp) <? min4kSize)%N = false) as ->.
  { destruct (String.eqb_spec r "4k") as [Hr | _]; [| done]. simpl.
    apply N.ltb_ge. auto. }
  eexists. split; [reflexivity |].
  assert (Hentry : idb (async (stored (getTodayCacheKey r (sync s)) (respBody resp)
                                 (originOf u r resp s) s))
                   !! getTodayCacheKey r (sync s) = Some (respBody resp)).
  { simpl. rewrite lookup_insert_ne by apply metadataKeyOf_ne. apply lookup_insert_eq. }
  split; [done |]. split; [done |].
  rewrite run_getSmartCache. unfold resolveTier.
  change (sync (stored _ _ _ s)) with (sync s). rewrite Hentry.
  unfold storedOriginalUrl. simpl. by rewrite lookup_insert_eq.
Qed.

Lemma download_then_resolve_witness :
  let s := freshState 20759 (online 900000) in
  let u := "https://proj.supabase.co/w" in
  exists s1,
    run handle (downloadAndCache u "1080p") s =
      (Resolved (mkDownloaded (blobUrlOf (nextHandle (async s)))
                              (originOf u "1080p" (goodResponse 900000) s) false),
       s1) /\
    sync s1 = sync s /\
    idb (async s1) !! getTodayCacheKey "1080p" (sync s) = Some (respBody (goodResponse 900000)) /\
    run handle (getSmartCache "1080p") s1 =
      (Resolved (Some (mkHit (blobUrlOf (S (nextHandle (async s)))) true
                             (Some (originOf u "1080p" (goodResponse 900000) s)))),
       mint (respBody (goodResponse 900000)) s1).
Proof.
  apply (download_then_resolve "https://proj.supabase.co/w" "1080p"
           (freshState 20759 (online 900000)) (goodResponse 900000)).
  - reflexivity.
  - reflexivity.
  - reflexivity.
  - discriminate.
Defined.

(* ===================================================================== *)
(** * Reading the stored origin *)
(* ===================================================================== *)

#[local] Transparent getOriginalUrl.

Lemma safe_getOriginalUrl key : safe (getOriginalUrl key).
Proof. unfold getOriginalUrl. by apply safe_try_catch. Qed.

Lemma getOriginalUrl_looksUp key : always looksUp (getOriginalUrl key).
Proof. unfold getOriginalUrl. repeat (always_step; simpl; try done). Qed.

#[local] Opaque getOriginalUrl.

(** X9: [getOriginalUrl] never rejects, whatever the store does; it reads
    back the origin that [downloadAndCache] wrote next to an entry, and
    answers undefined when there is no metadata record or when the record
    is not the JSON document; the state is left as it was. *)
Theorem getOriginalUrl_round_trip (key : string) :
  (forall (H : handler) s, exists o s', run H (getOriginalUrl key) s = (Resolved o, s')) /\
  (forall s origin,
     idb (async s) !! metadataKeyOf key = Some (metadataBlob origin) ->
     run handle (getOriginalUrl key) s = (Resolved (Some origin), s)) /\
  (forall s, idb (async s) !! metadataKeyOf key = None ->
     run handle (getOriginalUrl key) s = (Resolved None, s)) /\
  (forall s b data,
     idb (async s) !! metadataKeyOf key = Some b -> body b = Image data ->
     run handle (getOriginalUrl key) s = (Resolved None, s)).
Proof.
  split; [intros H s; apply safe_run, safe_getOriginalUrl |].
  split; [| split].
  - intros s origin Hm. rewrite run_getOriginalUrl. unfold storedOriginalUrl. by rewrite Hm.
  - intros s Hm. rewrite run_getOriginalUrl. unfold storedOriginalUrl. by rewrite Hm.
  - intros s b data Hm Hb. rewrite run_getOriginalUrl. unfold storedOriginalUrl.
    by rewrite Hm, Hb.
Qed.

(* ===================================================================== *)
(** * The resolver only looks *)
(* ===================================================================== *)

#[local] Transparent serveEntry.

Lemma serveEntry_looksUp key b t : always looksUp (serveEntry key b t).
Proof.
  unfold serveEntry. apply always_bind; [apply getOriginalUrl_looksUp |].
  intros. simpl. done.
Qed.

#[local] Opaque serveEntry.

#[local] Transparent getSmartCache.

Lemma getSmartCache_looksUp r : always looksUp (getSmartCache r).
Proof.
  unfold getSmartCache.
  repeat (first [apply serveEntry_looksUp | always_step]; simpl; try done).
Qed.

Lemma safe_getSmartCache r : safe (getSmartCache r).
Proof. unfold getSmartCache. by apply safe_try_catch. Qed.

#[local] Opaque getSmartCache.

(** X10: [getSmartCache] never rejects and only looks: whatever the
    environment answers, it sends no request, writes and deletes nothing in
    the store and changes nothing in memory; all it does besides reading is
    to mint blob URLs, exactly one per hit. *)
Theorem getSmartCache_only_looks_up (r : string) :
  always looksUp (getSmartCache r) /\
  (forall (H : handler) s, exists c s', run H (getSmartCache r) s = (Resolved c, s')) /\
  (forall s,
     let result := run handle (getSmartCache r) s in
     sync (snd result) = sync s /\
     idb (async (snd result)) = idb (async s) /\
     nextHandle (async (snd result)) =
       match fst result with
       | Resolved (Some _) => S (nextHandle (async s))
       | _ => nextHandle (async s)
       end).
Proof.
  split; [apply getSmartCache_looksUp |].
  split; [intros H s; apply safe_run, safe_getSmartCache |].
  intros s. cbv zeta. rewrite run_getSmartCache.
  by destruct (resolveTier r s) as [[[key b] t] |].
Qed.

(* ===================================================================== *)
(** * Serving from the cache *)
(* ===================================================================== *)

Lemma run_internal_cached r s :
  r <> "custom" ->
  run handle (_getWallpaperInternal r) s =
    match run handle (getSmartCache r) s with
    | (Resolved cachedResult, s1) =>
        match run handle (serveFromCache r (shouldForceRefresh r (sync s)) cachedResult) s1 with
        | (Resolved (inl result), s2) => (Resolved result, s2)
        | (Resolved (inr fallbackCache), s2) =>
            match run handle (downloadFresh r (shouldForceRefresh r (sync s)) fallbackCache) s2 with
            | (Resolved result, s3) => (Resolved result, s3)
            | (Rejected _, s3) => (Resolved defaultWallpaper, s3)
            end
        | (Rejected _, s2) => (Resolved defaultWallpaper, s2)
        end
    | (Rejected _, s1) => (Resolved defaultWallpaper, s1)
    end.
Proof.
  intros Hcustom%String.eqb_neq. unfold _getWallpaperInternal.
  rewrite Hcustom, run_try_catch, run_bind.
  assert (run handle (read (shouldForceRefresh r)) s =
          (Resolved (shouldForceRefresh r (sync s)), s)) as -> by (by destruct s).
  rewrite run_bind.
  destruct (run handle (getSmartCache r) s) as [[c | e] s1]; [| done].
  rewrite run_bind.
  destruct (run handle (serveFromCache r (shouldForceRefresh r (sync s)) c) s1)
    as [[[w | fc] | e] s2]; done.
Qed.

(** X11: with an entry in any cache tier, [getWallpaper] answers from the
    cache without waiting for the network.  When the resolution has not
    been updated successfully today, the cached wallpaper is returned at
    once, flagged as needing an update, and exactly one background update
    is started.  When it has, today's entry with a known origin is
    returned as it is, with nothing started, and an entry that is not
    today's is returned flagged as needing an update, with one background
    update started. *)
Theorem cached_wallpaper_served_at_once (r : string) (s s1 : state) (hit : CacheHit) :
  r <> "custom" ->
  run handle (getSmartCache r) s = (Resolved (Some hit), s1) ->
  let result := run handle (_getWallpaperInternal r) s in
  (shouldForceRefresh r (sync s) = true ->
   result =
     (Resolved (mkWallpaper (hit_url hit) true (hit_isToday hit) true (hit_originalUrl hit)),
      set_sync (spawn r) s1)) /\
  (shouldForceRefresh r (sync s) = false ->
   hit_isToday hit = true -> Str.truthy (hit_originalUrl hit) = true ->
   result =
     (Resolved (mkWallpaper (hit_url hit) true true false (hit_originalUrl hit)), s1)) /\
  (shouldForceRefresh r (sync s) = false ->
   hit_isToday hit = false ->
   result =
     (Resolved (mkWallpaper (hit_url hit) true false true (hit_originalUrl hit)),
      set_sync (spawn r) s1)).
Proof.
  intros Hcustom Hhit. cbv zeta. rewrite run_internal_cached, Hhit by done.
  destruct s1 as [m1 e1]. unfold serveFromCache.
  split; [| split].
  - intros ->. reflexivity.
  - intros -> -> ->. reflexivity.
  - intros -> ->. simpl. rewrite andb_false_r.
    by destruct (Str.truthy (hit_originalUrl hit)).
Qed.

Lemma cached_wallpaper_served_at_once_witness :
  let s := cachedState 20759 20758 "4k" offline in
  run handle (_getWallpaperInternal "4k") s =
    (Resolved (mkWallpaper "blob:0" true false true (Some "https://www.bing.com/th?id=OHR.Old")),
     set_sync (spawn "4k") (mint (jpeg 900000) s)).
Proof.
  apply (proj1 (cached_wallpaper_served_at_once "4k" (cachedState 20759 20758 "4k" offline)
                  (mint (jpeg 900000) (cachedState 20759 20758 "4k" offline))
                  (mkHit "blob:0" false (Some "https://www.bing.com/th?id=OHR.Old"))
                  ltac:(discriminate) ltac:(vm_compute; reflexivity))).
  vm_compute. reflexivity.
Defined.

(** X12: today's entry without a stored origin (an entry of an older
    version) is deleted before the new download is attempted.  When the
    download then cannot happen or fails, the call still returns the
    wallpaper of the deleted entry, under the blob URL minted for it,
    flagged as not today's and as needing an update, and after a failed
    request a retry is scheduled; the entry itself is gone from the store. *)
Theorem legacy_entry_dropped_before_download (r : string) (s s1 : state) (hit : CacheHit) :
  r <> "custom" ->
  shouldForceRefresh r (sync s) = false ->
  run handle (getSmartCache r) s = (Resolved (Some hit), s1) ->
  hit_isToday hit = true ->
  Str.truthy (hit_originalUrl hit) = false ->
  let result := run handle (_getWallpaperInternal r) s in
  let degraded := mkWallpaper (hit_url hit) true false true (hit_originalUrl hit) in
  let s2 := set_async (set_idb (delete (getTodayCacheKey r (sync s)))) s1 in
  (getWallpaperUrl r (sync s) = fallbackImage -> result = (Resolved degraded, s2)) /\
  (getWallpaperUrl r (sync s) <> fallbackImage ->
   network (async s) (proxyUrlOf (getWallpaperUrl r (sync s))) = None ->
   result = (Resolved degraded, set_sync (scheduleRetry r) s2)).
Proof.
  intros Hcustom Hfresh Hhit Htoday Horigin. cbv zeta.
  rewrite run_internal_cached, Hhit, Hfresh by done.
  rewrite run_getSmartCache in Hhit.
  destruct (resolveTier r s) as [[[key b] t] |]; [| done].
  injection Hhit as <- <-. destruct s as [m e]. simpl in Htoday, Horigin. subst t.
  unfold serveFromCache. cbn -[run downloadFresh].
  rewrite Horigin. cbn -[downloadFresh].
  unfold downloadFresh. split.
  - intros Hurl. simpl. rewrite Hurl. reflexivity.
  - intros Hurl%String.eqb_neq Hnet. cbn -[downloadAndCache]. rewrite Hurl.
    rewrite run_try_catch, run_bind, run_downloadAndCache. simpl. rewrite Hnet.
    reflexivity.
Qed.

Lemma legacy_entry_dropped_before_download_witness :
  let s0 := freshState 20759 offline in
  let key := cacheKey "4k" "2026-11-02" in
  let s :=
    mkState (markUpdateSuccess "4k" (sync s0))
            (mkExt (<[key := jpeg 900000]> ∅) ∅ 0 offline None) in
  run handle (_getWallpaperInternal "4k") s =
    (Resolved (mkWallpaper "blob:0" true false true None),
     set_sync (scheduleRetry "4k")
       (set_async (set_idb (delete (getTodayCacheKey "4k" (sync s))))
                  (mint (jpeg 900000) s))).
Proof.
  cbv zeta.
  apply (proj2 (legacy_entry_dropped_before_download "4k"
    (mkState (markUpdateSuccess "4k" (sync (freshState 20759 offline)))
             (mkExt (<[cacheKey "4k" "2026-11-02" := jpeg 900000]> ∅) ∅ 0 offline None))
    (mint (jpeg 900000)
       (mkState (markUpdateSuccess "4k" (sync (freshState 20759 offline)))
                (mkExt (<[cacheKey "4k" "2026-11-02" := jpeg 900000]> ∅) ∅ 0 offline None)))
    (mkHit "blob:0" true None)
    ltac:(discriminate) ltac:(vm_compute; reflexivity) ltac:(vm_compute; reflexivity)
    eq_refl eq_refl)).
  - vm_compute. discriminate.
  - reflexivity.
Defined.

(* ===================================================================== *)
(** * The flags of a result *)
(* ===================================================================== *)

Lemma returns_bind {A B} (P : B -> Prop) (p : prog A) (f : A -> prog B) :
  returns (fun a => returns P (f a)) p -> returns P (bind p f).
Proof.
  induction p as [a | e | X a k IHk h IHh]; simpl; [done | done |].
  intros [Hk Hh]. auto.
Qed.

Lemma returns_any {A} (P : A -> Prop) (p : prog A) : (forall a, P a) -> returns P p.
Proof. intros HP. induction p as [a | e | X a k IHk h IHh]; simpl; auto. Qed.

Lemma returns_weaken {A} (P Q : A -> Prop) (p : prog A) :
  returns P p -> (forall a, P a -> Q a) -> returns Q p.
Proof.
  intros Hp HPQ. induction p as [a | e | X a k IHk h IHh]; simpl in *; [auto | done |].
  destruct Hp as [Hk Hh]. auto.
Qed.

Lemma returns_try_catch {A} (P : A -> Prop) (p : prog A) (c : error -> prog A) :
  returns P p -> (forall e, returns P (c e)) -> returns P (try_catch p c).
Proof.
  intros Hp Hc. induction p as [a | e | X a k IHk h IHh]; simpl in *; [done | done |].
  destruct Hp as [Hk Hh]. auto.
Qed.

Lemma returns_run {A} (P : A -> Prop) (H : handler) (p : prog A) : forall s a s',
  returns P p -> run H p s = (Resolved a, s') -> P a.
Proof.
  induction p as [a | e | X a k IHk h IHh]; simpl; intros s a' s' Hp Hrun.
  - by injection Hrun as <- _.
  - done.
  - destruct Hp as [Hk Hh]. destruct (H X a s) as [[x | e] s1]; eauto.
Qed.

Lemma serveFromCache_coherent r sr c :
  returns (fun stage => match stage with inl w => coherent w | inr _ => True end)
          (serveFromCache r sr c).
Proof.
  unfold serveFromCache, coherent.
  destruct sr, c as [c |]; simpl; try done.
  destruct (Str.truthy (hit_originalUrl c)), (hit_isToday c); simpl;
    repeat split; done.
Qed.

Lemma downloadFresh_coherent r sr fc : returns coherent (downloadFresh r sr fc).
Proof.
  unfold downloadFresh, coherent. simpl. split; [| done]. intros wallpaperUrl.
  destruct (wallpaperUrl =? fallbackImage)%string.
  { by destruct fc. }
  apply returns_try_catch.
  - apply returns_bind, returns_any. intros d.
    apply returns_bind, returns_any. intros _. simpl. done.
  - intros e. destruct fc; simpl; [| done]. split; [| done]. intros _ _. done.
Qed.

Lemma internal_coherent r : returns coherent (_getWallpaperInternal r).
Proof.
  unfold _getWallpaperInternal. apply returns_try_catch; [| done].
  destruct (r =? "custom")%string.
  { simpl. split; [| done]. intros c. by destruct (Str.truthy c). }
  apply returns_bind, returns_any. intros shouldRefresh.
  apply returns_bind, returns_any. intros cached.
  apply returns_bind.
  apply (returns_weaken _ _ _ (serveFromCache_coherent r shouldRefresh cached)).
  intros [w | fc]; simpl; [done |]. intros _. apply downloadFresh_coherent.
Qed.

(** X13: the flags of a result fit together, whatever the collaborators
    answer: [getWallpaper] resolves, and a result that is not today's
    wallpaper always comes from the cache and is always flagged as needing
    an update. *)
Theorem result_flags_coherent (H : handler) (r : string) (s : state) :
  exists w s',
    run H (_getWallpaperInternal r) s = (Resolved w, s') /\
    (isToday w = false -> isFromCache w = true /\ needsUpdate w = true).
Proof.
  destruct (safe_run H _ (safe_internal r) s) as (w & s' & Hrun).
  exists w, s'. split; [done |].
  exact (returns_run coherent H _ s w s' (internal_coherent r) Hrun).
Qed.

(* ===================================================================== *)
(** * Background updates *)
(* ===================================================================== *)

Lemma settles_try_catch {A} (p : prog A) (c : error -> prog A) :
  (forall e, settles (c e)) -> settles (try_catch p c).
Proof.
  intros Hc. induction p as [a | e | X a k IHk h IHh]; simpl; auto.
Qed.

Lemma safe_settles {A} (p : prog A) : safe p -> settles p.
Proof.
  induction p as [a | e | X a k IHk h IHh]; simpl; [done | done |].
  intros [Hk Hh]. auto.
Qed.

Lemma settles_run {A} (H : handler) (p : prog A) :
  syncTotal H -> settles p -> forall s, exists a s', run H p s = (Resolved a, s').
Proof.
  intros Hsync. induction p as [a | e | X a k IHk h IHh]; simpl; intros Hs s.
  - eauto.
  - done.
  - destruct Hs as [Hk Hh]. destruct (isSync a) eqn:Ha.
    + destruct (Hsync X a s Ha) as (x & s' & ->). eauto.
    + destruct (H X a s) as [[x | e] s']; eauto.
Qed.

Lemma handle_syncTotal : syncTotal handle.
Proof.
  intros X a s Ha. destruct a; try discriminate; simpl.
  - destruct (f (sync s)). eauto.
  - eauto.
Qed.

Lemma settles_background r : settles (updateWallpaperInBackground r).
Proof.
  unfold updateWallpaperInBackground. apply settles_try_catch.
  intros e. simpl. split; [done | discriminate].
Qed.

Lemma scheduleRetry_after r m :
  is_Some (retryTimers (scheduleRetry r m) !! retryKeyOf r) \/
  MAX_RETRY_COUNT <= default 0 (retryCounts (scheduleRetry r m) !! r).
Proof.
  destruct (retryTimers m !! retryKeyOf r) as [timerId |] eqn:Hpending.
  - left. rewrite scheduleRetry_pending; rewrite Hpending; eauto.
  - destruct (le_lt_dec MAX_RETRY_COUNT (default 0 (retryCounts m !! r))) as [Hmax | Hlt].
    + right. by rewrite scheduleRetry_exhausted.
    + left. rewrite scheduleRetry_arms by done. simpl. rewrite lookup_insert_eq. eauto.
Qed.

(** X14: a background update never rejects (synchronous code not
    throwing); with no endpoint configured it does nothing at all; and
    with one, it ends in one of three ways: the resolution is marked as
    updated today, or a retry is pending for it, or its eight attempts are
    used up.  A failed update is never dropped silently before that. *)
Theorem background_update_outcome (r : string) :
  (forall (H : handler) s, syncTotal H ->
     exists s', run H (updateWallpaperInBackground r) s = (Resolved tt, s')) /\
  (forall s, getWallpaperUrl r (sync s) = fallbackImage ->
     run handle (updateWallpaperInBackground r) s = (Resolved tt, s)) /\
  (forall s, getWallpaperUrl r (sync s) <> fallbackImage ->
     let s' := snd (run handle (updateWallpaperInBackground r) s) in
     markerOf r s' = Some (todayString (sync s)) \/
     is_Some (retryTimers (sync s') !! retryKeyOf r) \/
     MAX_RETRY_COUNT <= default 0 (retryCounts (sync s') !! r)).
Proof.
  split; [| split].
  - intros H s Hsync.
    destruct (settles_run H _ Hsync (settles_background r) s) as ([] & s' & Hrun). eauto.
  - intros [m e] Hurl. simpl in Hurl. unfold updateWallpaperInBackground.
    rewrite run_try_catch, run_bind. simpl. rewrite Hurl. reflexivity.
  - intros [m e] Hurl%String.eqb_neq. simpl in Hurl. cbv zeta.
    unfold updateWallpaperInBackground, markerOf.
    rewrite run_try_catch, run_bind. simpl. rewrite Hurl. simpl.
    rewrite run_bind, run_downloadAndCache. simpl.
    destruct (network e (proxyUrlOf (getWallpaperUrl r m))) as [resp |]; simpl;
      [| right; apply scheduleRetry_after].
    destruct (Str.includes _ _); simpl; [right; apply scheduleRetry_after |].
    destruct (_ =? 0)%N; simpl; [right; apply scheduleRetry_after |].
    destruct (_ && _); simpl; [right; apply scheduleRetry_after |].
    left. destruct (markUpdateSuccess_localStorage r m) as [-> _].
    apply lookup_insert_eq.
Qed.

(* ===================================================================== *)
(** * The daily check *)
(* ===================================================================== *)

Lemma run_preloadMissing rs : forall m e,
  run handle (preloadMissing rs) (mkState m e) =
    (Resolved tt,
     mkState
       (set_spawned
          (fun l => l ++ List.filter
             (fun r => match idb e !! getTodayCacheKey r m with
                       | Some _ => false
                       | None => true
                       end) rs) m) e).
Proof.
  induction rs as [| r rs IH]; intros m e; simpl.
  - destruct m. unfold set_spawned. simpl. by rewrite app_nil_r.
  - destruct (idb e !! getTodayCacheKey r m) as [b |]; simpl.
    + apply IH.
    + rewrite IH. unfold spawn, set_spawned. simpl. do 2 f_equal.
      by rewrite <- app_assoc.
Qed.

Lemma run_performDailyCheck m e :
  run handle performDailyCheck (mkState m e) =
    if bool_decide (localStorage m !! dailyCheckKey = Some (todayString m))
    then (Resolved tt, mkState m e)
    else run handle cleanupExpiredCache
           (mkState (set_spawned (fun l => l ++ missingToday m (idb e))
                       (set_localStorage <[dailyCheckKey := todayString m]> m)) e).
Proof.
  unfold performDailyCheck. rewrite run_try_catch.
  cbn -[preloadMissing cleanupExpiredCache].
  case_bool_decide; cbn -[preloadMissing cleanupExpiredCache]; [done |].
  rewrite run_bind, run_preloadMissing.
  destruct e as [store hs nh net cw]. rewrite !run_cleanupExpiredCache. reflexivity.
Qed.

Lemma safe_performDailyCheck : safe performDailyCheck.
Proof. unfold performDailyCheck. by apply safe_try_catch. Qed.

Lemma safe_cleanupExpiredCache : safe cleanupExpiredCache.
Proof. unfold cleanupExpiredCache. by apply safe_try_catch. Qed.

(** X15: the daily check never rejects, whatever the collaborators
    answer, and it does its work once a day: after a run the day is marked
    as checked, and a second run on the same day changes nothing. *)
Theorem performDailyCheck_once_a_day :
  (forall (H : handler) s, exists s', run H performDailyCheck s = (Resolved tt, s')) /\
  (forall s,
     let s1 := snd (run handle performDailyCheck s) in
     localStorage (sync s1) !! dailyCheckKey = Some (todayString (sync s)) /\
     today (sync s1) = today (sync s) /\
     run handle performDailyCheck s1 = (Resolved tt, s1)).
Proof.
  split.
  - intros H s. destruct (safe_run H _ safe_performDailyCheck s) as ([] & s' & Hrun). eauto.
  - intros [m [store hs nh net cw]]. cbv zeta. rewrite run_performDailyCheck.
    case_bool_decide as Hchecked.
    + cbn [snd]. split; [done |]. split; [done |].
      rewrite run_performDailyCheck. by rewrite bool_decide_eq_true_2.
    + rewrite run_cleanupExpiredCache. cbn [snd].
      split; [apply lookup_insert_eq |]. split; [done |].
      rewrite run_performDailyCheck. rewrite bool_decide_eq_true_2; [done |].
      cbn. apply lookup_insert_eq.
Qed.

(** X16: the first daily check of a day marks the day, starts a
    background update for exactly those of the four resolutions that have
    no entry for today, and then cleans the store as
    [cleanupExpiredCache] does. *)
Theorem performDailyCheck_first_run (s : state) :
  localStorage (sync s) !! dailyCheckKey <> Some (todayString (sync s)) ->
  let s1 := snd (run handle performDailyCheck s) in
  localStorage (sync s1) = <[dailyCheckKey := todayString (sync s)]> (localStorage (sync s)) /\
  spawned (sync s1) = spawned (sync s) ++ missingToday (sync s) (idb (async s)) /\
  idb (async s1) = idb (async (snd (run handle cleanupExpiredCache s))).
Proof.
  destruct s as [m [store hs nh net cw]]. cbn [sync async idb]. intros Hfirst. cbv zeta.
  rewrite run_performDailyCheck, bool_decide_eq_false_2 by done.
  by rewrite !run_cleanupExpiredCache.
Qed.

Lemma performDailyCheck_first_run_witness :
  let s := cachedState 20759 20759 "4k" offline in
  let s1 := snd (run handle performDailyCheck s) in
  localStorage (sync s1) = <[dailyCheckKey := todayString (sync s)]> (localStorage (sync s)) /\
  spawned (sync s1) = spawned (sync s) ++ missingToday (sync s) (idb (async s)) /\
  idb (async s1) = idb (async (snd (run handle cleanupExpiredCache s))).
Proof.
  apply (performDailyCheck_first_run (cachedState 20759 20759 "4k" offline)).
  vm_compute. discriminate.
Defined.

(* ===================================================================== *)
(** * Clearing an entry *)
(* ===================================================================== *)

(** X17: [clearCacheForDate] never rejects; it removes the entry of the
    resolution for the given date (today when no date, or an empty one, is
    given) and nothing else.  The metadata record of the entry stays, so
    [getOriginalUrl] still answers for the cleared entry as before. *)
Theorem clearCacheForDate_leaves_metadata (r : string) (date : option string) :
  (forall (H : handler) s, exists s', run H (clearCacheForDate r date) s = (Resolved tt, s')) /\
  (forall s,
     let d := if Str.truthy date then default "" date else todayString (sync s) in
     let s' := snd (run handle (clearCacheForDate r date) s) in
     sync s' = sync s /\
     idb (async s') !! cacheKey r d = None /\
     (forall key, key <> cacheKey r d -> idb (async s') !! key = idb (async s) !! key) /\
     fst (run handle (getOriginalUrl (cacheKey r d)) s') =
       fst (run handle (getOriginalUrl (cacheKey r d)) s)).
Proof.
  split.
  - intros H s.
    assert (Hsafe : safe (clearCacheForDate r date))
      by (unfold clearCacheForDate; by apply safe_try_catch).
    destruct (safe_run H _ Hsafe s) as ([] & s' & Hrun). eauto.
  - intros [m e]. cbv zeta. unfold clearCacheForDate. rewrite run_try_catch. simpl.
    split; [done |]. split; [apply lookup_delete_eq |].
    split; [intros key Hne; by apply lookup_delete_ne |].
    rewrite !run_getOriginalUrl. unfold storedOriginalUrl. simpl.
    rewrite lookup_delete_ne; [done |]. intros Heq. by apply (metadataKeyOf_ne _ (eq_sym Heq)).
Qed.

(* ===================================================================== *)
(** * More on the cleanup *)
(* ===================================================================== *)

Lemma cleanup_frame s :
  let s' := snd (run handle cleanupExpiredCache s) in
  handles (async s') = handles (async s) /\
  nextHandle (async s') = nextHandle (async s).
Proof. destruct s as [m [store hs nh net cw]]. by rewrite run_cleanupExpiredCache. Qed.

Lemma yesterday_not_before_cutoff t :
  (year (civil t) < 10000)%N ->
  Str.lt (format (daysAgo 1 t)) (format (daysAgo 3 t)) = false.
Proof.
  intros Hy. destruct (N.le_gt_cases 1 t) as [Ht | Ht].
  - rewrite (format_daysAgo 1 t) by done. apply cutoff_not_after; [lia | done].
  - assert (t = 0%N) as -> by lia. vm_compute. reflexivity.
Qed.

(** X18: the cleanup does not change what the resolver answers for a
    resolution that has an entry for today or for yesterday: the same
    entry is served, with the same origin. *)
Theorem cleanup_keeps_recent_tiers (r : string) (s : state) :
  r ∈ resolutions ->
  (year (civil (today (sync s))) < 10000)%N ->
  is_Some (idb (async s) !! getTodayCacheKey r (sync s)) \/
  is_Some (idb (async s) !! getYesterdayCacheKey r (sync s)) ->
  let s' := snd (run handle cleanupExpiredCache s) in
  fst (run handle (getSmartCache r) s') = fst (run handle (getSmartCache r) s).
Proof.
  intros Hr Hy Hrecent. cbv zeta.
  destruct (cleanup_by_key s Hy) as (_ & Hsync & _).
  destruct (cleanup_frame s) as [_ Hnh].
  set (s' := snd (run handle cleanupExpiredCache s)) in *.
  set (cutoff := format (daysAgo 3 (today (sync s)))).
  assert (Hkeep : forall d rest, Str.lt (format d) cutoff = false ->
            idb (async s') !! (cacheKey r (format d) +:+ rest) =
            idb (async s) !! (cacheKey r (format d) +:+ rest)).
  { intros d rest Hd. apply (cleanup_keeps s _ (format d)); [| done].
    by apply KeyFacts.matchDate_cacheKey_format. }
  assert (Hdata : forall d, Str.lt (format d) cutoff = false ->
            idb (async s') !! cacheKey r (format d) =
            idb (async s) !! cacheKey r (format d)).
  { intros d Hd. specialize (Hkeep d "" Hd).
    by rewrite KeyFacts.app_nil_r_string in Hkeep. }
  assert (Hmeta : forall d, Str.lt (format d) cutoff = false ->
            storedOriginalUrl (idb (async s')) (cacheKey r (format d)) =
            storedOriginalUrl (idb (async s)) (cacheKey r (format d))).
  { intros d Hd. unfold storedOriginalUrl, metadataKeyOf. by rewrite Hkeep. }
  assert (Htoday : Str.lt (format (civil (today (sync s)))) cutoff = false)
    by (apply (cutoff_not_after (today (sync s))); [lia | done]).
  assert (Hyesterday : Str.lt (format (daysAgo 1 (today (sync s)))) cutoff = false)
    by (by apply yesterday_not_before_cutoff).
  rewrite !run_getSmartCache. unfold resolveTier.
  unfold getTodayCacheKey, getYesterdayCacheKey, todayString, getLocalDateString in *.
  rewrite Hsync, !Hdata by done.
  destruct (idb (async s) !! cacheKey r (format (civil (today (sync s)))))
    as [b |]; [cbn [fst]; by rewrite Hnh, Hmeta by done |].
  destruct (idb (async s) !! cacheKey r (format (daysAgo 1 (today (sync s)))))
    as [b |]; [cbn [fst]; by rewrite Hnh, Hmeta by done |].
  destruct Hrecent as [[? ?] | [? ?]]; done.
Qed.

Lemma cleanup_keeps_recent_tiers_witness :
  let s := cachedState 20759 20758 "4k" offline in
  let s' := snd (run handle cleanupExpiredCache s) in
  fst (run handle (getSmartCache "4k") s') = fst (run handle (getSmartCache "4k") s).
Proof.
  assert (Hr : "4k" ∈ resolutions) by (apply list_elem_of_In; simpl; tauto).
  apply (cleanup_keeps_recent_tiers "4k" (cachedState 20759 20758 "4k" offline) Hr).
  - vm_compute. reflexivity.
  - right. vm_compute. eauto.
Defined.

(** X19: the cleanup is idempotent: a second run right after the first
    finds nothing to delete and leaves the state as it is. *)
Theorem cleanupExpiredCache_idempotent (s : state) :
  let s1 := snd (run handle cleanupExpiredCache s) in
  run handle cleanupExpiredCache s1 = (Resolved tt, s1).
Proof.
  destruct s as [m [store hs nh net cw]]. cbv zeta.
  rewrite run_cleanupExpiredCache. cbn [snd]. rewrite run_cleanupExpiredCache.
  cbn [today]. do 3 f_equal. apply map_eq. intros key.
  rewrite prune_lookup.
  destruct (bool_decide (key ∈ _) && expired _ key) eqn:Hdel; [| done].
  apply andb_prop in Hdel as [Hin%bool_decide_eq_true Hexp].
  apply list_elem_of_In, filter_In in Hin as [Hin Hprefix].
  apply list_elem_of_In, elem_of_elements, elem_of_dom in Hin as [b Hb].
  rewrite Hb. rewrite prune_lookup, Hexp, andb_true_r in Hb.
  case_bool_decide as Hin; [done |].
  exfalso. apply Hin, list_elem_of_In, filter_In. split; [| done].
  apply list_elem_of_In, elem_of_elements, elem_of_dom. eauto.
Qed.

Lemma deleteExpired_cleans cutoff keys : forall count,
  Forall (fun key => Str.startsWith key cachePrefix = true) keys ->
  always cleans (deleteExpired cutoff keys count).
Proof.
  induction keys as [| key keys IH]; intros count Hkeys; simpl; [done |].
  inversion Hkeys as [| ? ? Hkey Hrest]; subst.
  destruct (Str.matchDate key) as [d |] eqn:Hd; [| by apply IH].
  destruct (Str.lt d cutoff); [| by apply IH]. simpl.
  split; [rewrite Hd; eauto |]. split; [intros _; by apply IH | done].
Qed.

(** X20: whatever the store answers, the cleanup never rejects, and all
    it ever does is read the clock, list the keys and delete keys that
    start with the prefix of the wallpaper cache and carry a date: it
    writes nothing, requests nothing, and deletes no key of another
    module that shares the store. *)
Theorem cleanup_deletes_only_dated_wallpaper_keys :
  always cleans cleanupExpiredCache /\
  (forall (H : handler) s, exists s', run H cleanupExpiredCache s = (Resolved tt, s')).
Proof.
  split.
  - unfold cleanupExpiredCache. apply always_try_catch; [| done]. simpl.
    split; [done |]. split; [| done]. intros allKeys.
    split; [done |]. split; [| done]. intros cutoff.
    apply always_bind; [| done]. apply deleteExpired_cleans.
    apply Forall_forall. intros key Hin.
    by apply list_elem_of_In, filter_In in Hin as [_ Hin].
  - intros H s. destruct (safe_run H _ safe_cleanupExpiredCache s) as ([] & s' & Hrun). eauto.
Qed.

(* ===================================================================== *)
(** * Cache statistics *)
(* ===================================================================== *)

Lemma sumSizes_observes keys : forall acc, always observes (sumSizes keys acc).
Proof.
  induction keys as [| key keys IH]; intros acc; simpl; [done |].
  split; [done |]. split.
  - intros [b |]; simpl; apply IH.
  - intros e. simpl. apply IH.
Qed.

Lemma run_sumSizes keys : forall acc s,
  run handle (sumSizes keys acc) s = (Resolved (acc + sizesOf (idb (async s)) keys)%N, s).
Proof.
  induction keys as [| key keys IH]; intros acc s; simpl.
  - by rewrite N.add_0_r.
  - unfold sizeOf. destruct (idb (async s) !! key) as [b |]; simpl; rewrite IH.
    + by rewrite N.add_assoc.
    + done.
Qed.

Lemma getCacheStats_returns :
  returns (fun stats =>
             totalCount stats = length (cacheKeys stats) /\
             todayCount stats <= totalCount stats /\
             Forall (fun key => Str.startsWith key cachePrefix = true) (cacheKeys stats))
          getCacheStats.
Proof.
  unfold getCacheStats. apply returns_try_catch.
  - simpl. split; [| done]. intros allKeys. split; [| done]. intros today.
    apply returns_bind, returns_any. intros total. simpl.
    split; [done |]. split; [apply filter_length_le |].
    apply Forall_forall. intros key Hin.
    by apply list_elem_of_In, filter_In in Hin as [_ Hin].
  - intros e. simpl. split; [done |]. split; [done | constructor].
Qed.

Lemma safe_getCacheStats : safe getCacheStats.
Proof. unfold getCacheStats. by apply safe_try_catch. Qed.

(** X21: [getCacheStats] never rejects and only reads, whatever the
    store answers: it writes nothing, deletes nothing, requests nothing
    and mints no blob URL.  Its counts fit together: the total is the
    number of the keys it lists, the number for today is at most the
    total, and every listed key starts with the prefix of the wallpaper
    cache. *)
Theorem getCacheStats_consistent :
  always observes getCacheStats /\
  (forall (H : handler) s,
     exists stats s',
       run H getCacheStats s = (Resolved stats, s') /\
       totalCount stats = length (cacheKeys stats) /\
       todayCount stats <= totalCount stats /\
       Forall (fun key => Str.startsWith key cachePrefix = true) (cacheKeys stats)).
Proof.
  split.
  - unfold getCacheStats. apply always_try_catch; [| done]. simpl.
    split; [done |]. split; [| done]. intros allKeys.
    split; [done |]. split; [| done]. intros today.
    apply always_bind; [apply sumSizes_observes | done].
  - intros H s. destruct (safe_run H _ safe_getCacheStats s) as (stats & s' & Hrun).
    exists stats, s'. split; [done |].
    exact (returns_run _ H _ s stats s' getCacheStats_returns Hrun).
Qed.

(** X22: with a store that answers, [getCacheStats] leaves the state as
    it is and reports every key of the store that starts with the prefix
    of the wallpaper cache, the sum of the sizes stored under these keys,
    and how many of them contain today's date.  The metadata records are
    keys of this kind: each of them is listed and counted like an entry. *)
Theorem getCacheStats_reads_store (s : state) :
  let keys := List.filter (fun key => Str.startsWith key cachePrefix)
                          (elements (dom (idb (async s)))) in
  run handle getCacheStats s =
    (Resolved (mkStats (length keys)
                 (length (List.filter (fun key => Str.includes key (todayString (sync s))) keys))
                 (sizesOf (idb (async s)) keys) keys),
     s) /\
  (forall key, key ∈ keys <->
     is_Some (idb (async s) !! key) /\ Str.startsWith key cachePrefix = true) /\
  (forall r d, is_Some (idb (async s) !! metadataKeyOf (cacheKey r d)) ->
     metadataKeyOf (cacheKey r d) ∈ keys).
Proof.
  cbv zeta.
  assert (Hkeys : forall key,
    key ∈ List.filter (fun key => Str.startsWith key cachePrefix)
            (elements (dom (idb (async s)))) <->
    is_Some (idb (async s) !! key) /\ Str.startsWith key cachePrefix = true).
  { intros key. by rewrite list_elem_of_In, filter_In, <- list_elem_of_In,
      elem_of_elements, elem_of_dom. }
  split; [| split; [done |]].
  - destruct s as [m e]. unfold getCacheStats. rewrite run_try_catch.
    cbn -[sumSizes]. rewrite run_bind, run_sumSizes. reflexivity.
  - intros r d Hm. apply Hkeys. split; [done |]. apply KeyFacts.startsWith_metadataKey.
Qed.

(* ===================================================================== *)
(** * What the service keeps in every state of the event loop *)
(* ===================================================================== *)

Lemma throughout_bind {A B} Q (p : prog A) (f : A -> prog B) :
  throughout Q p -> (forall a, throughout Q (f a)) -> throughout Q (bind p f).
Proof.
  intros Hp Hf. induction p as [a | e | X a k IHk h IHh]; simpl in *; [done | done |].
  destruct Hp as (Ha & Hk & Hh). auto.
Qed.

Lemma throughout_try_catch {A} Q (p : prog A) (c : error -> prog A) :
  throughout Q p -> (forall e, throughout Q (c e)) -> throughout Q (try_catch p c).
Proof.
  intros Hp Hc. induction p as [a | e | X a k IHk h IHh]; simpl in *; [done | done |].
  destruct Hp as (Ha & Hk & Hh). auto.
Qed.

Lemma handle_answers X (a : action X) s x s' : handle X a s = (inl x, s') -> answers a x.
Proof.
  destruct a; simpl; try done.
  destruct (f (sync s)) as [x0 m'] eqn:Hf. intros [= <- _]. exists (sync s). by rewrite Hf.
Qed.

Section Lawful.

Variable I : mem -> Prop.
Variable store0 : gmap string Blob.

Hypothesis I_spawned : forall f m, I m -> I (set_spawned f m).
Hypothesis I_mark : forall r m, I m -> I (markUpdateSuccess r m).
Hypothesis I_retry : forall r m, I m -> I (scheduleRetry r m).
Hypothesis I_storage : forall f m, I m -> I (set_localStorage f m).
Hypothesis I_clock : forall n m, I m -> I (set_today n m).
Hypothesis I_timer : forall timerId m m', fireTimer timerId m = Some m' -> I m -> I m'.


Ltac lawful_step :=
  first
    [ apply throughout_try_catch
    | apply throughout_bind
    | match goal with
      | |- throughout _ (if ?b then _ else _) => destruct b eqn:?
      | |- throughout _ (match ?x with _ => _ end) => destruct x eqn:?
      | |- answers _ _ -> _ => intros [? ->]
      | |- forall _, _ => intro
      | |- _ /\ _ => split
      end ].

#[local] Transparent getOriginalUrl.

Lemma getOriginalUrl_lawful key : throughout (lawful I) (getOriginalUrl key).
Proof. unfold getOriginalUrl. repeat (lawful_step; simpl; try done). Qed.

#[local] Opaque getOriginalUrl.

#[local] Transparent serveEntry.

Lemma serveEntry_lawful key b t : throughout (lawful I) (serveEntry key b t).
Proof.
  unfold serveEntry. apply throughout_bind; [apply getOriginalUrl_lawful |].
  intros. simpl. done.
Qed.

#[local] Opaque serveEntry.

#[local] Transparent getSmartCache.

Lemma getSmartCache_lawful r : throughout (lawful I) (getSmartCache r).
Proof.
  unfold getSmartCache.
  repeat (first [apply serveEntry_lawful | lawful_step]; simpl; try done).
Qed.

#[local] Opaque getSmartCache.

#[local] Transparent downloadAndCache.

Lemma downloadAndCache_lawful u r : throughout (lawful I) (downloadAndCache u r).
Proof.
  unfold downloadAndCache.
  apply throughout_try_catch; [| done]. simpl.
  split; [done |]. split; [| done]. intros headers _.
  split; [done |]. split; [| done]. intros response _.
  destruct (Str.includes _ _); simpl; [done |].
  split; [done |]. split; [| done]. intros blob _.
  destruct (size blob =? 0)%N; simpl; [done |].
  apply throughout_bind.
  - destruct (_ || _); simpl; [done |]. split; [done |]. split; [| done].
    intros key _. apply throughout_bind; [apply getOriginalUrl_lawful |].
    intros existing. by destruct (Str.truthy existing).
  - intros source. destruct (_ && _); simpl; [done |].
    split; [done |]. split; [| done]. intros blobUrl _.
    split; [done |]. split; [| done]. intros key [m ->]. simpl.
    split; [split; [apply KeyFacts.startsWith_cacheKey | done] |]. split; [| done].
    intros _ _. split; [| done].
    split; [apply KeyFacts.startsWith_metadataKey | done].
Qed.

#[local] Opaque downloadAndCache.

Lemma clearTodayCache_lawful r : throughout (lawful I) (clearTodayCache r).
Proof.
  unfold clearTodayCache, clearCacheForDate. simpl.
  split; [done |]. split; [| done]. intros dateStr _.
  split; [| done]. split; [apply KeyFacts.startsWith_cacheKey | done].
Qed.

Lemma internal_lawful r : throughout (lawful I) (_getWallpaperInternal r).
Proof.
  unfold _getWallpaperInternal. apply throughout_try_catch; [| done].
  destruct (r =? "custom")%string.
  { simpl. split; [done |]. split; [| done].
    intros c _. by destruct (Str.truthy c). }
  apply throughout_bind; [by simpl |]. intros shouldRefresh.
  apply throughout_bind; [apply getSmartCache_lawful |]. intros cached.
  apply throughout_bind.
  { unfold serveFromCache.
    repeat (first [apply clearTodayCache_lawful | lawful_step];
            simpl; try done);
      by apply (I_spawned (fun l => l ++ [r])). }
  intros [w | fc]; [done |].
  unfold downloadFresh. simpl.
  split; [done |]. split; [| done]. intros wallpaperUrl _.
  destruct (wallpaperUrl =? fallbackImage)%string; [by destruct fc |].
  apply throughout_try_catch.
  - apply throughout_bind; [apply downloadAndCache_lawful |]. intros d.
    apply throughout_bind; [| done].
    destruct (negb (isFallback d)); simpl.
    + split; [auto |]. split; [| done]. intros _ _.
      destruct shouldRefresh; simpl; [| done].
      split; [done |]. split; [| done]. intros key [m ->]. simpl.
      split; [split; [apply KeyFacts.startsWith_cacheKey | done] |]. split; [| done].
      intros _ _. split; [| done].
      split; [apply KeyFacts.startsWith_metadataKey | done].
    + split; [auto |]. done.
  - intros e. destruct fc; [| done]. simpl. split; [auto |]. done.
Qed.

Lemma background_lawful r : throughout (lawful I) (updateWallpaperInBackground r).
Proof.
  unfold updateWallpaperInBackground. apply throughout_try_catch.
  - apply throughout_bind; [by simpl |]. intros wallpaperUrl.
    destruct (negb _); [| done].
    apply throughout_bind; [apply downloadAndCache_lawful |]. intros d.
    destruct (_ && _); simpl; [split; [auto |]; done |].
    destruct (isFallback d); simpl; [| done]. split; [auto |]. done.
  - intros e. simpl. split; [auto |]. done.
Qed.

Lemma deleteExpired_lawful cutoff keys : forall count,
  Forall (fun key => Str.startsWith key cachePrefix = true) keys ->
  throughout (lawful I) (deleteExpired cutoff keys count).
Proof.
  induction keys as [| key keys IH]; intros count Hkeys; simpl; [done |].
  inversion Hkeys as [| ? ? Hkey Hrest]; subst.
  destruct (Str.matchDate key) as [d |]; [| by apply IH].
  destruct (Str.lt d cutoff); [| by apply IH]. simpl.
  split; [done |]. split; [intros _ _; by apply IH | done].
Qed.

Lemma cleanup_lawful : throughout (lawful I) cleanupExpiredCache.
Proof.
  unfold cleanupExpiredCache. apply throughout_try_catch; [| done]. simpl.
  split; [done |]. split; [| done]. intros allKeys _.
  split; [done |]. split; [| done]. intros cutoff _.
  apply throughout_bind; [| done]. apply deleteExpired_lawful.
  apply Forall_forall. intros key Hin.
  by apply list_elem_of_In, filter_In in Hin as [_ Hin].
Qed.

Lemma preloadMissing_lawful rs : throughout (lawful I) (preloadMissing rs).
Proof.
  induction rs as [| r rs IH]; simpl; [done |].
  split; [done |]. split; [| done]. intros key _.
  split; [done |]. split; [| done]. intros [b |] _; simpl; [done |].
  split; [split; [done |]; intros m Hm; by apply (I_spawned (fun l => l ++ [r])) |].
  split; [| done]. intros _ _. apply IH.
Qed.

Lemma dailyCheck_lawful : throughout (lawful I) performDailyCheck.
Proof.
  unfold performDailyCheck. apply throughout_try_catch; [| done].
  apply throughout_bind; [by simpl |]. intros [|]; [done |].
  apply throughout_bind.
  { simpl. split; [| done]. split; [done |]. intros m Hm.
    by apply (I_storage <[dailyCheckKey := todayString m]>). }
  intros _.
  apply throughout_bind; [apply preloadMissing_lawful |]. intros _. apply cleanup_lawful.
Qed.

Lemma lawful_detach a : lawful I unit (Detach a) -> lawful I unit a.
Proof. done. Qed.

Lemma handle_lawful X (a : action X) : forall s, lawful I X a -> abides I store0 s -> abides I store0 (handle X a s).2.
Proof.
  unfold abides, foreignKeysAsIn.
  induction a; intros s [Hn Hk] [HI Hs]; simpl in *; try done;
    try (by repeat case_match).
  - destruct (f (sync s)) as [x m'] eqn:Hf. simpl. split; [| done].
    specialize (Hk (sync s) HI). by rewrite Hf in Hk.
  - split; [done |]. intros k Hforeign. rewrite lookup_insert_ne; [auto |]. congruence.
  - split; [done |]. intros k Hforeign. rewrite lookup_delete_ne; [auto |]. congruence.
  - by apply IHa.
Qed.

Lemma lawful_complete {A} fault (p p1 : prog A) s s1 :
  complete fault p s = Some (p1, s1) -> throughout (lawful I) p -> abides I store0 s ->
  throughout (lawful I) p1 /\ abides I store0 s1.
Proof.
  destruct p as [a | e | X a k h]; simpl; try done.
  intros Hc (Ha & Hk & Hh) Hs. destruct fault as [e |].
  - by injection Hc as <- <-.
  - pose proof (handle_lawful X a s Ha Hs) as Hs'.
    pose proof (handle_answers X a s) as Hans.
    destruct (handle X a s) as [[x | e] s']; injection Hc as <- <-; eauto.
Qed.

Lemma lawful_advance {A} (p : prog A) : forall m ws e,
  throughout (lawful I) p -> Forall (lawful I unit) ws -> abides I store0 (mkState m e) ->
  throughout (lawful I) (advance p m ws).1.1 /\
  Forall (lawful I unit) (advance p m ws).2 /\
  abides I store0 (mkState (advance p m ws).1.2 e).
Proof.
  induction p as [a | err | X a k IHk h IHh]; simpl; intros m ws e Hp Hws Hs; try done.
  destruct Hp as (Ha & Hk & Hh).
  destruct a; simpl; try done.
  - pose proof (handle_lawful _ (Sync f) (mkState m e) Ha Hs) as Hs'. simpl in Hs'.
    destruct (f m) as [x m'] eqn:Hf. apply IHk; [| done | done].
    apply Hk. exists m. by rewrite Hf.
  - apply IHk; [by apply Hk | | done].
    apply Forall_app. split; [done |]. constructor; [by apply lawful_detach | done].
Qed.

Lemma lawful_start label p σ :
  throughout (lawful I) p -> governed (lawful I) (abides I store0) σ -> governed (lawful I) (abides I store0) (start label p σ).
Proof.
  intros Hp [H1 H2 H3 H4]. unfold start.
  assert (Hs : abides I store0 (mkState (sync (st σ)) (async (st σ)))) by (by destruct (st σ)).
  destruct (lawful_advance p (sync (st σ)) (detached σ) (async (st σ)) Hp H4 Hs)
    as (Hp' & Hws' & Hs').
  destruct (advance p (sync (st σ)) (detached σ)) as [[p' m] ws].
  split; simpl in *; try done.
  apply Forall_app. split; [done |]. by constructor.
Qed.

Lemma lawful_absorb σ : governed (lawful I) (abides I store0) σ -> governed (lawful I) (abides I store0) (absorb σ).
Proof.
  intros Hσ. unfold absorb.
  assert (forall rs σ0, governed (lawful I) (abides I store0) σ0 -> governed (lawful I) (abides I store0)
            (foldl (fun σ r => start (Some r) (updateWallpaperInBackground r) σ) σ0 rs)) as H.
  { induction rs as [| r rs IH]; intros σ0 H0; simpl; [done |].
    apply IH, lawful_start; [apply background_lawful | done]. }
  apply H. destruct Hσ as [[HI Hs] H2 H3 H4]. split; simpl; try done.
  split; [by apply I_spawned | done].
Qed.

Lemma lawful_boot s0 :
  I (sync s0) -> idb (async s0) = store0 -> governed (lawful I) (abides I store0) (boot s0).
Proof.
  intros HI Hs. split; simpl; try constructor; [done |].
  intros key _. by rewrite Hs.
Qed.

Lemma lawful_step e σ σ' : step e σ = Some σ' -> governed (lawful I) (abides I store0) σ -> governed (lawful I) (abides I store0) σ'.
Proof.
  intros Hstep Hσ. pose proof Hσ as [H1 H2 H3 H4].
  assert (Hs : abides I store0 (mkState (sync (st σ)) (async (st σ)))) by (by destruct (st σ)).
  destruct e; simpl in Hstep.
  - (* Call *)
    destruct (loadingPromises σ !! loadingKeyOf resolution) as [pid |].
    + injection Hstep as <-. by split.
    + destruct (lawful_advance (_getWallpaperInternal resolution) (sync (st σ)) (detached σ)
                  (async (st σ)) (internal_lawful resolution) H4 Hs) as (Hp & Hws & Hs').
      destruct (advance (_getWallpaperInternal resolution) (sync (st σ)) (detached σ))
        as [[p m] ws].
      injection Hstep as <-. apply lawful_absorb. split; simpl in *; try done.
      apply Forall_app. split; [done |]. by constructor.
  - (* PromiseStep *)
    destruct (promises σ !! pid) as [[r p] |] eqn:Hp; simpl in Hstep; [| done].
    destruct (complete fault p (st σ)) as [[p1 s1] |] eqn:Hc; simpl in Hstep; [| done].
    pose proof (Forall_lookup_1 _ _ _ _ H2 Hp) as Hpa. simpl in Hpa.
    destruct (lawful_complete _ _ _ _ _ Hc Hpa H1) as [Hp1 Hs1].
    assert (Hs1' : abides I store0 (mkState (sync s1) (async s1))) by (by destruct s1).
    destruct (lawful_advance p1 (sync s1) (detached σ) (async s1) Hp1 H4 Hs1')
      as (Hp2 & Hws & Hs2).
    destruct (advance p1 (sync s1) (detached σ)) as [[p2 m] ws].
    injection Hstep as <-. apply lawful_absorb. split; simpl in *; try done.
    by apply Forall_insert.
  - (* TaskStep *)
    destruct (tasks σ !! tid) as [[l p] |] eqn:Hp; simpl in Hstep; [| done].
    destruct (complete fault p (st σ)) as [[p1 s1] |] eqn:Hc; simpl in Hstep; [| done].
    pose proof (Forall_lookup_1 _ _ _ _ H3 Hp) as Hpa. simpl in Hpa.
    destruct (lawful_complete _ _ _ _ _ Hc Hpa H1) as [Hp1 Hs1].
    assert (Hs1' : abides I store0 (mkState (sync s1) (async s1))) by (by destruct s1).
    destruct (lawful_advance p1 (sync s1) (detached σ) (async s1) Hp1 H4 Hs1')
      as (Hp2 & Hws & Hs2).
    destruct (advance p1 (sync s1) (detached σ)) as [[p2 m] ws].
    injection Hstep as <-. apply lawful_absorb. split; simpl in *; try done.
    by apply Forall_insert.
  - (* Lands *)
    destruct (detached σ !! i) as [a |] eqn:Ha; simpl in Hstep; [| done].
    injection Hstep as <-. split; simpl; try done.
    + destruct fault; [done |].
      apply handle_lawful; [| done]. by eapply (Forall_lookup_1 _ _ _ _ H4).
    + by apply Forall_delete.
  - (* Resume *)
    destruct (callers σ !! cid) as [[r c] |]; simpl in Hstep; [| done].
    destruct c as [pid | pid | pid o]; [| | done];
      (destruct (promises σ !! pid) as [[r0 p] |]; simpl in Hstep; [| done]);
      (destruct (outcomeOf p); simpl in Hstep; [| done]);
      injection Hstep as <-; by split.
  - (* TimerFires *)
    destruct (fireTimer timerId (sync (st σ))) as [m |] eqn:Hfire; simpl in Hstep; [| done].
    injection Hstep as <-. apply lawful_absorb. split; simpl; try done.
    destruct Hs as [HI Hfr]. split; [by eapply I_timer | done].
  - (* PageVisible *)
    injection Hstep as <-. apply lawful_absorb. split; simpl; try done.
    destruct Hs as [HI Hfr]. split; [| done].
    unfold onPageVisible. rewrite onPageVisible_fold. by apply I_spawned.
  - injection Hstep as <-. by apply lawful_absorb, lawful_start; [apply dailyCheck_lawful |].
  - injection Hstep as <-. by apply lawful_absorb, lawful_start; [apply cleanup_lawful |].
  - (* Midnight *)
    injection Hstep as <-. split; simpl; try done.
    destruct Hs as [HI Hfr]. split; [by apply I_clock | done].
  - injection Hstep as <-. split; simpl; try done; by destruct Hs.
  - injection Hstep as <-. split; simpl; try done; by destruct Hs.
Qed.

Lemma lawful_reachable s0 σ :
  I (sync s0) -> idb (async s0) = store0 -> reachable s0 σ ->
  I (sync (st σ)) /\ foreignKeysAsIn store0 (st σ).
Proof.
  intros HI Hs Hr.
  assert (governed (lawful I) (abides I store0) σ) as [H1 _ _ _].
  { induction Hr as [| σ e σ' _ IH Hstep]; [by apply lawful_boot |]. by eapply lawful_step. }
  exact H1.
Qed.

End Lawful.

(** X23: the service keeps to its own keys.  In every state the event
    loop can reach, whatever the collaborators answer and however calls,
    background updates, timers and cleanups interleave, a key of the
    binary store that does not start with the prefix of the wallpaper
    cache holds what it held when the service started. *)
Theorem service_stays_in_its_namespace (s0 : state) (σ : system) :
  reachable s0 σ ->
  forall key, Str.startsWith key cachePrefix = false ->
    idb (async (st σ)) !! key = idb (async s0) !! key.
Proof.
  intros Hr.
  destruct (lawful_reachable (fun _ => True) (idb (async s0))) with (s0 := s0) (σ := σ)
    as [_ Hframe]; auto.
Qed.

Lemma service_stays_in_its_namespace_witness :
  let s0 := freshState 20759 (online 900000) in
  let σ := after [Call "4k"; PromiseStep 0 None; PromiseStep 0 None; PromiseStep 0 None;
                  PromiseStep 0 None; PromiseStep 0 None; PromiseStep 0 None;
                  Lands 0 None; Lands 0 None; Cleanup] s0 in
  idb (async (st σ)) !! "user-settings" = idb (async s0) !! "user-settings".
Proof.
  cbv zeta.
  apply (service_stays_in_its_namespace (freshState 20759 (online 900000))).
  - apply after_reachable. vm_compute. reflexivity.
  - reflexivity.
Defined.

(* ===================================================================== *)
(** * The books of the retry scheduler *)
(* ===================================================================== *)

Lemma retryBooks_spawned f m : retryBooks m -> retryBooks (set_spawned f m).
Proof. intros [H1 H2 H3 H4]. by split. Qed.

Lemma retryBooks_storage f m : retryBooks m -> retryBooks (set_localStorage f m).
Proof. intros [H1 H2 H3 H4]. by split. Qed.

Lemma retryBooks_clock n m : retryBooks m -> retryBooks (set_today n m).
Proof. intros [H1 H2 H3 H4]. by split. Qed.

Lemma retryBooks_mark r m : retryBooks m -> retryBooks (markUpdateSuccess r m).
Proof.
  intros [H1 H2 H3 H4].
  destruct (markUpdateSuccess_retry r m) as (Ht & Hc & Hto & Hn & _).
  split.
  - intros key timerId. rewrite Ht, Hto. intros [Hne Hk]%lookup_delete_Some.
    destruct (H1 _ _ Hk) as (t & Htimer & Hkey). exists t. split; [| done].
    destruct (retryTimers m !! retryKeyOf r) as [id0 |] eqn:Hpending; [| done].
    rewrite lookup_delete_ne; [done |]. intros ->.
    destruct (H1 _ _ Hpending) as (t0 & Htimer0 & Hkey0). congruence.
  - intros timerId t. rewrite Ht, Hto. intros Htimer.
    assert (Hold : timeouts m !! timerId = Some t).
    { destruct (retryTimers m !! retryKeyOf r); [| done].
      by apply lookup_delete_Some in Htimer as [_ ?]. }
    destruct (H2 _ _ Hold) as (Hk & Hrest). split; [| done].
    rewrite lookup_delete_ne; [done |]. intros Heq. rewrite <- Heq in Hk.
    rewrite Hk in Htimer. by rewrite lookup_delete_eq in Htimer.
  - intros timerId t. rewrite Hto, Hn. intros Htimer. apply (H3 timerId t).
    destruct (retryTimers m !! retryKeyOf r); [| done].
    by apply lookup_delete_Some in Htimer as [_ ?].
  - intros r' c. rewrite Hc. intros [_ Hold]%lookup_delete_Some. eauto.
Qed.

Lemma retryBooks_retry r m : retryBooks m -> retryBooks (scheduleRetry r m).
Proof.
  intros HI. destruct (retryTimers m !! retryKeyOf r) as [timerId |] eqn:Hpending.
  { rewrite scheduleRetry_pending; [done | rewrite Hpending; eauto]. }
  destruct (le_lt_dec MAX_RETRY_COUNT (default 0 (retryCounts m !! r))) as [Hmax | Hlt].
  { by rewrite scheduleRetry_exhausted. }
  rewrite scheduleRetry_arms by done. destruct HI as [H1 H2 H3 H4].
  split; simpl.
  - intros key timerId [[<- <-] | [Hne Hk]]%lookup_insert_Some.
    + eexists. split; [apply lookup_insert_eq | done].
    + destruct (H1 _ _ Hk) as (t & Htimer & Hkey). exists t. split; [| done].
      rewrite lookup_insert_ne; [done |]. pose proof (H3 _ _ Htimer). lia.
  - intros timerId t [[<- <-] | [Hne Htimer]]%lookup_insert_Some; simpl.
    + split; [apply lookup_insert_eq | done].
    + destruct (H2 _ _ Htimer) as (Hk & Hrest). split; [| done].
      rewrite lookup_insert_ne; [done |]. congruence.
  - intros timerId t [[<- <-] | [Hne Htimer]]%lookup_insert_Some; [lia |].
    pose proof (H3 _ _ Htimer). lia.
  - done.
Qed.

Lemma retryBooks_timer timerId m m' :
  fireTimer timerId m = Some m' -> retryBooks m -> retryBooks m'.
Proof.
  unfold fireTimer. destruct (timeouts m !! timerId) as [t |] eqn:Ht; [| done].
  intros [= <-] [H1 H2 H3 H4].
  destruct (H2 _ _ Ht) as (Hk & _ & Hcount & _).
  split; simpl.
  - intros key id [Hne Hold]%lookup_delete_Some.
    destruct (H1 _ _ Hold) as (t' & Htimer & Hkey). exists t'. split; [| done].
    rewrite lookup_delete_ne; [done |]. congruence.
  - intros id t' [Hne Hold]%lookup_delete_Some.
    destruct (H2 _ _ Hold) as (Hk' & Hrest). split; [| done].
    rewrite lookup_delete_ne; [done |]. congruence.
  - intros id t' [_ Hold]%lookup_delete_Some. eauto.
  - intros r c [[<- <-] | [_ Hold]]%lookup_insert_Some; [lia | eauto].
Qed.

Lemma retryBooks_reachable s0 σ :
  retryBooks (sync s0) -> reachable s0 σ -> retryBooks (sync (st σ)).
Proof.
  intros HI Hr.
  destruct (lawful_reachable retryBooks (idb (async s0))) with (s0 := s0) (σ := σ)
    as [Hbooks _];
    auto using retryBooks_spawned, retryBooks_mark, retryBooks_retry, retryBooks_storage,
               retryBooks_clock.
  apply retryBooks_timer.
Qed.

Lemma delayOf_in_table c : delayOf c ∈ RETRY_DELAYS_MS.
Proof.
  unfold delayOf. apply list_elem_of_In, nth_In.
  apply Nat.mod_upper_bound. done.
Qed.

(** X24: the books of the retry scheduler stay in order in every state
    the event loop can reach.  A resolution with a pending retry has a
    live timer that [scheduleRetry] armed for it, after fewer than 8
    attempts, with the delay of the table for that count, so that no
    retry is ever blocked by an entry whose timer is gone; no resolution
    has two timers pending; every pending delay is one of the table; and
    no attempt count exceeds 8. *)
Theorem retry_books_stay_in_order (s0 : state) (σ : system) :
  retryBooks (sync s0) -> reachable s0 σ ->
  let m := sync (st σ) in
  (forall r timerId, retryTimers m !! retryKeyOf r = Some timerId ->
     exists c, c < MAX_RETRY_COUNT /\
       timeouts m !! timerId = Some (mkTimer (retryKeyOf r) r c (delayOf c))) /\
  (forall id1 id2 t1 t2,
     timeouts m !! id1 = Some t1 -> timeouts m !! id2 = Some t2 ->
     t_resolution t1 = t_resolution t2 -> id1 = id2) /\
  (forall timerId t, timeouts m !! timerId = Some t -> t_delayMs t ∈ RETRY_DELAYS_MS) /\
  (forall r c, retryCounts m !! r = Some c -> c <= MAX_RETRY_COUNT).
Proof.
  intros HI Hr. cbv zeta.
  destruct (retryBooks_reachable s0 σ HI Hr) as [H1 H2 H3 H4].
  split; [| split; [| split]].
  - intros r timerId Hpending.
    destruct (H1 _ _ Hpending) as ([key r' c d] & Htimer & Hkey).
    destruct (H2 _ _ Htimer) as (_ & Hk & Hc & Hd). simpl in *. subst.
    apply retryKeyOf_inj in Hk as ->. eauto.
  - intros id1 id2 t1 t2 Ht1 Ht2 Hres.
    destruct (H2 _ _ Ht1) as (Hp1 & Hk1 & _). destruct (H2 _ _ Ht2) as (Hp2 & Hk2 & _).
    rewrite Hk1, Hres, <- Hk2, Hp2 in Hp1. congruence.
  - intros timerId t Htimer. destruct (H2 _ _ Htimer) as (_ & _ & _ & ->).
    apply delayOf_in_table.
  - exact H4.
Qed.

Lemma retry_books_stay_in_order_witness :
  let s0 := freshState 20759 offline in
  let σ := after [PageVisible; TaskStep 0 None; TaskStep 2 None] s0 in
  let m := sync (st σ) in
  (forall r timerId, retryTimers m !! retryKeyOf r = Some timerId ->
     exists c, c < MAX_RETRY_COUNT /\
       timeouts m !! timerId = Some (mkTimer (retryKeyOf r) r c (delayOf c))) /\
  (forall id1 id2 t1 t2,
     timeouts m !! id1 = Some t1 -> timeouts m !! id2 = Some t2 ->
     t_resolution t1 = t_resolution t2 -> id1 = id2) /\
  (forall timerId t, timeouts m !! timerId = Some t -> t_delayMs t ∈ RETRY_DELAYS_MS) /\
  (forall r c, retryCounts m !! r = Some c -> c <= MAX_RETRY_COUNT).
Proof.
  apply (retry_books_stay_in_order (freshState 20759 offline)).
  - split; simpl; intros *; rewrite lookup_empty; discriminate.
  - apply after_reachable. vm_compute. reflexivity.
Defined.

(** The state of that witness: two retries pending, each with its timer. *)
Example two_retries_pending :
  let σ := after [PageVisible; TaskStep 0 None; TaskStep 2 None] (freshState 20759 offline) in
  retryTimers (sync (st σ)) !! retryKeyOf "1080p" = Some 0 /\
  retryTimers (sync (st σ)) !! retryKeyOf "4k" = Some 1 /\
  timeouts (sync (st σ)) !! 1 = Some (mkTimer (retryKeyOf "4k") "4k" 0 30000).
Proof. split; [| split]; vm_compute; reflexivity. Qed.

(* ===================================================================== *)
(** * Work nobody awaits *)
(* ===================================================================== *)

Lemma settles_advance {A} (p : prog A) : forall m ws,
  settles p -> settles (advance p m ws).1.1 /\ suspended (advance p m ws).1.1.
Proof.
  induction p as [a | e | X a k IHk h IHh]; simpl; intros m ws Hs; try done.
  destruct a; simpl; try done.
  - destruct (f m) as [x m']. apply IHk, Hs.
  - apply IHk, Hs.
Qed.

Lemma settles_complete {A} fault (p p1 : prog A) s s1 :
  complete fault p s = Some (p1, s1) -> settles p -> suspended p -> settles p1.
Proof.
  destruct p as [a | e | X a k h]; simpl; try done.
  intros Hc [Hk Hh] Hsus. destruct fault as [e |].
  - injection Hc as <- _. by apply Hh.
  - destruct (handle X a s) as [[x | e] s']; injection Hc as <- _; [apply Hk | by apply Hh].
Qed.

Lemma tasks_start (label : option string) p σ :
  settles p ->
  Forall (fun lp => settles lp.2 /\ suspended lp.2) (tasks σ) ->
  Forall (fun lp => settles lp.2 /\ suspended lp.2) (tasks (start label p σ)).
Proof.
  intros Hp Hσ. unfold start.
  pose proof (settles_advance p (sync (st σ)) (detached σ) Hp) as Hadv.
  destruct (advance p (sync (st σ)) (detached σ)) as [[p' m] ws]. simpl in *.
  apply Forall_app. split; [done |]. by constructor.
Qed.

Lemma tasks_absorb σ :
  Forall (fun lp => settles lp.2 /\ suspended lp.2) (tasks σ) ->
  Forall (fun lp => settles lp.2 /\ suspended lp.2) (tasks (absorb σ)).
Proof.
  intros Hσ. unfold absorb.
  assert (forall rs σ0,
            Forall (fun lp => settles lp.2 /\ suspended lp.2) (tasks σ0) ->
            Forall (fun lp => settles lp.2 /\ suspended lp.2)
              (tasks (foldl (fun σ r => start (Some r) (updateWallpaperInBackground r) σ)
                            σ0 rs))) as H.
  { induction rs as [| r rs IH]; intros σ0 H0; simpl; [done |].
    apply IH, tasks_start; [apply settles_background | done]. }
  by apply H.
Qed.

Lemma tasks_step e σ σ' :
  step e σ = Some σ' ->
  Forall (fun lp => settles lp.2 /\ suspended lp.2) (tasks σ) ->
  Forall (fun lp => settles lp.2 /\ suspended lp.2) (tasks σ').
Proof.
  intros Hstep Hσ. destruct e; simpl in Hstep.
  - destruct (loadingPromises σ !! loadingKeyOf resolution) as [pid |].
    + by injection Hstep as <-.
    + destruct (advance (_getWallpaperInternal resolution) (sync (st σ)) (detached σ))
        as [[p m] ws].
      injection Hstep as <-. by apply tasks_absorb.
  - destruct (promises σ !! pid) as [[r p] |]; simpl in Hstep; [| done].
    destruct (complete fault p (st σ)) as [[p1 s1] |]; simpl in Hstep; [| done].
    destruct (advance p1 (sync s1) (detached σ)) as [[p2 m] ws].
    injection Hstep as <-. by apply tasks_absorb.
  - destruct (tasks σ !! tid) as [[l p] |] eqn:Hp; simpl in Hstep; [| done].
    destruct (complete fault p (st σ)) as [[p1 s1] |] eqn:Hc; simpl in Hstep; [| done].
    destruct (Forall_lookup_1 _ _ _ _ Hσ Hp) as [Hset Hsus]. simpl in Hset, Hsus.
    pose proof (settles_advance p1 (sync s1) (detached σ)
                  (settles_complete _ _ _ _ _ Hc Hset Hsus)) as Hadv.
    destruct (advance p1 (sync s1) (detached σ)) as [[p2 m] ws].
    injection Hstep as <-. apply tasks_absorb. simpl in *. by apply Forall_insert.
  - destruct (detached σ !! i) as [a |]; simpl in Hstep; [| done].
    by injection Hstep as <-.
  - destruct (callers σ !! cid) as [[r c] |]; simpl in Hstep; [| done].
    destruct c as [pid | pid | pid o]; [| | done];
      (destruct (promises σ !! pid) as [[r0 p] |]; simpl in Hstep; [| done]);
      (destruct (outcomeOf p); simpl in Hstep; [| done]);
      by injection Hstep as <-.
  - destruct (fireTimer timerId (sync (st σ))) as [m |]; simpl in Hstep; [| done].
    injection Hstep as <-. by apply tasks_absorb.
  - injection Hstep as <-. by apply tasks_absorb.
  - injection Hstep as <-.
    by apply tasks_absorb, tasks_start; [apply safe_settles, safe_performDailyCheck |].
  - injection Hstep as <-.
    by apply tasks_absorb, tasks_start; [apply safe_settles, safe_cleanupExpiredCache |].
  - by injection Hstep as <-.
  - by injection Hstep as <-.
  - by injection Hstep as <-.
Qed.

(** X25: work that nobody awaits never ends with an exception.  In every
    state the event loop can reach, whatever the collaborators answer, no
    background update, daily check or cleanup has rejected (synchronous
    code not throwing): the handlers chained to them with [.catch] at the
    call sites have nothing to catch. *)
Theorem background_work_never_rejects (s0 : state) (σ : system) :
  reachable s0 σ ->
  rejectedTasks σ = 0 /\
  (forall tid label p o,
     tasks σ !! tid = Some (label, p) -> outcomeOf p = Some o -> o = Resolved tt).
Proof.
  intros Hr.
  assert (Hσ : Forall (fun lp => settles lp.2 /\ suspended lp.2) (tasks σ)).
  { induction Hr as [| σ e σ' _ IH Hstep]; [constructor | by eapply tasks_step]. }
  split.
  - unfold rejectedTasks. induction Hσ as [| [l p] rest [Hset _] _ IH]; [done |].
    simpl. unfold rejected at 1. simpl. by destruct p as [[] | e | X a k h].
  - intros tid label p o Hp Ho.
    destruct (Forall_lookup_1 _ _ _ _ Hσ Hp) as [Hset _]. simpl in Hset.
    destruct p as [[] | e | X a k h]; simpl in *; [by injection Ho as <- | done | done].
Qed.

Lemma background_work_never_rejects_witness :
  let s0 := freshState 20759 offline in
  let σ := after [PageVisible; TaskStep 0 None; TaskStep 1 (Some StorageError); DailyCheck;
                  TaskStep 4 (Some StorageError)] s0 in
  rejectedTasks σ = 0 /\
  (forall tid label p o,
     tasks σ !! tid = Some (label, p) -> outcomeOf p = Some o -> o = Resolved tt).
Proof.
  apply (background_work_never_rejects (freshState 20759 offline)).
  apply after_reachable. vm_compute. reflexivity.
Defined.

(* ===================================================================== *)
(** * Payloads in the store *)
(* ===================================================================== *)

(** X26: no empty payload ever reaches the binary store.  Started with a
    store without empty payloads, the service holds none in any state the
    event loop can reach, whatever the network delivers: every write it
    issues, awaited or not, carries the payload of a download that passed
    the emptiness check, or a metadata record. *)
Theorem store_never_holds_empty_payload (s0 : state) (σ : system) :
  allNonEmpty (idb (async s0)) -> reachable s0 σ ->
  (forall key b, idb (async (st σ)) !! key = Some b -> (0 < size b)%N) /\
  Forall (storesNonEmpty unit) (detached σ).
Proof.
  intros H0 Hr.
  assert (writesNonEmpty σ) as [H1 _ _ H4].
  { induction Hr as [| σ e σ' _ IH Hstep]; [by apply boot_writes |]. by eapply step_writes. }
  done.
Qed.

Lemma store_never_holds_empty_payload_witness :
  let s0 := cachedState 20759 20758 "4k" (online 900000) in
  let σ := after [PageVisible; TaskStep 2 None; TaskStep 2 None; TaskStep 2 None;
                  Lands 0 None] s0 in
  (forall key b, idb (async (st σ)) !! key = Some b -> (0 < size b)%N) /\
  Forall (storesNonEmpty unit) (detached σ).
Proof.
  apply (store_never_holds_empty_payload (cachedState 20759 20758 "4k" (online 900000))).
  - intros key b Hb. apply storeWith_lookup in Hb.
    destruct Hb as [[_ ->] | [_ ->]]; reflexivity.
  - apply after_reachable. vm_compute. reflexivity.
Defined.

(* ===================================================================== *)
(** * Cache keys *)
(* ===================================================================== *)

Lemma append_inv_length a : forall a' b b',
  a +:+ b = a' +:+ b' -> String.length b = String.length b' -> a = a' /\ b = b'.
Proof.
  induction a as [| c a IH]; intros [| c' a'] b b' Heq Hlen.
  - done.
  - rewrite KeyFacts.app_nil in Heq. subst b.
    rewrite length_append in Hlen. simpl in Hlen. lia.
  - rewrite KeyFacts.app_nil in Heq. subst b'.
    rewrite length_append in Hlen. simpl in Hlen. lia.
  - rewrite !KeyFacts.app_cons in Heq. injection Heq as -> Heq.
    destruct (IH _ _ _ Heq Hlen) as [-> ->]. done.
Qed.

Lemma lastChar_append a c b : lastChar (a +:+ String c b) = lastChar (String c b).
Proof.
  induction a as [| x a IH]; [done |]. rewrite KeyFacts.app_cons.
  destruct (a +:+ String c b) as [| y t] eqn:Heq; [by destruct a |].
  rewrite <- IH. done.
Qed.

Lemma lastChar_nonEmpty a b : Str.nonEmpty b = true -> lastChar (a +:+ b) = lastChar b.
Proof. destruct b as [| c b]; [done |]. intros _. apply lastChar_append. Qed.

Lemma cacheKey_inj r r' d d' :
  cacheKey r d = cacheKey r' d' -> String.length d = String.length d' -> r = r' /\ d = d'.
Proof.
  unfold cacheKey. intros Heq%append_inv_head Hlen.
  apply append_inv_length in Heq as [-> Heq]; [| by rewrite !length_append, Hlen].
  by apply (append_inv_head "-") in Heq.
Qed.

(** X27: a cache key names one entry.  Two keys built for dates are
    equal only when resolution and date string are; for years up to 9999
    the day is then the same too; and the key of an entry is never the key
    of a metadata record. *)
Theorem cache_keys_are_unambiguous (r r' : string) (n n' : N) :
  (cacheKey r (getLocalDateString n) = cacheKey r' (getLocalDateString n') ->
   r = r' /\ getLocalDateString n = getLocalDateString n') /\
  ((year (civil n) < 10000)%N -> (year (civil n') < 10000)%N ->
   cacheKey r (getLocalDateString n) = cacheKey r' (getLocalDateString n') ->
   r = r' /\ n = n') /\
  cacheKey r (getLocalDateString n) <> metadataKeyOf (cacheKey r' (getLocalDateString n')).
Proof.
  assert (Hinj : cacheKey r (getLocalDateString n) = cacheKey r' (getLocalDateString n') ->
                 r = r' /\ getLocalDateString n = getLocalDateString n').
  { intros Heq. by apply cacheKey_inj. }
  split; [done |]. split.
  - intros Hy Hy' [-> Hd]%Hinj. split; [done |].
    destruct (N.lt_trichotomy n n') as [Hlt | [-> | Hgt]]; [| done |].
    + by destruct (getLocalDateString_ne n n' Hlt Hy').
    + by destruct (getLocalDateString_ne n' n Hgt Hy).
  - intros Heq%(f_equal lastChar). revert Heq.
    unfold metadataKeyOf, cacheKey. rewrite <- !KeyFacts.app_assoc_string.
    rewrite !lastChar_nonEmpty by done.
    intros Hlast.
    pose proof (KeyFacts.allChars_lastChar isDateChar _ _
                  (KeyFacts.format_chars (civil n)) Hlast) as Hchar.
    discriminate Hchar.
Qed.

(* ===================================================================== *)
(** * What a download reports *)
(* ===================================================================== *)

(** X28: what a resolved download reports.  Its blob URL is the next
    one of the allocator and stands for the payload of the response.  It is flagged as a
    fallback exactly when the resolution is 4k and the payload is below
    500 KB.  Its origin is the [X-Wallpaper-Source] header when that is an
    absolute URL; otherwise (the header says ['cache'], say) it is the
    origin already recorded next to today's entry, when there is a
    non-empty one, so that a later download keeps the origin an earlier
    one recorded; and otherwise it is the request URL. *)
Theorem download_report (u r : string) (s s' : state) (resp : Response) (d : Downloaded) :
  network (async s) (proxyUrlOf u) = Some resp ->
  run handle (downloadAndCache u r) s = (Resolved d, s') ->
  let header := default "" (wallpaperSource resp) in
  let absolute := Str.startsWith header "http://" || Str.startsWith header "https://" in
  let recorded := idb (async s) !! metadataKeyOf (getTodayCacheKey r (sync s)) in
  blobUrl d = blobUrlOf (nextHandle (async s)) /\
  handles (async s') !! blobUrl d = Some (respBody resp) /\
  (isFallback d = true <-> r = "4k" /\ (size (respBody resp) < 500 * 1024)%N) /\
  (absolute = true -> dl_originalUrl d = header) /\
  (absolute = false ->
   forall origin, recorded = Some (metadataBlob origin) -> origin <> "" ->
                  dl_originalUrl d = origin) /\
  (absolute = false -> recorded = None -> dl_originalUrl d = u).
Proof.
  intros Hnet. rewrite run_downloadAndCache, Hnet. cbv zeta.
  destruct (Str.includes _ _); [done |].
  destruct (_ =? 0)%N; [done |].
  assert (Hfb : (r =? "4k")%string && (size (respBody resp) <? min4kSize)%N = true <->
                r = "4k" /\ (size (respBody resp) < 500 * 1024)%N).
  { rewrite andb_true_iff, String.eqb_eq, N.ltb_lt. done. }
  assert (Horigin :
    (Str.startsWith (default "" (wallpaperSource resp)) "http://"
     || Str.startsWith (default "" (wallpaperSource resp)) "https://" = true ->
     originOf u r resp s = default "" (wallpaperSource resp)) /\
    (Str.startsWith (default "" (wallpaperSource resp)) "http://"
     || Str.startsWith (default "" (wallpaperSource resp)) "https://" = false ->
     forall origin,
       idb (async s) !! metadataKeyOf (getTodayCacheKey r (sync s)) = Some (metadataBlob origin) ->
       origin <> "" -> originOf u r resp s = origin) /\
    (Str.startsWith (default "" (wallpaperSource resp)) "http://"
     || Str.startsWith (default "" (wallpaperSource resp)) "https://" = false ->
     idb (async s) !! metadataKeyOf (getTodayCacheKey r (sync s)) = None ->
     originOf u r resp s = u)).
  { unfold originOf, storedOriginalUrl. split; [by intros -> |]. split.
    - intros -> origin -> Hne. simpl. by destruct origin.
    - intros -> ->. done. }
  destruct ((r =? "4k")%string && (size (respBody resp) <? min4kSize)%N) eqn:Hsmall;
    intros [= <- <-]; simpl; rewrite lookup_insert_eq;
    (split; [done |]); (split; [done |]); (split; [| exact Horigin]).
  - split; [intros _; by apply Hfb | done].
  - split; [done |]. intros Hr%Hfb. done.
Qed.

Lemma download_report_witness :
  let u := "https://proj.supabase.co/w" in
  let resp := mkResponse 200 (Some "image/jpeg") (Some "cache") (jpeg 900000) in
  let s := cachedState 20759 20759 "4k" (fun _ => Some resp) in
  let d := mkDownloaded "blob:0" "https://www.bing.com/th?id=OHR.Old" false in
  let s' := stored (getTodayCacheKey "4k" (sync s)) (jpeg 900000)
                   "https://www.bing.com/th?id=OHR.Old" s in
  let header := default "" (wallpaperSource resp) in
  let absolute := Str.startsWith header "http://" || Str.startsWith header "https://" in
  let recorded := idb (async s) !! metadataKeyOf (getTodayCacheKey "4k" (sync s)) in
  blobUrl d = blobUrlOf (nextHandle (async s)) /\
  handles (async s') !! blobUrl d = Some (respBody resp) /\
  (isFallback d = true <-> "4k" = "4k" /\ (size (respBody resp) < 500 * 1024)%N) /\
  (absolute = true -> dl_originalUrl d = header) /\
  (absolute = false ->
   forall origin, recorded = Some (metadataBlob origin) -> origin <> "" ->
                  dl_originalUrl d = origin) /\
  (absolute = false -> recorded = None -> dl_originalUrl d = u).
Proof.
  cbv zeta.
  apply (download_report "https://proj.supabase.co/w" "4k"
           (cachedState 20759 20759 "4k"
              (fun _ => Some (mkResponse 200 (Some "image/jpeg") (Some "cache") (jpeg 900000))))).
  - reflexivity.
  - vm_compute. reflexivity.
Defined.
